(** * The to-do component ([app/components/todo-app.tsx]) as a shallow embedding

    The component keeps a list of tasks in React state, changes it through
    the handlers [addTask], [toggleTask], [deleteTask] and
    [updateTaskPriority], shows the view [filteredTasks], and mirrors the
    list to [localStorage] under the key ["todos"] from two effects.

    TypeScript types are erased when the component runs: the list that the
    load effect installs is whatever [JSON.parse] returned.  The state is
    therefore modelled with JavaScript values, and the type [Task] of the
    source is a view ([as_task]) on such values. *)

From Stdlib Require Import List NArith ZArith Bool Arith Lia String Ascii.
From Stdlib Require Import DecimalString.
Import ListNotations.

Set Implicit Arguments.
Set Warnings "-register-all".

(** ** Strings

    A JavaScript string is a sequence of UTF-16 code units. *)

Definition jsstring := list N.

Fixpoint str (s : string) : jsstring :=
  match s with
  | EmptyString => []
  | String c r => N_of_ascii c :: str r
  end.

Fixpoint str_eqb (a b : jsstring) : bool :=
  match a, b with
  | [], [] => true
  | x :: a', y :: b' => N.eqb x y && str_eqb a' b'
  | _, _ => false
  end.

(** [WhiteSpace] and [LineTerminator] of ECMAScript, the code points that
    [String.prototype.trim] strips. *)
Definition is_white_space (c : N) : bool :=
  (N.leb 9 c && N.leb c 13)            (* TAB, LF, VT, FF, CR *)
  || N.eqb c 32                        (* SPACE *)
  || N.eqb c 160                       (* NO-BREAK SPACE *)
  || N.eqb c 5760                      (* U+1680 *)
  || (N.leb 8192 c && N.leb c 8202)    (* U+2000 .. U+200A *)
  || N.eqb c 8232 || N.eqb c 8233      (* LINE and PARAGRAPH SEPARATOR *)
  || N.eqb c 8239                      (* U+202F *)
  || N.eqb c 8287                      (* U+205F *)
  || N.eqb c 12288                     (* U+3000 *)
  || N.eqb c 65279.                    (* U+FEFF *)

Fixpoint trim_start (s : jsstring) : jsstring :=
  match s with
  | c :: r => if is_white_space c then trim_start r else s
  | [] => []
  end.

Definition trim_end (s : jsstring) : jsstring := rev (trim_start (rev s)).

(** [s.trim()] *)
Definition trim (s : jsstring) : jsstring := trim_end (trim_start s).

(** Decimal numeral of a natural number, as the runtime writes an index. *)
Definition nat_to_str (n : nat) : jsstring :=
  str (NilEmpty.string_of_uint (Nat.to_uint n)).

(** ** Values *)

(** The values that can reach the component: what [JSON.parse] builds, what
    the handlers build, and [undefined].  A number is kept as the literal
    [JSON.parse] read it from; the rounding of that literal to a double and
    every computation on the double belong to the runtime (see [Runtime]). *)
Inductive value : Type :=
| VUndefined
| VNull
| VBool (b : bool)
| VNumber (literal : jsstring)
| VString (s : jsstring)
| VArray (elems : list value)
| VObject (props : list (jsstring * value)).

(** Own properties of an object, in the order the runtime enumerates them. *)
Definition props := list (jsstring * value).

Inductive exn : Type :=
| SyntaxError
| TypeError
| SecurityError
| QuotaExceededError.

Inductive outcome (A : Type) : Type :=
| Ok (a : A)
| Throw (e : exn).
Arguments Ok {A} a.
Arguments Throw {A} e.

Fixpoint lookup (k : jsstring) (ps : props) : option value :=
  match ps with
  | [] => None
  | (k', v) :: r => if str_eqb k k' then Some v else lookup k r
  end.

(** An array index is the canonical numeral of an integer below 2^32 - 1. *)
Definition is_digit (c : N) : bool := N.leb 48 c && N.leb c 57.

Definition digits_value (s : jsstring) : N :=
  fold_left (fun acc c => (10 * acc + (c - 48))%N) s 0%N.

Definition array_index (k : jsstring) : option N :=
  match k with
  | [] => None
  | c :: r =>
      if forallb is_digit k
         && (negb (N.eqb c 48) || match r with [] => true | _ => false end)
         && Nat.leb (List.length k) 10
         && N.ltb (digits_value k) 4294967295
      then Some (digits_value k) else None
  end.

(** Position of a new key among the own properties: integer keys come
    first, in ascending order, then the other keys in creation order. *)
Fixpoint insert_index (i : N) (k : jsstring) (v : value) (ps : props) : props :=
  match ps with
  | [] => [(k, v)]
  | (k', v') :: r =>
      match array_index k' with
      | Some j => if N.ltb i j then (k, v) :: ps
                  else (k', v') :: insert_index i k v r
      | None => (k, v) :: ps
      end
  end.

Fixpoint replace_prop (k : jsstring) (v : value) (ps : props) : props :=
  match ps with
  | [] => []
  | (k', v') :: r =>
      if str_eqb k k' then (k', v) :: r else (k', v') :: replace_prop k v r
  end.

(** [CreateDataProperty]: an existing key keeps its place and takes the
    new value, a new key is added. *)
Definition define_prop (k : jsstring) (v : value) (ps : props) : props :=
  match lookup k ps with
  | Some _ => replace_prop k v ps
  | None =>
      match array_index k with
      | Some i => insert_index i k v ps
      | None => ps ++ [(k, v)]
      end
  end.

(** Field names and constants of the component. *)
Definition k_id : jsstring := Eval cbv in str "id".
Definition k_text : jsstring := Eval cbv in str "text".
Definition k_completed : jsstring := Eval cbv in str "completed".
Definition k_priority : jsstring := Eval cbv in str "priority".
Definition k_length : jsstring := Eval cbv in str "length".
Definition k_todos : jsstring := Eval cbv in str "todos".
Definition k_test : jsstring := Eval cbv in str "__test__".
Definition tab_all : jsstring := Eval cbv in str "all".
Definition tab_active : jsstring := Eval cbv in str "active".
Definition tab_completed : jsstring := Eval cbv in str "completed".
Definition key_Enter : jsstring := Eval cbv in str "Enter".

(** ** The runtime

    What the browser decides and the component cannot see into: the
    identifiers [crypto.randomUUID] hands out, the arithmetic of doubles, and
    the quota of the storage area.  Every function below takes the runtime as
    an argument and every theorem holds for all runtimes. *)
Record Runtime : Type := {
  (** the n-th identifier returned by [crypto.randomUUID()] *)
  uuid_nth : nat -> jsstring;
  (** [JSON.stringify] of the number a literal denotes *)
  number_to_json : jsstring -> jsstring;
  (** [ToBoolean] of the number a literal denotes *)
  number_truthy : jsstring -> bool;
  (** [x > 0] for a number, string, array or object [x] *)
  greater_than_zero : value -> outcome bool;
  (** whether the storage area may hold these items *)
  quota_allows : list (jsstring * jsstring) -> bool
}.

(** ** JSON text

    [JSON.stringify] and [JSON.parse] of the runtime, on strings of code
    units. *)

Module JSON.

Definition hex_digit (n : N) : N :=
  if N.ltb n 10 then (48 + n)%N else (87 + n)%N.

(** [\uXXXX] with lower-case digits, as [JSON.stringify] writes it. *)
Definition unicode_escape (c : N) : jsstring :=
  [92; 117; hex_digit (N.shiftr c 12 mod 16); hex_digit (N.shiftr c 8 mod 16);
   hex_digit (N.shiftr c 4 mod 16); hex_digit (c mod 16)]%N.

Definition is_high_surrogate (c : N) : bool := N.leb 55296 c && N.leb c 56319.
Definition is_low_surrogate (c : N) : bool := N.leb 56320 c && N.leb c 57343.

(** [QuoteJSONString] without the enclosing quotes: the two-character
    escapes, [\uXXXX] for the other control characters and for a surrogate
    that is not part of a pair, every other code unit as it is. *)
Fixpoint quote_chars (s : jsstring) : jsstring :=
  match s with
  | [] => []
  | c :: r =>
      if N.eqb c 8 then 92 :: 98 :: quote_chars r
      else if N.eqb c 9 then 92 :: 116 :: quote_chars r
      else if N.eqb c 10 then 92 :: 110 :: quote_chars r
      else if N.eqb c 12 then 92 :: 102 :: quote_chars r
      else if N.eqb c 13 then 92 :: 114 :: quote_chars r
      else if N.eqb c 34 then 92 :: 34 :: quote_chars r
      else if N.eqb c 92 then 92 :: 92 :: quote_chars r
      else if N.ltb c 32 then unicode_escape c ++ quote_chars r
      else if is_high_surrogate c then
        match r with
        | d :: r' =>
            if is_low_surrogate d then c :: d :: quote_chars r'
            else unicode_escape c ++ quote_chars r
        | [] => unicode_escape c
        end
      else if is_low_surrogate c then unicode_escape c ++ quote_chars r
      else c :: quote_chars r
  end%N.

Definition quote (s : jsstring) : jsstring := (34 :: quote_chars s ++ [34])%N.

Fixpoint join_comma (parts : list jsstring) : jsstring :=
  match parts with
  | [] => []
  | [p] => p
  | p :: r => p ++ 44%N :: join_comma r
  end.

Definition lit_null : jsstring := Eval cbv in str "null".
Definition lit_true : jsstring := Eval cbv in str "true".
Definition lit_false : jsstring := Eval cbv in str "false".
Definition lit_undefined : jsstring := Eval cbv in str "undefined".

(** [JSON.stringify(v)] with no replacer and no indentation.  [None] is the
    result [undefined]; inside an array [undefined] is written [null], in an
    object a property whose value is [undefined] is left out. *)
Fixpoint stringify (rt : Runtime) (v : value) : option jsstring :=
  match v with
  | VUndefined => None
  | VNull => Some lit_null
  | VBool b => Some (if b then lit_true else lit_false)
  | VNumber l => Some (number_to_json rt l)
  | VString s => Some (quote s)
  | VArray l =>
      Some (91%N :: join_comma
              (map (fun x => match stringify rt x with
                             | Some t => t
                             | None => lit_null
                             end) l) ++ [93%N])
  | VObject ps =>
      Some (123%N :: join_comma
              (flat_map (fun p => match stringify rt (snd p) with
                                  | Some t => [quote (fst p) ++ 58%N :: t]
                                  | None => []
                                  end) ps) ++ [125%N])
  end.

Definition is_json_space (c : N) : bool :=
  N.eqb c 9 || N.eqb c 10 || N.eqb c 13 || N.eqb c 32.

Fixpoint skip_ws (s : jsstring) : jsstring :=
  match s with
  | c :: r => if is_json_space c then skip_ws r else s
  | [] => []
  end.

Definition hex_value (c : N) : option N :=
  if N.leb 48 c && N.leb c 57 then Some (c - 48)%N
  else if N.leb 97 c && N.leb c 102 then Some (c - 87)%N
  else if N.leb 65 c && N.leb c 70 then Some (c - 55)%N
  else None.

Definition hex4 (a b c d : N) : option N :=
  match hex_value a, hex_value b, hex_value c, hex_value d with
  | Some x, Some y, Some z, Some w => Some (((x * 16 + y) * 16 + z) * 16 + w)%N
  | _, _, _, _ => None
  end.

Definition single_escape (e : N) : option N :=
  if N.eqb e 34 then Some 34%N          (* quotation mark *)
  else if N.eqb e 92 then Some 92%N     (* reverse solidus *)
  else if N.eqb e 47 then Some 47%N     (* solidus *)
  else if N.eqb e 98 then Some 8%N      (* b: backspace *)
  else if N.eqb e 102 then Some 12%N    (* f: form feed *)
  else if N.eqb e 110 then Some 10%N    (* n: line feed *)
  else if N.eqb e 114 then Some 13%N    (* r: carriage return *)
  else if N.eqb e 116 then Some 9%N     (* t: tab *)
  else None.

Definition cons_char (c : N) (r : option (jsstring * jsstring))
  : option (jsstring * jsstring) :=
  match r with
  | Some (s, rest) => Some (c :: s, rest)
  | None => None
  end.

(** A JSON string after its opening quote: the characters up to the closing
    quote, and the text that follows it. *)
Fixpoint parse_string_chars (s : jsstring) : option (jsstring * jsstring) :=
  match s with
  | [] => None
  | c :: r =>
      if N.eqb c 34 then Some ([], r)
      else if N.eqb c 92 then
        match r with
        | [] => None
        | e :: r1 =>
            if N.eqb e 117 then
              match r1 with
              | h1 :: h2 :: h3 :: h4 :: r2 =>
                  match hex4 h1 h2 h3 h4 with
                  | Some u => cons_char u (parse_string_chars r2)
                  | None => None
                  end
              | _ => None
              end
            else
              match single_escape e with
              | Some u => cons_char u (parse_string_chars r1)
              | None => None
              end
        end
      else if N.ltb c 32 then None
      else cons_char c (parse_string_chars r)
  end.

Fixpoint span_digits (s : jsstring) : jsstring * jsstring :=
  match s with
  | c :: r => if is_digit c
              then let (d, rest) := span_digits r in (c :: d, rest)
              else ([], s)
  | [] => ([], [])
  end.

(** The integer part of a JSON number: [0], or digits that do not start
    with [0]. *)
Definition parse_int_part (s : jsstring) : option (jsstring * jsstring) :=
  match s with
  | c :: r =>
      if N.eqb c 48 then Some ([c], r)
      else if is_digit c then let (d, rest) := span_digits r in Some (c :: d, rest)
      else None
  | [] => None
  end.

Definition parse_frac_part (s : jsstring) : option (jsstring * jsstring) :=
  match s with
  | c :: r =>
      if N.eqb c 46 then
        match span_digits r with
        | ([], _) => None
        | (d, rest) => Some (c :: d, rest)
        end
      else Some ([], s)
  | [] => Some ([], [])
  end.

Definition parse_exp_part (s : jsstring) : option (jsstring * jsstring) :=
  match s with
  | c :: r =>
      if N.eqb c 101 || N.eqb c 69 then
        let (sign, r1) :=
          match r with
          | g :: r' => if N.eqb g 43 || N.eqb g 45 then ([g], r') else ([], r)
          | [] => ([], r)
          end in
        match span_digits r1 with
        | ([], _) => None
        | (d, rest) => Some (c :: sign ++ d, rest)
        end
      else Some ([], s)
  | [] => Some ([], [])
  end.

(** A JSON number: the literal read, and the text that follows it. *)
Definition parse_number (s : jsstring) : option (jsstring * jsstring) :=
  let (minus, s0) :=
    match s with
    | c :: r => if N.eqb c 45 then ([c], r) else ([], s)
    | [] => ([], s)
    end in
  match parse_int_part s0 with
  | None => None
  | Some (i, s1) =>
      match parse_frac_part s1 with
      | None => None
      | Some (f, s2) =>
          match parse_exp_part s2 with
          | None => None
          | Some (e, s3) => Some (minus ++ i ++ f ++ e, s3)
          end
      end
  end.

Fixpoint strip_prefix (p s : jsstring) : option jsstring :=
  match p, s with
  | [], _ => Some s
  | a :: p', b :: s' => if N.eqb a b then strip_prefix p' s' else None
  | _ :: _, [] => None
  end.

(** What reading one item from the head of a text gives: the item and the
    text that follows it, or the verdict that the text is not JSON.  The
    third case belongs to the model only: the bound on the depth of the
    calls was too small (it never is, see [parse_never_out_of_fuel]). *)
Inductive parsed (A : Type) : Type :=
| Parsed (a : A) (rest : jsstring)
| NoParse
| OutOfFuel.
Arguments Parsed {A} a rest.
Arguments NoParse {A}.
Arguments OutOfFuel {A}.

(** One JSON value at the head of the text, after optional white space; the
    elements of an array after its opening bracket; the members of an object
    after its opening brace.  [fuel] bounds the depth of the calls. *)
Fixpoint parse_value (fuel : nat) (s : jsstring) {struct fuel} : parsed value :=
  match fuel with
  | O => OutOfFuel
  | S f =>
      match skip_ws s with
      | [] => NoParse
      | c :: r =>
          if N.eqb c 34 then
            match parse_string_chars r with
            | Some (t, rest) => Parsed (VString t) rest
            | None => NoParse
            end
          else if N.eqb c 91 then
            match skip_ws r with
            | d :: r' =>
                if N.eqb d 93 then Parsed (VArray []) r'
                else match parse_elements f (d :: r') with
                     | Parsed l rest => Parsed (VArray l) rest
                     | NoParse => NoParse
                     | OutOfFuel => OutOfFuel
                     end
            | [] => NoParse
            end
          else if N.eqb c 123 then
            match skip_ws r with
            | d :: r' =>
                if N.eqb d 125 then Parsed (VObject []) r'
                else match parse_members f [] (d :: r') with
                     | Parsed ps rest => Parsed (VObject ps) rest
                     | NoParse => NoParse
                     | OutOfFuel => OutOfFuel
                     end
            | [] => NoParse
            end
          else
            match strip_prefix lit_null (c :: r) with
            | Some rest => Parsed VNull rest
            | None =>
            match strip_prefix lit_true (c :: r) with
            | Some rest => Parsed (VBool true) rest
            | None =>
            match strip_prefix lit_false (c :: r) with
            | Some rest => Parsed (VBool false) rest
            | None =>
            match parse_number (c :: r) with
            | Some (l, rest) => Parsed (VNumber l) rest
            | None => NoParse
            end end end end
      end
  end

with parse_elements (fuel : nat) (s : jsstring) {struct fuel}
  : parsed (list value) :=
  match fuel with
  | O => OutOfFuel
  | S f =>
      match parse_value f s with
      | NoParse => NoParse
      | OutOfFuel => OutOfFuel
      | Parsed v s1 =>
          match skip_ws s1 with
          | c :: r =>
              if N.eqb c 93 then Parsed [v] r
              else if N.eqb c 44 then
                match parse_elements f r with
                | Parsed l rest => Parsed (v :: l) rest
                | NoParse => NoParse
                | OutOfFuel => OutOfFuel
                end
              else NoParse
          | [] => NoParse
          end
      end
  end

with parse_members (fuel : nat) (acc : props) (s : jsstring) {struct fuel}
  : parsed props :=
  match fuel with
  | O => OutOfFuel
  | S f =>
      match skip_ws s with
      | q :: s0 =>
          if N.eqb q 34 then
            match parse_string_chars s0 with
            | None => NoParse
            | Some (k, s1) =>
                match skip_ws s1 with
                | c :: s2 =>
                    if N.eqb c 58 then
                      match parse_value f s2 with
                      | NoParse => NoParse
                      | OutOfFuel => OutOfFuel
                      | Parsed v s3 =>
                          match skip_ws s3 with
                          | d :: r =>
                              if N.eqb d 125
                              then Parsed (define_prop k v acc) r
                              else if N.eqb d 44
                              then parse_members f (define_prop k v acc) r
                              else NoParse
                          | [] => NoParse
                          end
                      end
                    else NoParse
                | [] => NoParse
                end
            end
          else NoParse
      | [] => NoParse
      end
  end.

(** [JSON.parse(text)] with no reviver: one value, then only white space.
    Twice the length of the text, and two, bounds the depth of the calls:
    between a call and the second call below it at least one character is
    read. *)
Definition parse (text : jsstring) : outcome value :=
  match parse_value (2 * List.length text + 2) text with
  | Parsed v rest =>
      match skip_ws rest with
      | [] => Ok v
      | _ :: _ => Throw SyntaxError
      end
  | NoParse | OutOfFuel => Throw SyntaxError
  end.

End JSON.
Import JSON.

(** ** The world outside the component *)

(** The storage area of the page.  When access to it is [blocked] every
    operation on [localStorage] throws; [setItem] also throws when the
    runtime's quota refuses the items that would result. *)
Record LocalStorage : Type := {
  blocked : bool;
  items : list (jsstring * jsstring)
}.

Inductive level : Type := Log | Error.

Inductive audio_op : Type :=
| InitializeAudio
| PlayCompleteSound
| PlayDeleteSound.

Record World : Type := {
  storage : LocalStorage;
  console : list (level * string);    (* oldest message first *)
  uuids_drawn : nat;                  (* calls of [crypto.randomUUID] so far *)
  audio : list audio_op               (* sound cues requested so far *)
}.

Fixpoint item_get (k : jsstring) (l : list (jsstring * jsstring)) : option jsstring :=
  match l with
  | [] => None
  | (k', v) :: r => if str_eqb k k' then Some v else item_get k r
  end.

Fixpoint item_remove (k : jsstring) (l : list (jsstring * jsstring))
  : list (jsstring * jsstring) :=
  match l with
  | [] => []
  | (k', v) :: r => if str_eqb k k' then r else (k', v) :: item_remove k r
  end.

Fixpoint item_set (k v : jsstring) (l : list (jsstring * jsstring))
  : list (jsstring * jsstring) :=
  match l with
  | [] => [(k, v)]
  | (k', v') :: r => if str_eqb k k' then (k', v) :: r else (k', v') :: item_set k v r
  end.

(** Computations that read and change the world and may throw. *)
Definition M (A : Type) : Type := World -> outcome A * World.

Definition ret {A} (a : A) : M A := fun w => (Ok a, w).

Definition throw {A} (e : exn) : M A := fun w => (Throw e, w).

Definition bind {A B} (m : M A) (k : A -> M B) : M B :=
  fun w => match m w with
           | (Ok a, w') => k a w'
           | (Throw e, w') => (Throw e, w')
           end.

(** [try { body } catch (e) { handler }] *)
Definition try_catch {A} (body : M A) (handler : exn -> M A) : M A :=
  fun w => match body w with
           | (Ok a, w') => (Ok a, w')
           | (Throw e, w') => handler e w'
           end.

Definition lift {A} (o : outcome A) : M A := fun w => (o, w).

Declare Scope js_scope.
Delimit Scope js_scope with js.
Notation "x <- m ;; k" := (bind m (fun x => k))
  (at level 61, m at next level, right associativity) : js_scope.
Notation "m ;; k" := (bind m (fun _ => k))
  (at level 61, right associativity) : js_scope.
Open Scope js_scope.

Fixpoint mapM {A B} (f : A -> M B) (l : list A) : M (list B) :=
  match l with
  | [] => ret []
  | x :: r => y <- f x ;; ys <- mapM f r ;; ret (y :: ys)
  end.

Fixpoint filterM {A} (f : A -> M bool) (l : list A) : M (list A) :=
  match l with
  | [] => ret []
  | x :: r => keep <- f x ;; ys <- filterM f r ;;
              ret (if keep then x :: ys else ys)
  end.

Definition console_log (msg : string) : M unit :=
  fun w => (Ok tt, {| storage := storage w; console := console w ++ [(Log, msg)];
                      uuids_drawn := uuids_drawn w; audio := audio w |}).

Definition console_error (msg : string) : M unit :=
  fun w => (Ok tt, {| storage := storage w; console := console w ++ [(Error, msg)];
                      uuids_drawn := uuids_drawn w; audio := audio w |}).

Definition request_audio (op : audio_op) : M unit :=
  fun w => (Ok tt, {| storage := storage w; console := console w;
                      uuids_drawn := uuids_drawn w; audio := audio w ++ [op] |}).

Definition with_items (l : list (jsstring * jsstring)) (w : World) : World :=
  {| storage := {| blocked := blocked (storage w); items := l |};
     console := console w; uuids_drawn := uuids_drawn w; audio := audio w |}.

Module localStorage.

(** [localStorage.getItem(k)]; [None] is [null]. *)
Definition getItem (k : jsstring) : M (option jsstring) :=
  fun w => if blocked (storage w) then (Throw SecurityError, w)
           else (Ok (item_get k (items (storage w))), w).

(** [localStorage.setItem(k, v)] *)
Definition setItem (rt : Runtime) (k v : jsstring) : M unit :=
  fun w => if blocked (storage w) then (Throw SecurityError, w)
           else let l := item_set k v (items (storage w)) in
                if quota_allows rt l then (Ok tt, with_items l w)
                else (Throw QuotaExceededError, w).

(** [localStorage.removeItem(k)] *)
Definition removeItem (k : jsstring) : M unit :=
  fun w => if blocked (storage w) then (Throw SecurityError, w)
           else (Ok tt, with_items (item_remove k (items (storage w))) w).

End localStorage.

Module crypto.

(** [crypto.randomUUID()] *)
Definition randomUUID (rt : Runtime) : M jsstring :=
  fun w => (Ok (uuid_nth rt (uuids_drawn w)),
            {| storage := storage w; console := console w;
               uuids_drawn := S (uuids_drawn w); audio := audio w |}).

End crypto.

(** ** Operations of the language on values *)

(** [v.k] for [k] one of the field names of a task, which no built-in
    prototype defines: only an object can have it, and reading it from
    [undefined] or [null] throws. *)
Definition field (v : value) (k : jsstring) : outcome value :=
  match v with
  | VUndefined | VNull => Throw TypeError
  | VObject ps => Ok (match lookup k ps with Some x => x | None => VUndefined end)
  | VBool _ | VNumber _ | VString _ | VArray _ => Ok VUndefined
  end.

(** [v === s] for a string [s] *)
Definition strict_equals_string (v : value) (s : jsstring) : bool :=
  match v with
  | VString t => str_eqb t s
  | _ => false
  end.

(** [ToBoolean] *)
Definition to_boolean (rt : Runtime) (v : value) : bool :=
  match v with
  | VUndefined | VNull => false
  | VBool b => b
  | VNumber l => number_truthy rt l
  | VString s => match s with [] => false | _ :: _ => true end
  | VArray _ | VObject _ => true
  end.

(** The own enumerable properties that a spread [{...v}] copies, in
    enumeration order. *)
Definition spread_props (v : value) : props :=
  match v with
  | VObject ps => ps
  | VArray l => combine (map nat_to_str (seq 0 (List.length l))) l
  | VString s =>
      combine (map nat_to_str (seq 0 (List.length s))) (map (fun c => VString [c]) s)
  | VUndefined | VNull | VBool _ | VNumber _ => []
  end.

(** The strings a string iterates over: its code points. *)
Fixpoint code_points (s : jsstring) : list jsstring :=
  match s with
  | [] => []
  | c :: r =>
      if is_high_surrogate c then
        match r with
        | d :: r' => if is_low_surrogate d then [c; d] :: code_points r'
                     else [c] :: code_points r
        | [] => [[c]]
        end
      else [c] :: code_points r
  end.

(** The elements an array spread [[...v]] takes from [v]. *)
Definition iterate (v : value) : outcome (list value) :=
  match v with
  | VArray l => Ok l
  | VString s => Ok (map VString (code_points s))
  | VUndefined | VNull | VBool _ | VNumber _ | VObject _ => Throw TypeError
  end.

(** [v.map(f)] and [v.filter(f)]: only an array has these methods. *)
Definition array_map (f : value -> M value) (v : value) : M value :=
  match v with
  | VArray l => l' <- mapM f l ;; ret (VArray l')
  | _ => throw TypeError
  end.

Definition array_filter (f : value -> M bool) (v : value) : M value :=
  match v with
  | VArray l => l' <- filterM f l ;; ret (VArray l')
  | _ => throw TypeError
  end.

(** [v.length === 0] *)
Definition length_is_zero (rt : Runtime) (v : value) : outcome bool :=
  match v with
  | VUndefined | VNull => Throw TypeError
  | VArray l => Ok (Nat.eqb (List.length l) 0)
  | VString s => Ok (Nat.eqb (List.length s) 0)
  | VObject ps =>
      Ok (match lookup k_length ps with
          | Some (VNumber n) => negb (number_truthy rt n)
          | _ => false
          end)
  | VBool _ | VNumber _ => Ok false
  end.

(** [x > 0] *)
Definition gt_zero (rt : Runtime) (x : value) : outcome bool :=
  match x with
  | VUndefined | VNull => Ok false
  | VBool b => Ok b
  | VNumber _ | VString _ | VArray _ | VObject _ => greater_than_zero rt x
  end.

(** [v.length > 0] *)
Definition length_gt_zero (rt : Runtime) (v : value) : outcome bool :=
  match v with
  | VUndefined | VNull => Throw TypeError
  | VArray l => Ok (Nat.ltb 0 (List.length l))
  | VString s => Ok (Nat.ltb 0 (List.length s))
  | VObject ps =>
      match lookup k_length ps with
      | Some x => gt_zero rt x
      | None => Ok false
      end
  | VBool _ | VNumber _ => Ok false
  end.

(** ** The component: types and state *)

Inductive Priority : Type := P1 | P2 | P3.

(** [type Task = { id: string; text: string; completed: boolean;
    priority?: Priority }] *)
Record Task : Type := {
  id : jsstring;
  text : jsstring;
  completed : bool;
  priority : option Priority
}.

Definition name_P1 : jsstring := Eval cbv in str "P1".
Definition name_P2 : jsstring := Eval cbv in str "P2".
Definition name_P3 : jsstring := Eval cbv in str "P3".

Definition priority_name (p : Priority) : jsstring :=
  match p with
  | P1 => name_P1
  | P2 => name_P2
  | P3 => name_P3
  end.

(** A value of type [Priority | undefined]. *)
Definition priority_value (p : option Priority) : value :=
  match p with
  | Some q => VString (priority_name q)
  | None => VUndefined
  end.

Definition as_priority (v : value) : option (option Priority) :=
  match v with
  | VUndefined => Some None
  | VString s =>
      if str_eqb s (priority_name P1) then Some (Some P1)
      else if str_eqb s (priority_name P2) then Some (Some P2)
      else if str_eqb s (priority_name P3) then Some (Some P3)
      else None
  | _ => None
  end.

(** The task a value is, when it has the type [Task]: an object whose [id]
    and [text] are strings, whose [completed] is a boolean and whose
    [priority] is absent, [undefined] or a priority. *)
Definition as_task (v : value) : option Task :=
  match v with
  | VObject ps =>
      match lookup k_id ps, lookup k_text ps, lookup k_completed ps with
      | Some (VString i), Some (VString t), Some (VBool c) =>
          match as_priority (match lookup k_priority ps with
                             | Some p => p
                             | None => VUndefined
                             end) with
          | Some p => Some {| id := i; text := t; completed := c; priority := p |}
          | None => None
          end
      | _, _, _ => None
      end
  | _ => None
  end.

Definition is_task (v : value) : bool :=
  match as_task v with Some _ => true | None => false end.

(** The object literal of [addTask]. *)
Definition task_object (t : Task) : value :=
  VObject [(k_id, VString (id t)); (k_text, VString (text t));
           (k_completed, VBool (completed t));
           (k_priority, priority_value (priority t))].

(** The state hooks of [TodoApp] that the handlers and the effects read.
    [tasks_rev] counts the calls of [setTasks]: every call passes a new
    array, so the effect that depends on [tasks] runs again exactly when the
    count has changed.  [audioEnabled] and the refs are written by
    asynchronous callbacks only and decide whether a requested sound is
    heard; they are left out. *)
Record State : Type := {
  tasks : value;
  newTask : jsstring;
  selectedPriority : option Priority;
  activeTab : jsstring;
  tasks_rev : nat
}.

(** [useState<Task[]>([])], [useState("")], [useState(undefined)],
    [useState("all")] *)
Definition initial_state : State :=
  {| tasks := VArray []; newTask := []; selectedPriority := None;
     activeTab := tab_all; tasks_rev := 0 |}.

Definition setTasks (v : value) (s : State) : State :=
  {| tasks := v; newTask := newTask s; selectedPriority := selectedPriority s;
     activeTab := activeTab s; tasks_rev := S (tasks_rev s) |}.

Definition setNewTask (t : jsstring) (s : State) : State :=
  {| tasks := tasks s; newTask := t; selectedPriority := selectedPriority s;
     activeTab := activeTab s; tasks_rev := tasks_rev s |}.

Definition setSelectedPriority (p : option Priority) (s : State) : State :=
  {| tasks := tasks s; newTask := newTask s; selectedPriority := p;
     activeTab := activeTab s; tasks_rev := tasks_rev s |}.

Definition setActiveTab (t : jsstring) (s : State) : State :=
  {| tasks := tasks s; newTask := newTask s; selectedPriority := selectedPriority s;
     activeTab := t; tasks_rev := tasks_rev s |}.

(** ** The component: persistence *)

(** [initializeAudio()] and the two [play...Sound()] calls start
    asynchronous work and catch every error themselves; what the caller sees
    is that the cue was requested. *)
Definition initializeAudio : M unit := request_audio InitializeAudio.
Definition playCompleteSound : M unit := request_audio PlayCompleteSound.
Definition playDeleteSound : M unit := request_audio PlayDeleteSound.

Definition isLocalStorageAvailable (rt : Runtime) : M bool :=
  try_catch
    (localStorage.setItem rt k_test k_test ;;
     localStorage.removeItem k_test ;;
     ret true)
    (fun _ =>
       console_error "localStorage is not available:" ;;
       ret false).

(** The effect that loads the tasks when the component mounts.  The result
    is the state with the update it has requested. *)
Definition loadEffect (rt : Runtime) (s : State) : M State :=
  available <- isLocalStorageAvailable rt ;;
  if negb available then
    console_error "localStorage is not available, tasks will not persist" ;;
    ret s
  else
    try_catch
      (console_log "Attempting to load tasks from localStorage..." ;;
       savedTasks <- localStorage.getItem k_todos ;;
       console_log "Raw saved tasks:" ;;
       match savedTasks with
       | Some (c :: t) =>
           parsedTasks <- lift (JSON.parse (c :: t)) ;;
           console_log "Successfully parsed tasks:" ;;
           ret (setTasks parsedTasks s)
       | Some [] | None =>
           console_log "No saved tasks found in localStorage" ;;
           ret s
       end)
      (fun _ =>
         console_error "Error loading tasks from localStorage:" ;;
         ret s).

(** The string [setItem] stores for the result of [JSON.stringify]. *)
Definition to_item (r : option jsstring) : jsstring :=
  match r with
  | Some t => t
  | None => lit_undefined
  end.

(** The effect that saves the tasks whenever they change; [tasks] is the
    list of the render the effect belongs to. *)
Definition saveEffect (rt : Runtime) (tasks : value) : M unit :=
  available <- isLocalStorageAvailable rt ;;
  if negb available then ret tt
  else
    (* Don't save if tasks is empty and there are existing tasks in localStorage *)
    skip <-
      (empty <- lift (length_is_zero rt tasks) ;;
       if empty then
         existingTasks <- localStorage.getItem k_todos ;;
         match existingTasks with
         | Some (c :: t) =>
             parsedExistingTasks <- lift (JSON.parse (c :: t)) ;;
             lift (length_gt_zero rt parsedExistingTasks)
         | Some [] | None => ret false
         end
       else ret false) ;;
    if skip then ret tt
    else
      try_catch
        (console_log "Saving tasks to localStorage:" ;;
         let tasksString := JSON.stringify rt tasks in
         localStorage.setItem rt k_todos (to_item tasksString) ;;
         savedTasks <- localStorage.getItem k_todos ;;
         console_log "Verified saved tasks:")
        (fun _ => console_error "Error saving tasks to localStorage:").

(** ** The component: handlers

    A handler returns the value its call returns and the state with the
    updates it has requested. *)

Definition addTask (rt : Runtime) (s : State) : M (value * State) :=
  if str_eqb (trim (newTask s)) [] then ret (VUndefined, s)
  else
    uuid <- crypto.randomUUID rt ;;
    let task := VObject [(k_id, VString uuid);
                         (k_text, VString (trim (newTask s)));
                         (k_completed, VBool false);
                         (k_priority, priority_value (selectedPriority s))] in
    elems <- lift (iterate (tasks s)) ;;
    ret (VUndefined,
         setSelectedPriority None (setNewTask [] (setTasks (VArray (elems ++ [task])) s))).

(** The arrow function [updateTaskPriority] maps over the tasks. *)
Definition updateTaskPriority_each (id : jsstring) (priority : option Priority)
  (task : value) : M value :=
  task_id <- lift (field task k_id) ;;
  if strict_equals_string task_id id
  then ret (VObject (define_prop k_priority (priority_value priority)
                       (spread_props task)))
  else ret task.

Definition updateTaskPriority (s : State) (id : jsstring) (priority : option Priority)
  : M (value * State) :=
  updated <- array_map (updateTaskPriority_each id priority) (tasks s) ;;
  ret (VUndefined, setTasks updated s).

(** The arrow function [toggleTask] maps over the tasks. *)
Definition toggleTask_each (rt : Runtime) (id : jsstring) (task : value) : M value :=
  task_id <- lift (field task k_id) ;;
  if strict_equals_string task_id id then
    was <- lift (field task k_completed) ;;
    (if negb (to_boolean rt was)
     then initializeAudio ;; playCompleteSound
     else ret tt) ;;
    now <- lift (field task k_completed) ;;
    ret (VObject (define_prop k_completed (VBool (negb (to_boolean rt now)))
                    (spread_props task)))
  else ret task.

Definition toggleTask (rt : Runtime) (s : State) (id : jsstring) : M (value * State) :=
  updated <- array_map (toggleTask_each rt id) (tasks s) ;;
  ret (VUndefined, setTasks updated s).

(** The arrow function [deleteTask] filters the tasks with. *)
Definition deleteTask_keep (id : jsstring) (task : value) : M bool :=
  task_id <- lift (field task k_id) ;;
  ret (negb (strict_equals_string task_id id)).

Definition deleteTask (s : State) (id : jsstring) : M (value * State) :=
  initializeAudio ;;
  playDeleteSound ;;
  kept <- array_filter (deleteTask_keep id) (tasks s) ;;
  ret (VUndefined, setTasks kept s).

Definition handleKeyDown (rt : Runtime) (s : State) (key : jsstring)
  : M (value * State) :=
  if str_eqb key key_Enter
  then r <- addTask rt s ;; ret (VUndefined, snd r)
  else ret (VUndefined, s).

(** The arrow function of [filteredTasks]. *)
Definition filteredTasks_keep (rt : Runtime) (activeTab : jsstring) (task : value)
  : M bool :=
  if str_eqb activeTab tab_active then
    c <- lift (field task k_completed) ;; ret (negb (to_boolean rt c))
  else if str_eqb activeTab tab_completed then
    c <- lift (field task k_completed) ;; ret (to_boolean rt c)
  else ret true.

(** [const filteredTasks = tasks.filter(...)], computed by every render. *)
Definition filteredTasks (rt : Runtime) (s : State) : M value :=
  array_filter (filteredTasks_keep rt (activeTab s)) (tasks s).

(** ** The component: rendering, events and the life cycle *)

(** What a render reads: the filtered list, and of every task in it the
    fields the list item shows. *)
Definition render (rt : Runtime) (s : State) : M unit :=
  visible <- filteredTasks rt s ;;
  match visible with
  | VArray l =>
      mapM (fun task =>
              lift (field task k_id) ;;
              lift (field task k_completed) ;;
              lift (field task k_text) ;;
              lift (field task k_priority)) l ;;
      ret tt
  | _ => ret tt
  end.

(** The interactions the markup wires to the state and the handlers. *)
Inductive event : Type :=
| InputChange (v : jsstring)                       (* onChange of the input *)
| PickPriority (p : option Priority)               (* menu next to the input *)
| KeyDown (key : jsstring)                         (* onKeyDown of the input *)
| AddClick                                         (* the plus button *)
| TabChange (tab : jsstring)                       (* onValueChange of the tabs *)
| ToggleClick (id : jsstring)                      (* the round button of a task *)
| PriorityClick (id : jsstring) (p : option Priority)  (* menu of a task *)
| DeleteClick (id : jsstring).                     (* the bin button of a task *)

Definition handle (rt : Runtime) (ev : event) (s : State) : M State :=
  match ev with
  | InputChange v => ret (setNewTask v s)
  | PickPriority p => ret (setSelectedPriority p s)
  | KeyDown key => r <- handleKeyDown rt s key ;; ret (snd r)
  | AddClick => r <- addTask rt s ;; ret (snd r)
  | TabChange tab => ret (setActiveTab tab s)
  | ToggleClick id => r <- toggleTask rt s id ;; ret (snd r)
  | PriorityClick id p => r <- updateTaskPriority s id p ;; ret (snd r)
  | DeleteClick id => r <- deleteTask s id ;; ret (snd r)
  end.

Fixpoint handle_all (rt : Runtime) (evs : list event) (s : State) : M State :=
  match evs with
  | [] => ret s
  | ev :: r => s' <- handle rt ev s ;; handle_all rt r s'
  end.

(** After a handler React renders the new state and then runs the effects
    whose dependencies changed: the save effect, when [setTasks] was called. *)
Definition commit (rt : Runtime) (before after : State) : M unit :=
  render rt after ;;
  if Nat.eqb (tasks_rev before) (tasks_rev after) then ret tt
  else saveEffect rt (tasks after).

Definition dispatch (rt : Runtime) (ev : event) (s : State) : M State :=
  s' <- handle rt ev s ;;
  commit rt s s' ;;
  ret s'.

(** Mounting: the first render, then both effects with the state of that
    render (the save effect still sees the empty list), then the render and
    the save effect for the list the load effect has installed. *)
Definition mount (rt : Runtime) : M State :=
  render rt initial_state ;;
  s1 <- loadEffect rt initial_state ;;
  saveEffect rt (tasks initial_state) ;;
  commit rt initial_state s1 ;;
  ret s1.

(** ** Vocabulary of the statements *)

(** *** Entries seen as tasks *)

(** The value of the [id] field of an entry ([undefined] when it has none). *)
Definition id_of (e : value) : value :=
  match e with
  | VObject ps => match lookup k_id ps with Some x => x | None => VUndefined end
  | _ => VUndefined
  end.

(** The identifiers of a list, in its order. *)
Definition ids (es : list value) : list value := map id_of es.

(** [task.id === i] *)
Definition has_id (i : jsstring) (e : value) : bool :=
  strict_equals_string (id_of e) i.

(** A list all of whose entries have the type [Task]. *)
Definition all_tasks (es : list value) : Prop :=
  Forall (fun e => is_task e = true) es.

(** Whether an entry is a completed task. *)
Definition is_completed (e : value) : bool :=
  match as_task e with Some t => completed t | None => false end.

(** The task a task becomes when its [completed] flag is flipped. *)
Definition flipped (t : Task) : Task :=
  {| id := id t; text := text t; completed := negb (completed t);
     priority := priority t |}.

(** *** What the handlers and the view make of a list *)

(** What [toggleTask] makes of one entry. *)
Definition toggle_entry (rt : Runtime) (i : jsstring) (e : value) : value :=
  if has_id i e then
    VObject (define_prop k_completed
               (VBool (negb (to_boolean rt
                  (match field e k_completed with Ok c => c | Throw _ => VUndefined end))))
               (spread_props e))
  else e.

(** How [toggleTask] with the identifier [i] relates an entry of the old
    list and the entry at the same place of the new list. *)
Definition toggled (i : jsstring) (e e' : value) : Prop :=
  match as_task e with
  | Some t => if str_eqb (id t) i then as_task e' = Some (flipped t) else e' = e
  | None => False
  end.

(** What [updateTaskPriority] makes of one entry. *)
Definition priority_entry (i : jsstring) (p : option Priority) (e : value) : value :=
  if has_id i e
  then VObject (define_prop k_priority (priority_value p) (spread_props e))
  else e.

(** The view of a tab as a list function. *)
Definition view (tab : jsstring) (es : list value) : list value :=
  if str_eqb tab tab_active then filter (fun e => negb (is_completed e)) es
  else if str_eqb tab tab_completed then filter is_completed es
  else es.

(** Two worlds that differ at most in the sound cues requested. *)
Definition only_audio (w w' : World) : Prop :=
  storage w' = storage w /\ console w' = console w /\
  uuids_drawn w' = uuids_drawn w.

(** *** Stored text and the storage area *)

(** The object [JSON.parse] builds from the text [JSON.stringify] writes for
    a task: the [priority] property is missing when the task has none. *)
Definition task_json (t : Task) : value :=
  VObject ([(k_id, VString (id t)); (k_text, VString (text t));
            (k_completed, VBool (completed t))]
           ++ match priority t with
              | Some p => [(k_priority, VString (priority_name p))]
              | None => []
              end).

(** The two shapes in which the component holds the task [t]: the object
    [addTask] builds, with a [priority] property that may be [undefined],
    and the object the load effect reads back from the stored text. *)
Definition stored_form (e : value) (t : Task) : Prop :=
  e = task_object t \/ e = task_json t.

(** The text [JSON.stringify] writes for a property, for a task and for a
    list of tasks. *)
Definition member_text (k v : jsstring) : jsstring := quote k ++ 58%N :: v.

Definition task_text (t : Task) : jsstring :=
  123%N :: join_comma
    ([member_text k_id (quote (id t)); member_text k_text (quote (text t));
      member_text k_completed (if completed t then lit_true else lit_false)]
     ++ match priority t with
        | Some p => [member_text k_priority (quote (priority_name p))]
        | None => []
        end) ++ [125%N].

Definition tasks_text (ts : list Task) : jsstring :=
  91%N :: join_comma (map task_text ts) ++ [93%N].

(** The task a task becomes when its priority is set. *)
Definition with_priority (p : option Priority) (t : Task) : Task :=
  {| id := id t; text := text t; completed := completed t; priority := p |}.

(** An entry in one of the two shapes of [stored_form]. *)
Definition in_stored_form (e : value) : Prop := exists t, stored_form e t.

(** Whether [isLocalStorageAvailable] finds the storage area usable. *)
Definition storage_available (rt : Runtime) (w : World) : bool :=
  negb (blocked (storage w))
  && quota_allows rt (item_set k_test k_test (items (storage w))).

(** The world after a successful availability test: the test key is gone,
    everything else is as before. *)
Definition after_test (w : World) : World :=
  with_items (item_remove k_test (item_set k_test k_test (items (storage w)))) w.

(** The identifiers [crypto.randomUUID()] returns from its n-th call on,
    [k] of them. *)
Definition uuid_values (rt : Runtime) (n k : nat) : list value :=
  map (fun m => VString (uuid_nth rt m)) (seq n k).

(** [l] is [l'] with some of its elements left out. *)
Inductive subsequence {A : Type} : list A -> list A -> Prop :=
| subsequence_nil : subsequence [] []
| subsequence_skip (x : A) (l l' : list A) :
    subsequence l l' -> subsequence l (x :: l')
| subsequence_keep (x : A) (l l' : list A) :
    subsequence l l' -> subsequence (x :: l) (x :: l').

(** The interaction that removes tasks. *)
Definition is_delete (ev : event) : bool :=
  match ev with
  | DeleteClick _ => true
  | _ => false
  end.

(** *** Examples *)

(** A runtime whose identifiers are [task-0], [task-1], ... and whose quota
    admits everything. *)
Definition sample_runtime : Runtime :=
  {| uuid_nth := fun n => str "task-" ++ nat_to_str n;
     number_to_json := fun l => l;
     number_truthy := fun _ => true;
     greater_than_zero := fun _ => Ok false;
     quota_allows := fun _ => true |}.

(** A runtime whose [crypto.randomUUID()] returns the same identifier at
    every call; the rest is as in [sample_runtime]. *)
Definition repeating_runtime : Runtime :=
  {| uuid_nth := fun _ => str "same";
     number_to_json := number_to_json sample_runtime;
     number_truthy := number_truthy sample_runtime;
     greater_than_zero := greater_than_zero sample_runtime;
     quota_allows := quota_allows sample_runtime |}.

(** A runtime whose storage area is full: the quota refuses every write;
    the rest is as in [sample_runtime]. *)
Definition full_runtime : Runtime :=
  {| uuid_nth := uuid_nth sample_runtime;
     number_to_json := number_to_json sample_runtime;
     number_truthy := number_truthy sample_runtime;
     greater_than_zero := greater_than_zero sample_runtime;
     quota_allows := fun _ => false |}.

(** A usable storage area with the given items, and nothing else yet. *)
Definition world_with (l : list (jsstring * jsstring)) : World :=
  {| storage := {| blocked := false; items := l |};
     console := []; uuids_drawn := 0; audio := [] |}.

(** The state of a render with the given entries. *)
Definition state_with (es : list value) : State :=
  {| tasks := VArray es; newTask := []; selectedPriority := None;
     activeTab := tab_all; tasks_rev := 0 |}.

(** Two tasks: an active one with a priority, a completed one without. *)
Definition task_A : Task :=
  {| id := str "a"; text := str "A"; completed := false; priority := Some P1 |}.

Definition task_B : Task :=
  {| id := str "b"; text := str "B"; completed := true; priority := None |}.

(** The first as [addTask] builds it, the second as the load effect does. *)
Definition sample_tasks : list value := [task_object task_A; task_json task_B].

(** Two tasks that share an identifier, one of them completed. *)
Definition twin_tasks : list value :=
  [task_object task_A; task_object (flipped task_A)].

(** An entry with no [id] field, and a snapshot that starts with it: the
    text [[{"text":"no id"},{"id":"b","text":"B","completed":true}]]. *)
Definition entry_without_id : value :=
  VObject [(k_text, VString (str "no id"))].

Definition mixed_snapshot : jsstring :=
  Eval cbv in
    91%N :: (123%N :: member_text k_text (quote (str "no id")) ++ [125%N])
         ++ 44%N :: task_text task_B ++ [93%N].

(** A stored text that is not JSON. *)
Definition corrupt_snapshot : jsstring := Eval cbv in str "{".

(** Two tasks typed and added, one with the button and one with Enter. *)
Definition adding_two : list event :=
  [InputChange (str "A"); AddClick; InputChange (str "B"); KeyDown key_Enter].

(** *** The claims that do not hold, as stated *)

(** The claim that [addTask] hands the created task back to its caller. *)
Definition addTask_returns_created (rt : Runtime) (s : State) (w : World) : Prop :=
  forall ret s' w' es' task,
    addTask rt s w = (Ok (ret, s'), w') ->
    tasks s' = VArray (es' ++ [task]) ->
    ret = task.

(** The claim that [toggleTask] hands the updated task back to its caller. *)
Definition toggleTask_returns_updated (rt : Runtime) (s : State) (i : jsstring)
  (w : World) : Prop :=
  forall ret s' w' e es,
    toggleTask rt s i w = (Ok (ret, s'), w') ->
    tasks s = VArray es -> In e es -> has_id i e = true ->
    ret = toggle_entry rt i e.

(** The claim that [deleteTask] tells its caller whether it removed a task. *)
Definition deleteTask_returns_boolean (s : State) (i : jsstring) (w : World) : Prop :=
  forall ret s' w',
    deleteTask s i w = (Ok (ret, s'), w') -> exists b, ret = VBool b.

(** The claim that the identifiers shown by the tabs "active" and
    "completed" never overlap. *)
Definition filtered_ids_disjoint (rt : Runtime) (es : list value) : Prop :=
  forall w a c x,
    filteredTasks rt (setActiveTab tab_active (state_with es)) w = (Ok (VArray a), w) ->
    filteredTasks rt (setActiveTab tab_completed (state_with es)) w = (Ok (VArray c), w) ->
    In x (ids a) -> In x (ids c) -> False.

(** The claim that the load effect leaves malformed entries out: what it
    installs as the list holds tasks only. *)
Definition load_skips_malformed (rt : Runtime) (s : State) (w : World) : Prop :=
  forall s' w' es,
    loadEffect rt s w = (Ok s', w') ->
    tasks s' = VArray es ->
    all_tasks es.

(** The claim that the load effect loads every valid entry of a snapshot
    that parses. *)
Definition load_keeps_valid (rt : Runtime) (s : State) (w : World) : Prop :=
  forall text snapshot s' w' es,
    item_get k_todos (items (storage w)) = Some text ->
    JSON.parse text = Ok (VArray snapshot) ->
    loadEffect rt s w = (Ok s', w') ->
    tasks s' = VArray es ->
    forall e, In e snapshot -> is_task e = true -> In e es.

(** The claim that the identifiers of the list are pairwise distinct
    whatever the list was at the start. *)
Definition ids_always_distinct (rt : Runtime) (evs : list event) (s : State)
  (w : World) : Prop :=
  forall s' w' es',
    handle_all rt evs s w = (Ok s', w') ->
    tasks s' = VArray es' ->
    NoDup (ids es').

(** *** Handlers, sessions and the storage area *)

(** How [updateTaskPriority] with the identifier [i] and the priority [p]
    relates an entry of the old list and the entry at the same place of the
    new list. *)
Definition reprioritized (i : jsstring) (p : option Priority) (e e' : value) : Prop :=
  match as_task e with
  | Some t => if str_eqb (id t) i then as_task e' = Some (with_priority p t) else e' = e
  | None => False
  end.

(** The sound cues [toggleTask] requests for a list: two for every task
    with the identifier that was not completed. *)
Definition completion_cues (i : jsstring) (es : list value) : list audio_op :=
  flat_map (fun e => if has_id i e && negb (is_completed e)
                     then [InitializeAudio; PlayCompleteSound] else []) es.

(** The keys of the items of a storage area. *)
Definition item_keys (l : list (jsstring * jsstring)) : list jsstring := map fst l.

(** A session after mounting: one interaction after the other, each
    followed by its render and its effects. *)
Fixpoint dispatch_all (rt : Runtime) (evs : list event) (s : State) : M State :=
  match evs with
  | [] => ret s
  | ev :: r => s' <- dispatch rt ev s ;; dispatch_all rt r s'
  end.

(** A storage area whose item "todos", when there is one, is a text the
    save effect has written for a list of tasks. *)
Definition well_stored (w : World) : Prop :=
  match item_get k_todos (items (storage w)) with
  | None => True
  | Some text => exists ts, text = tasks_text ts
  end.

(** A runtime whose storage quota admits everything. *)
Definition unlimited (rt : Runtime) : Prop :=
  forall l, quota_allows rt l = true.

(** The interactions that add a task: the plus button and the Enter key. *)
Definition is_add (ev : event) : bool :=
  match ev with
  | AddClick => true
  | KeyDown key => str_eqb key key_Enter
  | _ => false
  end.

(** The interactions that call no [setTasks] in the state [s]: typing,
    picking a priority for the next task, changing the tab, a key other
    than Enter, and adding while the input is blank. *)
Definition quiet (s : State) (ev : event) : bool :=
  match ev with
  | InputChange _ | PickPriority _ | TabChange _ => true
  | KeyDown key => negb (str_eqb key key_Enter) || str_eqb (trim (newTask s)) []
  | AddClick => str_eqb (trim (newTask s)) []
  | ToggleClick _ | PriorityClick _ _ | DeleteClick _ => false
  end.

(** The storage area of [w'] differs from that of [w] at most in the items
    "todos" and "__test__". *)
Definition same_elsewhere (w w' : World) : Prop :=
  blocked (storage w') = blocked (storage w) /\
  forall k, k <> k_todos -> k <> k_test ->
            item_get k (items (storage w')) = item_get k (items (storage w)).

(** A computation that, whether it returns or throws, changes no item of
    the storage area but "todos" and "__test__". *)
Definition frames {A} (m : M A) : Prop :=
  forall w, same_elsewhere w (snd (m w)).

(** Every entry is a task with the property [P]. *)
Definition every_task (P : Task -> Prop) (es : list value) : Prop :=
  Forall (fun e => exists t, as_task e = Some t /\ P t) es.

(** A text that is not blank and has no white space at either end. *)
Definition trimmed_text (t : Task) : Prop :=
  text t <> [] /\ trim (text t) = text t.

(** The list of the state [s] is persisted in [w]: it is empty, or the item
    "todos" is the text of its tasks. *)
Definition persisted (s : State) (w : World) : Prop :=
  exists es ts,
    tasks s = VArray es /\
    Forall2 stored_form es ts /\
    (es <> [] -> item_get k_todos (items (storage w)) = Some (tasks_text ts)).

(** *** The first version of the component

    [src/unnamed/part_000]: the component before it had priorities, sounds
    and persistence.  Its tasks have no [priority] property and its state
    has no effect that depends on it. *)

Module FirstVersion.

Record State : Type := {
  tasks : value;
  newTask : jsstring;
  activeTab : jsstring
}.

(** [useState<Task[]>([])], [useState("")], [useState("all")] *)
Definition initial_state : State :=
  {| tasks := VArray []; newTask := []; activeTab := tab_all |}.

Definition setTasks (v : value) (s : State) : State :=
  {| tasks := v; newTask := newTask s; activeTab := activeTab s |}.

Definition setNewTask (t : jsstring) (s : State) : State :=
  {| tasks := tasks s; newTask := t; activeTab := activeTab s |}.

Definition setActiveTab (t : jsstring) (s : State) : State :=
  {| tasks := tasks s; newTask := newTask s; activeTab := t |}.

Definition addTask (rt : Runtime) (s : State) : M (value * State) :=
  if str_eqb (trim (newTask s)) [] then ret (VUndefined, s)
  else
    uuid <- crypto.randomUUID rt ;;
    let task := VObject [(k_id, VString uuid);
                         (k_text, VString (trim (newTask s)));
                         (k_completed, VBool false)] in
    elems <- lift (iterate (tasks s)) ;;
    ret (VUndefined, setNewTask [] (setTasks (VArray (elems ++ [task])) s)).

(** The arrow function [toggleTask] maps over the tasks. *)
Definition toggleTask_each (rt : Runtime) (id : jsstring) (task : value) : M value :=
  task_id <- lift (field task k_id) ;;
  if strict_equals_string task_id id then
    now <- lift (field task k_completed) ;;
    ret (VObject (define_prop k_completed (VBool (negb (to_boolean rt now)))
                    (spread_props task)))
  else ret task.

Definition toggleTask (rt : Runtime) (s : State) (id : jsstring) : M (value * State) :=
  updated <- array_map (toggleTask_each rt id) (tasks s) ;;
  ret (VUndefined, setTasks updated s).

Definition deleteTask (s : State) (id : jsstring) : M (value * State) :=
  kept <- array_filter (deleteTask_keep id) (tasks s) ;;
  ret (VUndefined, setTasks kept s).

Definition handleKeyDown (rt : Runtime) (s : State) (key : jsstring)
  : M (value * State) :=
  if str_eqb key key_Enter
  then r <- addTask rt s ;; ret (VUndefined, snd r)
  else ret (VUndefined, s).

Definition filteredTasks (rt : Runtime) (s : State) : M value :=
  array_filter (filteredTasks_keep rt (activeTab s)) (tasks s).

(** The interactions the markup of the first version wires. *)
Inductive event : Type :=
| InputChange (v : jsstring)
| KeyDown (key : jsstring)
| AddClick
| TabChange (tab : jsstring)
| ToggleClick (id : jsstring)
| DeleteClick (id : jsstring).

Definition handle (rt : Runtime) (ev : event) (s : State) : M State :=
  match ev with
  | InputChange v => ret (setNewTask v s)
  | KeyDown key => r <- handleKeyDown rt s key ;; ret (snd r)
  | AddClick => r <- addTask rt s ;; ret (snd r)
  | TabChange tab => ret (setActiveTab tab s)
  | ToggleClick id => r <- toggleTask rt s id ;; ret (snd r)
  | DeleteClick id => r <- deleteTask s id ;; ret (snd r)
  end.

Fixpoint handle_all (rt : Runtime) (evs : list event) (s : State) : M State :=
  match evs with
  | [] => ret s
  | ev :: r => s' <- handle rt ev s ;; handle_all rt r s'
  end.

End FirstVersion.

(** The interaction of the current version that an interaction of the first
    version has become. *)
Definition current_event (ev : FirstVersion.event) : event :=
  match ev with
  | FirstVersion.InputChange v => InputChange v
  | FirstVersion.KeyDown key => KeyDown key
  | FirstVersion.AddClick => AddClick
  | FirstVersion.TabChange tab => TabChange tab
  | FirstVersion.ToggleClick id => ToggleClick id
  | FirstVersion.DeleteClick id => DeleteClick id
  end.

(** Two entries that are the same task, and two lists that hold the same
    tasks in the same order. *)
Definition same_task (e1 e : value) : Prop :=
  exists t, as_task e1 = Some t /\ as_task e = Some t.

Definition same_tasks (v1 v : value) : Prop :=
  exists es1 es, v1 = VArray es1 /\ v = VArray es /\ Forall2 same_task es1 es.

(** A state of the first version and a state of the current version that
    show the same: the same tasks, input and tab, and no priority picked. *)
Definition same_state (s1 : FirstVersion.State) (s : State) : Prop :=
  same_tasks (FirstVersion.tasks s1) (tasks s) /\
  FirstVersion.newTask s1 = newTask s /\
  FirstVersion.activeTab s1 = activeTab s /\
  selectedPriority s = None.

(** * Properties *)

Import localStorage crypto.

(** ** Strings and properties *)

Lemma str_eqb_refl (a : jsstring) : str_eqb a a = true.
Proof.
  induction a as [|c a IH]; simpl; [reflexivity|].
  now rewrite N.eqb_refl, IH.
Qed.

Lemma str_eqb_eq (a b : jsstring) : str_eqb a b = true <-> a = b.
Proof.
  split.
  - revert b; induction a as [|c a IH]; intros [|d b] H; simpl in H;
      try discriminate; [reflexivity|].
    apply andb_true_iff in H as [Hc Hr].
    apply N.eqb_eq in Hc. apply IH in Hr. now subst.
  - intros ->. apply str_eqb_refl.
Qed.

Lemma str_eqb_neq (a b : jsstring) : str_eqb a b = false <-> a <> b.
Proof.
  split.
  - intros H E. apply str_eqb_eq in E. congruence.
  - intros H. destruct (str_eqb a b) eqn:E; [|reflexivity].
    apply str_eqb_eq in E. contradiction.
Qed.

Lemma as_priority_value (p : option Priority) :
  as_priority (priority_value p) = Some p.
Proof. destruct p as [[| |]|]; reflexivity. Qed.

Lemma as_task_object (t : Task) : as_task (task_object t) = Some t.
Proof.
  destruct t as [i x c p]. unfold task_object, as_task. simpl.
  now rewrite as_priority_value.
Qed.

Lemma as_task_json (t : Task) : as_task (task_json t) = Some t.
Proof.
  destruct t as [i x c [[| |]|]]; reflexivity.
Qed.

(** ** C1: adding a task *)

(** C1 (amended).  [addTask] trims the text of the input.  When nothing is
    left it changes neither the state nor the world.  Otherwise it appends
    exactly one entry at the end of the list: a task with the trimmed text,
    [completed = false], the selected priority and the identifier that this
    call of [crypto.randomUUID()] returned.  In both cases the call itself
    returns [undefined]: the created task is not handed back. *)
Theorem addTask_appends_trimmed_or_rejects
  (rt : Runtime) (es : list value) (input : jsstring) (prio : option Priority)
  (tab : jsstring) (rev : nat) (w : World) :
  let s := {| tasks := VArray es; newTask := input; selectedPriority := prio;
              activeTab := tab; tasks_rev := rev |} in
  exists s' w',
    addTask rt s w = (Ok (VUndefined, s'), w') /\
    match trim input with
    | [] => s' = s /\ w' = w
    | _ :: _ =>
        exists task,
          tasks s' = VArray (es ++ [task]) /\
          as_task task = Some {| id := uuid_nth rt (uuids_drawn w);
                                 text := trim input;
                                 completed := false;
                                 priority := prio |} /\
          storage w' = storage w
    end.
Proof.
  intros s. unfold addTask. subst s. simpl.
  destruct (trim input) as [|c t] eqn:E; simpl.
  - exists {| tasks := VArray es; newTask := input; selectedPriority := prio;
              activeTab := tab; tasks_rev := rev |}, w. split; [reflexivity|]. split; reflexivity.
  - eexists. eexists. split; [reflexivity|].
    eexists. split; [reflexivity|]. split; [|reflexivity].
    unfold as_task. simpl. now rewrite as_priority_value.
Qed.

(** The call of [addTask] that creates the task "buy milk" returns
    [undefined], not the task it has appended. *)
Lemma addTask_does_not_return_the_task :
  ~ addTask_returns_created sample_runtime
      (setNewTask (str "buy milk") (state_with [])) (world_with []).
Proof.
  intros H.
  specialize (H VUndefined _ _ [] _ eq_refl eq_refl).
  discriminate H.
Qed.

(** ** Running the monad *)

Lemma only_audio_refl (w : World) : only_audio w w.
Proof. repeat split. Qed.

Lemma only_audio_trans (w1 w2 w3 : World) :
  only_audio w1 w2 -> only_audio w2 w3 -> only_audio w1 w3.
Proof.
  intros (A & B & C) (A' & B' & C'). repeat split; congruence.
Qed.

Lemma filterM_pure {A} (f : A -> M bool) (p : A -> bool) (l : list A) :
  (forall x, In x l -> forall w, f x w = (Ok (p x), w)) ->
  forall w, filterM f l w = (Ok (filter p l), w).
Proof.
  induction l as [|x l IH]; intros H w; simpl; [reflexivity|].
  unfold bind. rewrite (H x (or_introl eq_refl)).
  rewrite IH by (intros y Hy; apply H; now right).
  unfold ret. now destruct (p x).
Qed.

(** ** Entries that are tasks *)

Lemma is_task_object (e : value) :
  is_task e = true -> exists ps, e = VObject ps.
Proof.
  unfold is_task, as_task. destruct e; try discriminate. eauto.
Qed.

Lemma is_task_as_task (e : value) :
  is_task e = true -> exists t, as_task e = Some t.
Proof.
  unfold is_task. destruct (as_task e) as [t|]; [eauto|discriminate].
Qed.

Lemma as_task_fields (ps : props) (t : Task) :
  as_task (VObject ps) = Some t ->
  lookup k_id ps = Some (VString (id t)) /\
  lookup k_text ps = Some (VString (text t)) /\
  lookup k_completed ps = Some (VBool (completed t)) /\
  as_priority (match lookup k_priority ps with Some p => p | None => VUndefined end)
    = Some (priority t).
Proof.
  unfold as_task.
  destruct (lookup k_id ps) as [[| | | |i| |]|]; try discriminate.
  destruct (lookup k_text ps) as [[| | | |x| |]|]; try discriminate.
  destruct (lookup k_completed ps) as [[| |c| | | |]|]; try discriminate.
  destruct (as_priority _) as [p|]; [|discriminate].
  intros [= <-]. simpl. auto.
Qed.

Lemma as_task_id_of (e : value) (t : Task) :
  as_task e = Some t -> id_of e = VString (id t).
Proof.
  destruct e; try discriminate. intros H.
  apply as_task_fields in H as (H & _). simpl. now rewrite H.
Qed.

Lemma as_task_has_id (e : value) (t : Task) (i : jsstring) :
  as_task e = Some t -> has_id i e = str_eqb (id t) i.
Proof.
  intros H. unfold has_id. now rewrite (as_task_id_of _ H).
Qed.

Lemma as_task_is_completed (e : value) (t : Task) :
  as_task e = Some t -> is_completed e = completed t.
Proof. unfold is_completed. now intros ->. Qed.

Lemma lookup_replace_same (k : jsstring) (v : value) (ps : props) :
  lookup k ps <> None -> lookup k (replace_prop k v ps) = Some v.
Proof.
  induction ps as [|[k' v'] ps IH]; simpl; [congruence|].
  destruct (str_eqb k k') eqn:E; simpl; rewrite E; auto.
Qed.

Lemma lookup_replace_other (k k' : jsstring) (v : value) (ps : props) :
  k' <> k -> lookup k' (replace_prop k v ps) = lookup k' ps.
Proof.
  intros Hne. induction ps as [|[k0 v0] ps IH]; simpl; [reflexivity|].
  destruct (str_eqb k k0) eqn:E; simpl.
  - apply str_eqb_eq in E. subst k0.
    apply str_eqb_neq in Hne. now rewrite Hne.
  - now rewrite IH.
Qed.

Lemma lookup_app_none (k : jsstring) (ps qs : props) :
  lookup k ps = None -> lookup k (ps ++ qs) = lookup k qs.
Proof.
  induction ps as [|[k' v'] ps IH]; simpl; [reflexivity|].
  destruct (str_eqb k k'); [discriminate|auto].
Qed.

Lemma lookup_app_some (k : jsstring) (ps qs : props) (v : value) :
  lookup k ps = Some v -> lookup k (ps ++ qs) = Some v.
Proof.
  induction ps as [|[k' v'] ps IH]; simpl; [discriminate|].
  destruct (str_eqb k k'); auto.
Qed.

(** Defining a property whose name is not an array index leaves every
    other property alone. *)
Lemma lookup_define_prop_other (k k' : jsstring) (v : value) (ps : props) :
  array_index k = None -> k' <> k ->
  lookup k' (define_prop k v ps) = lookup k' ps.
Proof.
  intros Hk Hne. unfold define_prop. rewrite Hk.
  destruct (lookup k ps) eqn:E.
  - now apply lookup_replace_other.
  - destruct (lookup k' ps) eqn:F.
    + now apply lookup_app_some.
    + rewrite lookup_app_none by assumption. simpl.
      apply str_eqb_neq in Hne. now rewrite Hne.
Qed.

Lemma lookup_define_prop_same (k : jsstring) (v : value) (ps : props) :
  array_index k = None -> lookup k (define_prop k v ps) = Some v.
Proof.
  intros Hk. unfold define_prop. rewrite Hk.
  destruct (lookup k ps) eqn:E.
  - apply lookup_replace_same. congruence.
  - rewrite lookup_app_none by assumption. simpl. now rewrite str_eqb_refl.
Qed.

(** *** What [toggleTask] does to one entry and to a list of tasks *)

Section ToggleEntry.

Variable rt : Runtime.
Variable i : jsstring.

Lemma toggle_entry_task (e : value) (t : Task) :
  as_task e = Some t ->
  toggle_entry rt i e = e /\ str_eqb (id t) i = false \/
  as_task (toggle_entry rt i e) = Some (flipped t) /\ str_eqb (id t) i = true.
Proof.
  intros H. unfold toggle_entry. rewrite (as_task_has_id _ i H).
  destruct (str_eqb (id t) i); [right|left; auto].
  split; [|reflexivity].
  destruct e as [| | | | | |ps]; try discriminate.
  destruct (as_task_fields _ H) as (Hi & Hx & Hc & Hp).
  simpl. rewrite Hc. simpl. unfold as_task.
  rewrite (@lookup_define_prop_other k_completed k_id) by (reflexivity || discriminate).
  rewrite (@lookup_define_prop_other k_completed k_text) by (reflexivity || discriminate).
  rewrite (@lookup_define_prop_other k_completed k_priority) by (reflexivity || discriminate).
  rewrite lookup_define_prop_same by reflexivity. rewrite Hi, Hx, Hp. reflexivity.
Qed.

Lemma toggled_toggle_entry (e : value) :
  is_task e = true -> toggled i e (toggle_entry rt i e).
Proof.
  intros H. destruct (is_task_as_task _ H) as [t Ht].
  unfold toggled. rewrite Ht.
  destruct (toggle_entry_task _ Ht) as [[-> ->]|[-> ->]]; reflexivity.
Qed.

Lemma toggleTask_each_run (e : value) (w : World) :
  is_task e = true ->
  exists w', toggleTask_each rt i e w = (Ok (toggle_entry rt i e), w') /\
             only_audio w w'.
Proof.
  intros H. destruct (is_task_object _ H) as [ps ->].
  unfold toggleTask_each, toggle_entry, has_id, bind, lift. simpl.
  destruct (strict_equals_string _ i).
  - destruct (negb (to_boolean rt _)); eexists; (split; [reflexivity|]);
      repeat split.
  - eexists; split; [reflexivity|apply only_audio_refl].
Qed.

Lemma toggleTask_mapM (es : list value) (w : World) :
  all_tasks es ->
  exists w', mapM (toggleTask_each rt i) es w = (Ok (map (toggle_entry rt i) es), w') /\
             only_audio w w'.
Proof.
  intros H. revert w. induction H as [|e es He Hes IH]; intros w; simpl.
  - exists w. split; [reflexivity|apply only_audio_refl].
  - destruct (toggleTask_each_run e w He) as (w1 & E1 & A1).
    destruct (IH w1) as (w2 & E2 & A2).
    exists w2. unfold bind. rewrite E1, E2. split; [reflexivity|].
    eapply only_audio_trans; eassumption.
Qed.

Lemma field_toggle_entry (e : value) (k : jsstring) :
  is_task e = true -> k <> k_completed ->
  field (toggle_entry rt i e) k = field e k.
Proof.
  intros H Hk. destruct (is_task_object _ H) as [ps ->].
  unfold toggle_entry. destruct (has_id i (VObject ps)); [|reflexivity].
  simpl. now rewrite lookup_define_prop_other by (reflexivity || assumption).
Qed.

Lemma id_of_toggle_entry (e : value) :
  is_task e = true -> id_of (toggle_entry rt i e) = id_of e.
Proof.
  intros H. destruct (is_task_object _ H) as [ps ->].
  unfold toggle_entry. destruct (has_id i (VObject ps)); [|reflexivity].
  simpl. now rewrite lookup_define_prop_other by (reflexivity || discriminate).
Qed.

Lemma toggle_entry_no_match (es : list value) :
  (forall e, In e es -> has_id i e = false) -> map (toggle_entry rt i) es = es.
Proof.
  induction es as [|e es IH]; intros H; simpl; [reflexivity|].
  rewrite IH by (intros x Hx; apply H; now right).
  unfold toggle_entry. now rewrite (H e (or_introl eq_refl)).
Qed.

Lemma toggle_entry_is_task (e : value) :
  is_task e = true -> is_task (toggle_entry rt i e) = true.
Proof.
  intros H. destruct (is_task_as_task _ H) as [t Ht]. unfold is_task.
  destruct (toggle_entry_task _ Ht) as [[-> _]|[-> _]]; [now rewrite Ht|reflexivity].
Qed.

End ToggleEntry.

(** ** C2: toggling a task *)

(** C2 (amended).  On a list of tasks, [toggleTask(id)] flips the
    [completed] flag of every task whose identifier is [id] and leaves each
    other entry exactly as it was, at its place.  When no task has the
    identifier the new list has the same entries as the old one.  In both
    cases the call returns [undefined]: neither the updated task nor a
    not-found signal reaches the caller.  The world changes at most by the
    sound cues requested. *)
Theorem toggleTask_flips_every_match
  (rt : Runtime) (s : State) (i : jsstring) (w : World) (es : list value) :
  tasks s = VArray es ->
  all_tasks es ->
  exists es' w',
    toggleTask rt s i w = (Ok (VUndefined, setTasks (VArray es') s), w') /\
    only_audio w w' /\
    Forall2 (toggled i) es es' /\
    ((forall e, In e es -> has_id i e = false) -> es' = es).
Proof.
  intros Hs Hes.
  destruct (toggleTask_mapM rt i w Hes) as (w' & E & A).
  exists (map (toggle_entry rt i) es), w'.
  split; [|split; [exact A|split]].
  - unfold toggleTask, array_map, bind. rewrite Hs. unfold bind. now rewrite E.
  - clear - Hes. induction Hes as [|e es He Hes IH]; simpl; constructor; auto.
    now apply toggled_toggle_entry.
  - apply toggle_entry_no_match.
Qed.

Lemma toggleTask_flips_every_match_witness :
  exists es' w',
    toggleTask sample_runtime (state_with sample_tasks) (str "a") (world_with [])
      = (Ok (VUndefined, setTasks (VArray es') (state_with sample_tasks)), w') /\
    only_audio (world_with []) w' /\
    Forall2 (toggled (str "a")) sample_tasks es' /\
    ((forall e, In e sample_tasks -> has_id (str "a") e = false) -> es' = sample_tasks).
Proof.
  apply (@toggleTask_flips_every_match sample_runtime (state_with sample_tasks)
           (str "a") (world_with []) sample_tasks).
  - reflexivity.
  - repeat constructor.
Defined.

(** Toggling the task "a" of the sample list returns [undefined], not the
    updated task. *)
Lemma toggleTask_does_not_return_the_task :
  ~ toggleTask_returns_updated sample_runtime (state_with sample_tasks) (str "a")
      (world_with []).
Proof.
  intros H.
  specialize (H VUndefined _ _ (task_object task_A) sample_tasks eq_refl eq_refl
                (or_introl eq_refl) eq_refl).
  discriminate H.
Qed.

(** ** C10: what toggling leaves alone *)

(** C10.  On a list of tasks, [toggleTask(id)] keeps the length of the list
    and the order of its identifiers; the entry at each place is again a
    task with the same [id], [text] and [priority] (and every other
    property unchanged), and its [completed] flag is flipped exactly when
    its identifier is [id].  The other parts of the state are untouched. *)
Theorem toggleTask_changes_only_completed
  (rt : Runtime) (s : State) (i : jsstring) (w : World) (es : list value) :
  tasks s = VArray es ->
  all_tasks es ->
  exists es' w',
    toggleTask rt s i w = (Ok (VUndefined, setTasks (VArray es') s), w') /\
    List.length es' = List.length es /\
    ids es' = ids es /\
    forall n e, nth_error es n = Some e ->
      exists e' t t',
        nth_error es' n = Some e' /\
        as_task e = Some t /\ as_task e' = Some t' /\
        id t' = id t /\ text t' = text t /\ priority t' = priority t /\
        completed t' = (if str_eqb (id t) i then negb (completed t) else completed t) /\
        forall k, k <> k_completed -> field e' k = field e k.
Proof.
  intros Hs Hes.
  destruct (toggleTask_mapM rt i w Hes) as (w' & E & A).
  exists (map (toggle_entry rt i) es), w'.
  split; [|split; [|split]].
  - unfold toggleTask, array_map, bind. rewrite Hs. unfold bind. now rewrite E.
  - apply length_map.
  - unfold ids. rewrite map_map. apply map_ext_in. intros e He.
    apply id_of_toggle_entry. unfold all_tasks in Hes.
    rewrite Forall_forall in Hes. auto.
  - intros n e Hn.
    assert (He : is_task e = true).
    { unfold all_tasks in Hes. rewrite Forall_forall in Hes.
      apply Hes. eapply nth_error_In; eassumption. }
    destruct (is_task_as_task _ He) as [t Ht].
    exists (toggle_entry rt i e), t.
    destruct (toggle_entry_task rt i _ Ht) as [[Eq Hi]|[Eq Hi]].
    + exists t. rewrite Hi.
      repeat split; auto; try (now rewrite Eq).
      now rewrite nth_error_map, Hn.
    + exists (flipped t). rewrite Hi.
      repeat split; auto.
      * now rewrite nth_error_map, Hn.
      * intros k Hk. now apply field_toggle_entry.
Qed.

Lemma toggleTask_changes_only_completed_witness :
  exists es' w',
    toggleTask sample_runtime (state_with sample_tasks) (str "b") (world_with [])
      = (Ok (VUndefined, setTasks (VArray es') (state_with sample_tasks)), w') /\
    List.length es' = List.length sample_tasks /\
    ids es' = ids sample_tasks /\
    forall n e, nth_error sample_tasks n = Some e ->
      exists e' t t',
        nth_error es' n = Some e' /\
        as_task e = Some t /\ as_task e' = Some t' /\
        id t' = id t /\ text t' = text t /\ priority t' = priority t /\
        completed t' = (if str_eqb (id t) (str "b") then negb (completed t)
                        else completed t) /\
        forall k, k <> k_completed -> field e' k = field e k.
Proof.
  apply (@toggleTask_changes_only_completed sample_runtime (state_with sample_tasks)
           (str "b") (world_with []) sample_tasks).
  - reflexivity.
  - repeat constructor.
Defined.

(** ** C4: deleting a task *)

Lemma deleteTask_keep_run (i : jsstring) (e : value) (w : World) :
  is_task e = true ->
  deleteTask_keep i e w = (Ok (negb (has_id i e)), w).
Proof.
  intros H. destruct (is_task_object _ H) as [ps ->]. reflexivity.
Qed.

Lemma In_ids (x : value) (es : list value) :
  In x (ids es) <-> exists e, In e es /\ id_of e = x.
Proof.
  unfold ids. rewrite in_map_iff. split; intros (e & A & B); eauto.
Qed.

(** C4 (amended).  On a list of tasks, [deleteTask(id)] keeps, in their
    order, exactly the tasks whose identifier is not [id]; the view of the
    tab "all" of the new state is that list, and no task in it has the
    identifier.  The call returns [undefined]: the caller is not told
    whether a task was removed. *)
Theorem deleteTask_removes_every_match
  (rt : Runtime) (s : State) (i : jsstring) (w : World) (es : list value) :
  tasks s = VArray es ->
  all_tasks es ->
  exists kept w',
    deleteTask s i w = (Ok (VUndefined, setTasks (VArray kept) s), w') /\
    only_audio w w' /\
    kept = filter (fun e => negb (has_id i e)) es /\
    (forall e, In e kept <-> In e es /\ has_id i e = false) /\
    filteredTasks rt (setActiveTab tab_all (setTasks (VArray kept) s)) w'
      = (Ok (VArray kept), w') /\
    ~ In (VString i) (ids kept).
Proof.
  intros Hs Hes.
  exists (filter (fun e => negb (has_id i e)) es).
  eexists. split; [|split; [|split; [reflexivity|split; [|split]]]].
  - unfold deleteTask, bind, initializeAudio, playDeleteSound, request_audio,
      array_filter. rewrite Hs. unfold bind.
    rewrite (filterM_pure (deleteTask_keep i) (fun e => negb (has_id i e))).
    + reflexivity.
    + intros e He w0. apply deleteTask_keep_run.
      unfold all_tasks in Hes. rewrite Forall_forall in Hes. auto.
  - repeat split.
  - intros e. rewrite filter_In, negb_true_iff. reflexivity.
  - unfold filteredTasks, array_filter, bind. simpl.
    rewrite (filterM_pure (filteredTasks_keep rt tab_all) (fun _ => true)).
    + unfold ret. f_equal. f_equal. f_equal.
      clear. induction (filter _ es) as [|e l IH]; simpl; congruence.
    + intros e _ w0. reflexivity.
  - rewrite In_ids. intros (e & He & Hi).
    apply filter_In in He as [_ He]. apply negb_true_iff in He.
    unfold has_id in He. rewrite Hi in He. simpl in He.
    now rewrite str_eqb_refl in He.
Qed.

Lemma deleteTask_removes_every_match_witness :
  exists kept w',
    deleteTask (state_with sample_tasks) (str "a") (world_with [])
      = (Ok (VUndefined, setTasks (VArray kept) (state_with sample_tasks)), w') /\
    only_audio (world_with []) w' /\
    kept = filter (fun e => negb (has_id (str "a") e)) sample_tasks /\
    (forall e, In e kept <-> In e sample_tasks /\ has_id (str "a") e = false) /\
    filteredTasks sample_runtime
      (setActiveTab tab_all (setTasks (VArray kept) (state_with sample_tasks))) w'
      = (Ok (VArray kept), w') /\
    ~ In (VString (str "a")) (ids kept).
Proof.
  apply (@deleteTask_removes_every_match sample_runtime (state_with sample_tasks)
           (str "a") (world_with []) sample_tasks).
  - reflexivity.
  - repeat constructor.
Defined.

(** Deleting the task "a" of the sample list returns [undefined], not a
    boolean. *)
Lemma deleteTask_does_not_return_a_boolean :
  ~ deleteTask_returns_boolean (state_with sample_tasks) (str "a") (world_with []).
Proof.
  intros H. destruct (H VUndefined _ _ eq_refl) as [b Hb]. discriminate Hb.
Qed.

(** ** C3: the filtered view *)

Lemma filteredTasks_keep_run (rt : Runtime) (tab : jsstring) (e : value) (w : World) :
  is_task e = true ->
  filteredTasks_keep rt tab e w =
  (Ok (if str_eqb tab tab_active then negb (is_completed e)
       else if str_eqb tab tab_completed then is_completed e
       else true), w).
Proof.
  intros H. destruct (is_task_as_task _ H) as [t Ht].
  destruct (is_task_object _ H) as [ps ->].
  rewrite (as_task_is_completed _ Ht).
  destruct (as_task_fields _ Ht) as (_ & _ & Hc & _).
  unfold filteredTasks_keep, bind, lift, ret. simpl. rewrite Hc. simpl.
  destruct (str_eqb tab tab_active); [reflexivity|].
  destruct (str_eqb tab tab_completed); reflexivity.
Qed.

Lemma filter_true {A} (l : list A) : filter (fun _ => true) l = l.
Proof. induction l as [|x l IH]; simpl; congruence. Qed.

Lemma view_is_filter (tab : jsstring) (es : list value) :
  view tab es =
  filter (fun e => if str_eqb tab tab_active then negb (is_completed e)
                   else if str_eqb tab tab_completed then is_completed e
                   else true) es.
Proof.
  unfold view. destruct (str_eqb tab tab_active); [reflexivity|].
  destruct (str_eqb tab tab_completed); [reflexivity|].
  symmetry. apply filter_true.
Qed.

Lemma NoDup_map_injective_on {A B} (f : A -> B) (l : list A) (a b : A) :
  NoDup (map f l) -> In a l -> In b l -> f a = f b -> a = b.
Proof.
  induction l as [|x l IH]; simpl; intros Hnd Ha Hb E; [contradiction|].
  inversion Hnd as [|? ? Hx Hl]; subst.
  destruct Ha as [->|Ha], Hb as [->|Hb]; auto.
  - exfalso. apply Hx. rewrite E. now apply in_map.
  - exfalso. apply Hx. rewrite <- E. now apply in_map.
Qed.

(** C3 (amended).  On a list of tasks [filteredTasks] changes nothing and
    returns the entries selected by the active tab, in their order: for
    "active" exactly the tasks that are not completed, for "completed"
    exactly the completed ones, for any other tab all of them.  The
    identifiers shown under "active" and "completed" together are those
    shown under "all"; they do not overlap when no two tasks of the list
    share an identifier. *)
Theorem filteredTasks_selects_by_tab
  (rt : Runtime) (s : State) (w : World) (es : list value) :
  tasks s = VArray es ->
  all_tasks es ->
  filteredTasks rt s w = (Ok (VArray (view (activeTab s) es)), w) /\
  (exists keep, view (activeTab s) es = filter keep es) /\
  (forall e, In e (view tab_active es) <-> In e es /\ is_completed e = false) /\
  (forall e, In e (view tab_completed es) <-> In e es /\ is_completed e = true) /\
  view tab_all es = es /\
  (forall x, In x (ids (view tab_active es)) \/ In x (ids (view tab_completed es))
             <-> In x (ids (view tab_all es))) /\
  (NoDup (ids es) ->
   forall x, In x (ids (view tab_active es)) ->
             In x (ids (view tab_completed es)) -> False).
Proof.
  intros Hs Hes.
  assert (Hall : forall e, In e es -> is_task e = true).
  { unfold all_tasks in Hes. now rewrite Forall_forall in Hes. }
  split; [|split; [|split; [|split; [|split; [reflexivity|split]]]]].
  - unfold filteredTasks, array_filter, bind. rewrite Hs.
    rewrite view_is_filter.
    rewrite (filterM_pure (filteredTasks_keep rt (activeTab s))
               (fun e => if str_eqb (activeTab s) tab_active then negb (is_completed e)
                         else if str_eqb (activeTab s) tab_completed then is_completed e
                         else true)).
    + reflexivity.
    + intros e He w0. apply filteredTasks_keep_run. auto.
  - eexists. apply view_is_filter.
  - intros e. unfold view. simpl. rewrite filter_In, negb_true_iff. reflexivity.
  - intros e. unfold view. simpl. rewrite filter_In. reflexivity.
  - intros x. change (view tab_all es) with es.
    change (view tab_active es) with (filter (fun e => negb (is_completed e)) es).
    change (view tab_completed es) with (filter is_completed es).
    rewrite !In_ids. split.
    + intros [(e & He & Hx)|(e & He & Hx)]; apply filter_In in He as [He _]; eauto.
    + intros (e & He & Hx). destruct (is_completed e) eqn:C.
      * right. exists e. rewrite filter_In. auto.
      * left. exists e. rewrite filter_In, C. auto.
  - intros Hnd x.
    change (view tab_active es) with (filter (fun e => negb (is_completed e)) es).
    change (view tab_completed es) with (filter is_completed es).
    rewrite !In_ids. intros (a & Ha & Hxa) (c & Hc & Hxc).
    apply filter_In in Ha as [Ha Ca]. apply filter_In in Hc as [Hc Cc].
    assert (a = c).
    { apply (NoDup_map_injective_on id_of es); auto. congruence. }
    subst c. rewrite Cc in Ca. discriminate Ca.
Qed.

Lemma sample_tasks_distinct_ids : NoDup (ids sample_tasks).
Proof.
  repeat constructor; simpl; intuition discriminate.
Qed.

Lemma filteredTasks_selects_by_tab_witness :
  filteredTasks sample_runtime (state_with sample_tasks) (world_with [])
    = (Ok (VArray (view tab_all sample_tasks)), world_with []) /\
  (forall x, In x (ids (view tab_active sample_tasks))
             \/ In x (ids (view tab_completed sample_tasks))
             <-> In x (ids (view tab_all sample_tasks))) /\
  (forall x, In x (ids (view tab_active sample_tasks)) ->
             In x (ids (view tab_completed sample_tasks)) -> False).
Proof.
  assert (Hall : all_tasks sample_tasks) by (repeat constructor).
  destruct (@filteredTasks_selects_by_tab sample_runtime (state_with sample_tasks)
              (world_with []) sample_tasks eq_refl Hall)
    as (Hrun & _ & _ & _ & _ & Hunion & Hdisjoint).
  split; [exact Hrun|split; [exact Hunion|]].
  exact (Hdisjoint sample_tasks_distinct_ids).
Defined.

(** With two tasks that share the identifier "a", one active and one
    completed, "a" is shown under both tabs. *)
Lemma filtered_ids_overlap_on_twins :
  ~ filtered_ids_disjoint sample_runtime twin_tasks.
Proof.
  intros H.
  apply (H (world_with []) [task_object task_A] [task_object (flipped task_A)]
           (VString (str "a"))); try reflexivity; left; reflexivity.
Qed.

(** ** JSON text: reading back what was written *)

Lemma hex_value_hex_digit (d : N) : (d < 16)%N -> hex_value (hex_digit d) = Some d.
Proof.
  intros H. unfold hex_digit, hex_value.
  destruct (N.ltb_spec d 10) as [L|L].
  - replace (N.leb 48 (48 + d) && N.leb (48 + d) 57) with true.
    + f_equal. lia.
    + symmetry. apply andb_true_iff. split; apply N.leb_le; lia.
  - replace (N.leb 48 (87 + d) && N.leb (87 + d) 57) with false.
    + replace (N.leb 97 (87 + d) && N.leb (87 + d) 102) with true.
      * f_equal. lia.
      * symmetry. apply andb_true_iff. split; apply N.leb_le; lia.
    + symmetry. apply andb_false_iff. right. apply N.leb_gt. lia.
Qed.

Ltac Zify.zify_post_hook ::= Z.to_euclidean_division_equations.

Lemma hex4_digits (c : N) :
  (c < 65536)%N ->
  hex4 (hex_digit (N.shiftr c 12 mod 16)) (hex_digit (N.shiftr c 8 mod 16))
       (hex_digit (N.shiftr c 4 mod 16)) (hex_digit (c mod 16)) = Some c.
Proof.
  intros H. unfold hex4.
  rewrite !hex_value_hex_digit by (apply N.mod_lt; discriminate).
  f_equal. rewrite !N.shiftr_div_pow2.
  change (2 ^ 12)%N with 4096%N. change (2 ^ 8)%N with 256%N.
  change (2 ^ 4)%N with 16%N. lia.
Qed.

Ltac Zify.zify_post_hook ::= idtac.

Lemma parse_string_chars_u (a b c d : N) (s : jsstring) :
  parse_string_chars (92 :: 117 :: a :: b :: c :: d :: s)%N =
  match hex4 a b c d with
  | Some u => cons_char u (parse_string_chars s)
  | None => None
  end.
Proof. reflexivity. Qed.

(** The parser reads an escape [\uXXXX] written by [unicode_escape]. *)
Lemma parse_unicode_escape (c : N) (s : jsstring) :
  (c < 65536)%N ->
  parse_string_chars (unicode_escape c ++ s) = cons_char c (parse_string_chars s).
Proof.
  intros H. unfold unicode_escape.
  change (parse_string_chars
            (92 :: 117 :: hex_digit (N.shiftr c 12 mod 16)
               :: hex_digit (N.shiftr c 8 mod 16)
               :: hex_digit (N.shiftr c 4 mod 16) :: hex_digit (c mod 16) :: s)%N
          = cons_char c (parse_string_chars s)).
  now rewrite parse_string_chars_u, hex4_digits.
Qed.

Lemma parse_string_chars_plain (c : N) (s : jsstring) :
  N.eqb c 34 = false -> N.eqb c 92 = false -> N.ltb c 32 = false ->
  parse_string_chars (c :: s) = cons_char c (parse_string_chars s).
Proof. intros A B C. simpl. now rewrite A, B, C. Qed.

Lemma surrogate_plain (c : N) :
  is_high_surrogate c = true \/ is_low_surrogate c = true ->
  N.eqb c 34 = false /\ N.eqb c 92 = false /\ N.ltb c 32 = false /\ (c < 65536)%N.
Proof.
  unfold is_high_surrogate, is_low_surrogate.
  intros [H|H]; apply andb_true_iff in H as [A B];
    apply N.leb_le in A; apply N.leb_le in B;
    (repeat split; [apply N.eqb_neq|apply N.eqb_neq|apply N.ltb_ge|]; lia).
Qed.

(** What [quote_chars] writes for a string, followed by the closing quote,
    is read back as that string. *)
Lemma parse_quote_chars_upto (n : nat) (s rest : jsstring) :
  (List.length s <= n)%nat ->
  parse_string_chars (quote_chars s ++ 34%N :: rest) = Some (s, rest).
Proof.
  revert s. induction n as [|n IH]; intros s Hn.
  - destruct s; [reflexivity|simpl in Hn; lia].
  - destruct s as [|c r]; [reflexivity|].
    simpl in Hn. assert (Hr : (List.length r <= n)%nat) by lia.
    cbn [quote_chars].
    destruct (N.eqb_spec c 8) as [->|N8]; [cbn; now rewrite IH|].
    destruct (N.eqb_spec c 9) as [->|N9]; [cbn; now rewrite IH|].
    destruct (N.eqb_spec c 10) as [->|N10]; [cbn; now rewrite IH|].
    destruct (N.eqb_spec c 12) as [->|N12]; [cbn; now rewrite IH|].
    destruct (N.eqb_spec c 13) as [->|N13]; [cbn; now rewrite IH|].
    destruct (N.eqb_spec c 34) as [->|N34]; [cbn; now rewrite IH|].
    destruct (N.eqb_spec c 92) as [->|N92]; [cbn; now rewrite IH|].
    destruct (N.ltb_spec c 32) as [L|L].
    { rewrite <- app_assoc, parse_unicode_escape by lia. now rewrite IH. }
    assert (P34 : N.eqb c 34 = false) by now apply N.eqb_neq.
    assert (P92 : N.eqb c 92 = false) by now apply N.eqb_neq.
    assert (P32 : N.ltb c 32 = false) by now apply N.ltb_ge.
    destruct (is_high_surrogate c) eqn:Hh.
    { destruct (surrogate_plain c (or_introl Hh)) as (_ & _ & _ & Hc).
      destruct r as [|d r'].
      - now rewrite parse_unicode_escape.
      - destruct (is_low_surrogate d) eqn:Hl.
        + destruct (surrogate_plain d (or_intror Hl)) as (D34 & D92 & D32 & _).
          cbn [app]. rewrite parse_string_chars_plain by assumption.
          rewrite parse_string_chars_plain by assumption.
          rewrite IH by (simpl in Hr; lia). reflexivity.
        + rewrite <- app_assoc, parse_unicode_escape by assumption.
          now rewrite IH. }
    destruct (is_low_surrogate c) eqn:Hl.
    { destruct (surrogate_plain c (or_intror Hl)) as (_ & _ & _ & Hc).
      rewrite <- app_assoc, parse_unicode_escape by assumption. now rewrite IH. }
    cbn [app]. rewrite parse_string_chars_plain by assumption. now rewrite IH.
Qed.

Lemma parse_quote_chars (s rest : jsstring) :
  parse_string_chars (quote_chars s ++ 34%N :: rest) = Some (s, rest).
Proof. apply (@parse_quote_chars_upto (List.length s)). lia. Qed.

Lemma stringify_stored_form (rt : Runtime) (e : value) (t : Task) :
  stored_form e t -> JSON.stringify rt e = Some (task_text t).
Proof.
  destruct t as [i x c [p|]]; intros [->| ->]; reflexivity.
Qed.

Lemma parse_value_string (f : nat) (s rest : jsstring) :
  parse_value (S f) (34%N :: quote_chars s ++ 34%N :: rest) = Parsed (VString s) rest.
Proof. cbn. now rewrite parse_quote_chars. Qed.

Lemma parse_task_text (f : nat) (t : Task) (rest : jsstring) :
  parse_value (6 + f) (task_text t ++ rest) = Parsed (task_json t) rest.
Proof.
  destruct t as [i x c [[| |]|]]; destruct c;
    unfold task_text, member_text, quote; cbn;
    rewrite <- !app_assoc; cbn [app];
    rewrite parse_quote_chars; cbn;
    rewrite <- !app_assoc; cbn [app];
    rewrite parse_quote_chars; cbn; reflexivity.
Qed.

Lemma parse_elements_unfold (f : nat) (s : jsstring) :
  parse_elements (S f) s =
  match parse_value f s with
  | NoParse => NoParse
  | OutOfFuel => OutOfFuel
  | Parsed v s1 =>
      match skip_ws s1 with
      | c :: r =>
          if N.eqb c 93 then Parsed [v] r
          else if N.eqb c 44 then
            match parse_elements f r with
            | Parsed l rest => Parsed (v :: l) rest
            | NoParse => NoParse
            | OutOfFuel => OutOfFuel
            end
          else NoParse
      | [] => NoParse
      end
  end.
Proof. reflexivity. Qed.

Lemma parse_elements_tasks (ts : list Task) :
  forall (t : Task) (f : nat) (rest : jsstring),
    (List.length ts + 7 <= f)%nat ->
    parse_elements f (join_comma (map task_text (t :: ts)) ++ 93%N :: rest)
    = Parsed (map task_json (t :: ts)) rest.
Proof.
  induction ts as [|t' ts IH]; intros t f rest Hf.
  - destruct f as [|f]; [simpl in Hf; lia|].
    rewrite parse_elements_unfold. simpl map. cbn [join_comma].
    replace f with (6 + (f - 6))%nat by (simpl in Hf; lia).
    rewrite parse_task_text. reflexivity.
  - destruct f as [|f]; [simpl in Hf; lia|].
    rewrite parse_elements_unfold.
    change (join_comma (map task_text (t :: t' :: ts)))
      with (task_text t ++ 44%N :: join_comma (map task_text (t' :: ts))).
    rewrite <- app_assoc. cbn [app].
    replace f with (6 + (f - 6))%nat at 1 by (simpl in Hf; lia).
    rewrite parse_task_text. cbn [skip_ws is_json_space N.eqb Pos.eqb orb].
    rewrite IH by (simpl in Hf; lia). reflexivity.
Qed.

Lemma parse_value_tasks (ts : list Task) (f : nat) (rest : jsstring) :
  (List.length ts + 8 <= f)%nat ->
  parse_value f (91%N :: join_comma (map task_text ts) ++ 93%N :: rest)
  = Parsed (VArray (map task_json ts)) rest.
Proof.
  intros Hf. destruct f as [|f]; [lia|].
  destruct ts as [|t ts]; [reflexivity|].
  pose proof (@parse_elements_tasks ts t f rest) as H.
  assert (Hlen : (List.length ts + 7 <= f)%nat) by (simpl in Hf; lia).
  specialize (H Hlen).
  destruct (join_comma (map task_text (t :: ts)) ++ 93%N :: rest) as [|c r] eqn:E.
  - destruct f; [lia|]. rewrite parse_elements_unfold in H.
    destruct f; discriminate H.
  - assert (Hc : c = 123%N).
    { destruct ts; simpl in E; injection E as -> _; reflexivity. }
    subst c. cbn. cbn in H. now rewrite H.
Qed.

Lemma stringify_tasks (rt : Runtime) (es : list value) (ts : list Task) :
  Forall2 stored_form es ts ->
  JSON.stringify rt (VArray es) = Some (tasks_text ts).
Proof.
  intros H. unfold tasks_text. cbn [JSON.stringify]. do 4 f_equal.
  induction H as [|e t es ts He Hes IH]; [reflexivity|].
  cbn [map]. now rewrite (stringify_stored_form rt He), IH.
Qed.

Lemma length_task_text (t : Task) : (2 <= List.length (task_text t))%nat.
Proof.
  unfold task_text. cbn [List.length]. rewrite length_app. simpl. lia.
Qed.

Lemma length_join_tasks (ts : list Task) :
  (2 * List.length ts <= List.length (join_comma (map task_text ts)))%nat.
Proof.
  induction ts as [|t ts IH]; [simpl; lia|].
  pose proof (length_task_text t) as Ht.
  destruct ts as [|t' ts].
  - simpl. lia.
  - change (join_comma (map task_text (t :: t' :: ts)))
      with (task_text t ++ 44%N :: join_comma (map task_text (t' :: ts))).
    rewrite length_app. simpl List.length in *. lia.
Qed.

Lemma parse_tasks_text (ts : list Task) :
  JSON.parse (tasks_text ts) = Ok (VArray (map task_json ts)).
Proof.
  destruct ts as [|t ts]; [reflexivity|].
  unfold JSON.parse, tasks_text.
  rewrite parse_value_tasks; [reflexivity|].
  pose proof (length_join_tasks (t :: ts)) as H.
  cbn [List.length]. rewrite length_app. simpl List.length in *. lia.
Qed.

(** ** JSON text: the bound on the depth of the parser is enough *)

Lemma length_skip_ws (s : jsstring) : (List.length (skip_ws s) <= List.length s)%nat.
Proof.
  induction s as [|c s IH]; simpl; [lia|].
  destruct (is_json_space c); simpl; lia.
Qed.

Lemma skip_ws_cons_length (s r : jsstring) (c : N) :
  skip_ws s = c :: r -> (List.length r < List.length s)%nat.
Proof.
  intros H. pose proof (length_skip_ws s) as L. rewrite H in L. simpl in L. lia.
Qed.

Lemma cons_char_rest (c : N) (r : option (jsstring * jsstring)) (t rest : jsstring) :
  cons_char c r = Some (t, rest) -> exists t', r = Some (t', rest).
Proof.
  destruct r as [[t' rest']|]; simpl; [|discriminate].
  intros [= _ <-]. eauto.
Qed.

Lemma parse_string_chars_length_upto (n : nat) :
  forall s t rest,
    (List.length s <= n)%nat ->
    parse_string_chars s = Some (t, rest) ->
    (List.length rest < List.length s)%nat.
Proof.
  induction n as [|n IH]; intros s t rest Hn H.
  - destruct s; [discriminate H|simpl in Hn; lia].
  - destruct s as [|c r]; [discriminate H|].
    simpl in Hn. cbn [parse_string_chars] in H.
    destruct (N.eqb c 34).
    { injection H as _ <-. simpl. lia. }
    destruct (N.eqb c 92).
    { destruct r as [|e r1]; [discriminate H|].
      destruct (N.eqb e 117).
      - destruct r1 as [|h1 [|h2 [|h3 [|h4 r2]]]]; try discriminate H.
        destruct (hex4 h1 h2 h3 h4); [|discriminate H].
        apply cons_char_rest in H as (t' & H).
        apply IH in H; simpl in *; lia.
      - destruct (single_escape e); [|discriminate H].
        apply cons_char_rest in H as (t' & H).
        apply IH in H; simpl in *; lia. }
    destruct (N.ltb c 32); [discriminate H|].
    apply cons_char_rest in H as (t' & H).
    apply IH in H; simpl in *; lia.
Qed.

Lemma parse_string_chars_length (s t rest : jsstring) :
  parse_string_chars s = Some (t, rest) ->
  (List.length rest < List.length s)%nat.
Proof. apply (@parse_string_chars_length_upto (List.length s)). lia. Qed.

Lemma strip_prefix_length (p s rest : jsstring) :
  strip_prefix p s = Some rest -> (List.length rest + List.length p = List.length s)%nat.
Proof.
  revert s. induction p as [|a p IH]; intros s H; simpl in H.
  - injection H as <-. simpl. lia.
  - destruct s as [|b s]; [discriminate H|].
    destruct (N.eqb a b); [|discriminate H].
    apply IH in H. simpl. lia.
Qed.

Lemma span_digits_length (s d rest : jsstring) :
  span_digits s = (d, rest) -> (List.length rest <= List.length s)%nat.
Proof.
  revert d rest. induction s as [|c s IH]; intros d rest H; simpl in H.
  - injection H as _ <-. simpl. lia.
  - destruct (is_digit c).
    + destruct (span_digits s) as [d' rest'] eqn:E.
      injection H as _ <-. specialize (IH _ _ eq_refl). simpl. lia.
    + injection H as _ <-. lia.
Qed.

Lemma parse_number_length (s l rest : jsstring) :
  parse_number s = Some (l, rest) -> (List.length rest < List.length s)%nat.
Proof.
  unfold parse_number.
  destruct (match s with
            | c :: r => if N.eqb c 45 then ([c], r) else ([], s)
            | [] => ([], s)
            end) as [minus s0] eqn:E0.
  assert (L0 : (List.length s0 <= List.length s)%nat).
  { destruct s as [|c r]; [injection E0 as _ <-; lia|].
    destruct (N.eqb c 45); injection E0 as _ <-; simpl; lia. }
  destruct (parse_int_part s0) as [[i s1]|] eqn:E1; [|discriminate].
  assert (L1 : (List.length s1 < List.length s0)%nat).
  { unfold parse_int_part in E1. destruct s0 as [|c r]; [discriminate E1|].
    destruct (N.eqb c 48); [injection E1 as _ <-; simpl; lia|].
    destruct (is_digit c); [|discriminate E1].
    destruct (span_digits r) as [d rest'] eqn:Ed. injection E1 as _ <-.
    apply span_digits_length in Ed. simpl. lia. }
  destruct (parse_frac_part s1) as [[fr s2]|] eqn:E2; [|discriminate].
  assert (L2 : (List.length s2 <= List.length s1)%nat).
  { unfold parse_frac_part in E2. destruct s1 as [|c r]; [injection E2 as _ <-; lia|].
    destruct (N.eqb c 46); [|injection E2 as _ <-; lia].
    destruct (span_digits r) as [d rest'] eqn:Ed.
    apply span_digits_length in Ed.
    destruct d; [discriminate E2|]. injection E2 as _ <-. simpl. lia. }
  destruct (parse_exp_part s2) as [[ex s3]|] eqn:E3; [|discriminate].
  assert (L3 : (List.length s3 <= List.length s2)%nat).
  { unfold parse_exp_part in E3. destruct s2 as [|c r]; [injection E3 as _ <-; lia|].
    destruct (N.eqb c 101 || N.eqb c 69); [|injection E3 as _ <-; lia].
    destruct (match r with
              | g :: r' => if N.eqb g 43 || N.eqb g 45 then ([g], r') else ([], r)
              | [] => ([], r)
              end) as [sign r1] eqn:Es.
    assert (Lr : (List.length r1 <= List.length r)%nat).
    { destruct r as [|g r']; [injection Es as _ <-; lia|].
      destruct (N.eqb g 43 || N.eqb g 45); injection Es as _ <-; simpl; lia. }
    destruct (span_digits r1) as [d rest'] eqn:Ed.
    apply span_digits_length in Ed.
    destruct d; [discriminate E3|]. injection E3 as _ <-. simpl. lia. }
  intros [= _ <-]. lia.
Qed.

Ltac break_match_in H :=
  match type of H with
  | context [match ?x with _ => _ end] => destruct x eqn:?
  end.

Ltac length_facts :=
  repeat match goal with
    | H : skip_ws _ = _ :: _ |- _ => apply skip_ws_cons_length in H
    | H : parse_string_chars _ = Some _ |- _ => apply parse_string_chars_length in H
    | H : strip_prefix _ _ = Some _ |- _ => apply strip_prefix_length in H
    | H : parse_number _ = Some _ |- _ => apply parse_number_length in H
    end.

(** Every item the parser reads takes at least one character. *)
Lemma parse_lengths (f : nat) :
  (forall s v rest, parse_value f s = Parsed v rest ->
                    (List.length rest < List.length s)%nat) /\
  (forall s l rest, parse_elements f s = Parsed l rest ->
                    (List.length rest < List.length s)%nat) /\
  (forall acc s ps rest, parse_members f acc s = Parsed ps rest ->
                         (List.length rest < List.length s)%nat).
Proof.
  induction f as [|f (IHv & IHe & IHm)]; [repeat split; intros; discriminate|].
  split; [|split].
  - intros s v rest H. cbn [parse_value] in H.
    repeat break_match_in H; try discriminate H; injection H as _ <-;
      repeat match goal with
        | E : parse_elements f _ = Parsed _ _ |- _ => apply IHe in E
        | E : parse_members f _ _ = Parsed _ _ |- _ => apply IHm in E
        end;
      length_facts; simpl in *; lia.
  - intros s l rest H. cbn [parse_elements] in H.
    repeat break_match_in H; try discriminate H; injection H as _ <-;
      repeat match goal with
        | E : parse_value f _ = Parsed _ _ |- _ => apply IHv in E
        | E : parse_elements f _ = Parsed _ _ |- _ => apply IHe in E
        end;
      length_facts; simpl in *; lia.
  - intros acc s ps rest H. cbn [parse_members] in H.
    repeat break_match_in H; try discriminate H;
      try (injection H as _ <-);
      repeat match goal with
        | E : parse_value f _ = Parsed _ _ |- _ => apply IHv in E
        | E : parse_members f _ _ = Parsed _ _ |- _ => apply IHm in E
        end;
      length_facts; simpl in *; lia.
Qed.

Lemma parse_value_length (f : nat) (s : jsstring) (v : value) (rest : jsstring) :
  parse_value f s = Parsed v rest -> (List.length rest < List.length s)%nat.
Proof. apply (parse_lengths f). Qed.

(** With fuel above twice the length of the text the parser never stops
    for lack of fuel. *)
Lemma parse_fuel (f : nat) :
  (forall s, (2 * List.length s + 2 <= f)%nat -> parse_value f s <> OutOfFuel) /\
  (forall s, (2 * List.length s + 3 <= f)%nat -> parse_elements f s <> OutOfFuel) /\
  (forall acc s, (2 * List.length s + 3 <= f)%nat ->
                 parse_members f acc s <> OutOfFuel).
Proof.
  induction f as [|f (IHv & IHe & IHm)]; [repeat split; intros; lia|].
  split; [|split].
  - intros s Hf H. cbn [parse_value] in H.
    repeat break_match_in H; try discriminate H;
      match goal with
      | E : parse_elements f _ = OutOfFuel |- _ => apply IHe in E; [exact E|]
      | E : parse_members f _ _ = OutOfFuel |- _ => apply IHm in E; [exact E|]
      end;
      length_facts; simpl in *; lia.
  - intros s Hf H. cbn [parse_elements] in H.
    repeat break_match_in H; try discriminate H;
      match goal with
      | E : parse_value f _ = OutOfFuel |- _ => apply IHv in E; [exact E|]
      | E : parse_elements f _ = OutOfFuel |- _ => apply IHe in E; [exact E|]
      end;
      repeat match goal with
        | E : parse_value f _ = Parsed _ _ |- _ => apply parse_value_length in E
        end;
      length_facts; simpl in *; lia.
  - intros acc s Hf H. cbn [parse_members] in H.
    repeat break_match_in H; try discriminate H;
      match goal with
      | E : parse_value f _ = OutOfFuel |- _ => apply IHv in E; [exact E|]
      | |- _ => apply IHm in H; [exact H|]
      end;
      repeat match goal with
        | E : parse_value f _ = Parsed _ _ |- _ => apply parse_value_length in E
        end;
      length_facts; simpl in *; lia.
Qed.

(** [JSON.parse] never answers for lack of fuel: a [SyntaxError] of the
    model is a verdict on the text. *)
Lemma parse_never_out_of_fuel (text : jsstring) :
  parse_value (2 * List.length text + 2) text <> OutOfFuel.
Proof. apply (parse_fuel (2 * List.length text + 2)). lia. Qed.

(** ** The storage area *)

Lemma item_get_set_other (k k' v : jsstring) (l : list (jsstring * jsstring)) :
  k <> k' -> item_get k (item_set k' v l) = item_get k l.
Proof.
  intros Hne. induction l as [|[k0 v0] l IH]; simpl.
  - apply str_eqb_neq in Hne. now rewrite Hne.
  - destruct (str_eqb k' k0) eqn:E; simpl.
    + apply str_eqb_eq in E. subst k0.
      apply str_eqb_neq in Hne. now rewrite Hne.
    + now rewrite IH.
Qed.

Lemma item_get_set_same (k v : jsstring) (l : list (jsstring * jsstring)) :
  item_get k (item_set k v l) = Some v.
Proof.
  induction l as [|[k0 v0] l IH]; simpl.
  - now rewrite str_eqb_refl.
  - destruct (str_eqb k k0) eqn:E; simpl; now rewrite E.
Qed.

Lemma item_get_remove_other (k k' : jsstring) (l : list (jsstring * jsstring)) :
  k <> k' -> item_get k (item_remove k' l) = item_get k l.
Proof.
  intros Hne. induction l as [|[k0 v0] l IH]; simpl; [reflexivity|].
  destruct (str_eqb k' k0) eqn:E; simpl.
  - apply str_eqb_eq in E. subst k0.
    apply str_eqb_neq in Hne. now rewrite Hne.
  - now rewrite IH.
Qed.

Lemma todos_after_test (w : World) :
  item_get k_todos (items (storage (after_test w)))
  = item_get k_todos (items (storage w)).
Proof.
  unfold after_test. simpl.
  rewrite item_get_remove_other, item_get_set_other by discriminate. reflexivity.
Qed.

Lemma isLocalStorageAvailable_true (rt : Runtime) (w : World) :
  storage_available rt w = true ->
  isLocalStorageAvailable rt w = (Ok true, after_test w).
Proof.
  unfold storage_available. intros H. apply andb_true_iff in H as [Hb Hq].
  apply negb_true_iff in Hb.
  unfold isLocalStorageAvailable, try_catch, bind, setItem, removeItem.
  rewrite Hb, Hq. simpl. rewrite Hb. reflexivity.
Qed.

Lemma isLocalStorageAvailable_false (rt : Runtime) (w : World) :
  storage_available rt w = false ->
  exists w', isLocalStorageAvailable rt w = (Ok false, w') /\ storage w' = storage w.
Proof.
  unfold storage_available. intros H.
  unfold isLocalStorageAvailable, try_catch, bind, setItem, removeItem.
  destruct (blocked (storage w)) eqn:Hb; simpl in *.
  - eexists. split; reflexivity.
  - rewrite H. eexists. split; reflexivity.
Qed.

(** The first steps of both effects on a usable storage area: the
    availability test succeeds, and the item "todos" is read from the
    storage area as it was before the test. *)
Ltac storage_usable Ha Hb :=
  rewrite (isLocalStorageAvailable_true _ _ Ha);
  apply andb_true_iff in Ha as [Hb _]; apply negb_true_iff in Hb.

Ltac read_todos w :=
  change (item_get k_todos
            (item_remove k_test (item_set k_test k_test (items (storage w)))))
    with (item_get k_todos (items (storage (after_test w))));
  rewrite todos_after_test.

(** ** The load effect *)

Lemma parse_ok_nonempty (text : jsstring) (v : value) :
  JSON.parse text = Ok v -> exists c t, text = c :: t.
Proof.
  destruct text as [|c t]; [discriminate|eauto].
Qed.

Lemma loadEffect_parsed (rt : Runtime) (s : State) (w : World)
  (text : jsstring) (v : value) :
  storage_available rt w = true ->
  item_get k_todos (items (storage w)) = Some text ->
  JSON.parse text = Ok v ->
  exists w', loadEffect rt s w = (Ok (setTasks v s), w') /\
             storage w' = storage (after_test w).
Proof.
  intros Ha Hg Hp.
  destruct (parse_ok_nonempty _ Hp) as (c & t & ->).
  unfold loadEffect, bind. storage_usable Ha Hb.
  cbn [negb]. unfold try_catch, bind, console_log, getItem, lift.
  cbn [storage blocked items after_test with_items]. rewrite Hb.
  read_todos w. rewrite Hg, Hp.
  eexists. split; reflexivity.
Qed.

Lemma loadEffect_other_cases (rt : Runtime) (s : State) (w : World) :
  (storage_available rt w = false
   \/ item_get k_todos (items (storage w)) = None
   \/ item_get k_todos (items (storage w)) = Some []
   \/ exists text e, item_get k_todos (items (storage w)) = Some text
                     /\ JSON.parse text = Throw e) ->
  exists w', loadEffect rt s w = (Ok s, w').
Proof.
  intros H. unfold loadEffect, bind.
  destruct (storage_available rt w) eqn:Ha.
  - storage_usable Ha Hb.
    cbn [negb]. unfold try_catch, bind, console_log, getItem, lift.
    cbn [storage blocked items after_test with_items]. rewrite Hb.
    read_todos w.
    destruct H as [H|[H|[H|(text & e & H & Hp)]]]; try discriminate; rewrite H.
    + eexists. reflexivity.
    + eexists. reflexivity.
    + destruct text as [|c t]; [eexists; reflexivity|].
      rewrite Hp. eexists. reflexivity.
  - destruct (isLocalStorageAvailable_false _ _ Ha) as (w1 & E & _).
    rewrite E. cbn [negb]. eexists. reflexivity.
Qed.

(** C6 (amended).  The load effect never throws.  When the storage area is
    usable (the availability test succeeds) and the text stored under
    "todos" parses, the parsed value becomes the list as it is: every entry
    of the snapshot is loaded, in order, whether it is a valid task or not,
    and nothing is skipped.  In every other case (the storage area is not
    usable, there is no item "todos", its text is empty or does not parse)
    the list stays as it was. *)
Theorem loadEffect_installs_snapshot_unfiltered
  (rt : Runtime) (s : State) (w : World) :
  exists s' w',
    loadEffect rt s w = (Ok s', w') /\
    (forall text v,
        storage_available rt w = true ->
        item_get k_todos (items (storage w)) = Some text ->
        JSON.parse text = Ok v ->
        s' = setTasks v s) /\
    (forall text e,
        item_get k_todos (items (storage w)) = Some text ->
        JSON.parse text = Throw e ->
        s' = s) /\
    (storage_available rt w = false -> s' = s) /\
    (item_get k_todos (items (storage w)) = None -> s' = s).
Proof.
  destruct (storage_available rt w) eqn:Ha.
  - destruct (item_get k_todos (items (storage w))) as [text|] eqn:Hg.
    + destruct (JSON.parse text) as [v|e] eqn:Hp.
      * destruct (loadEffect_parsed rt s w Ha Hg Hp) as (w' & E & _).
        exists (setTasks v s), w'. split; [exact E|]. split; [|split; [|split]].
        -- intros text' v' _ [= <-] Hp'. congruence.
        -- intros text' e' [= <-] Hp'. congruence.
        -- discriminate.
        -- discriminate.
      * destruct (@loadEffect_other_cases rt s w) as (w' & E).
        { right. right. right. eauto. }
        exists s, w'. split; [exact E|]. split; [|auto].
        intros text' v' _ [= <-] Hp'. congruence.
    + destruct (@loadEffect_other_cases rt s w) as (w' & E); [auto|].
      exists s, w'. split; [exact E|]. split; [|auto]. intros; discriminate.
  - destruct (@loadEffect_other_cases rt s w) as (w' & E); [auto|].
    exists s, w'. split; [exact E|]. split; [intros; discriminate|auto].
Qed.

(** From the snapshot [[{"text":"no id"},{"id":"b",...}]] the load effect
    installs both entries, the one without [id] first. *)
Lemma loadEffect_installs_snapshot_unfiltered_witness :
  exists w',
    loadEffect sample_runtime initial_state (world_with [(k_todos, mixed_snapshot)])
    = (Ok (setTasks (VArray [entry_without_id; task_json task_B]) initial_state), w').
Proof.
  destruct (loadEffect_installs_snapshot_unfiltered sample_runtime initial_state
              (world_with [(k_todos, mixed_snapshot)])) as (s' & w' & E & Hok & _).
  exists w'. rewrite E. f_equal. f_equal.
  apply (Hok mixed_snapshot); reflexivity.
Defined.

(** The entry without [id] of that snapshot is in the list after the load:
    it has not been skipped.  And when the storage area is full, so that the
    availability test fails, the load effect returns before it reads the
    item: the valid task of the snapshot is not loaded. *)
Lemma loadEffect_skips_nothing_and_may_load_nothing :
  ~ load_skips_malformed sample_runtime initial_state
      (world_with [(k_todos, mixed_snapshot)]) /\
  ~ load_keeps_valid full_runtime initial_state
      (world_with [(k_todos, tasks_text [task_B])]).
Proof.
  split.
  - intros H.
    specialize (H _ _ [entry_without_id; task_json task_B] eq_refl eq_refl).
    inversion H as [|? ? Hbad _]. discriminate Hbad.
  - intros H.
    assert (Hp : JSON.parse (tasks_text [task_B]) = Ok (VArray [task_json task_B]))
      by apply parse_tasks_text.
    specialize (H (tasks_text [task_B]) [task_json task_B] _ _ [] eq_refl Hp
                  eq_refl eq_refl (task_json task_B) (or_introl eq_refl) eq_refl).
    exact H.
Qed.

(** ** C5: the round trip through the stored text *)

Lemma as_task_stored_form (e : value) (t : Task) :
  stored_form e t -> as_task e = Some t.
Proof. intros [->| ->]; [apply as_task_object|apply as_task_json]. Qed.

(** C5.  For a list of tasks in the shapes the component holds them, the
    load effect run on a storage area whose "todos" item is the text
    [JSON.stringify] writes for the list installs a list with the same
    tasks, one by one, equal on [id], [text], [completed] and [priority]. *)
Theorem load_of_serialized_tasks_round_trip
  (rt : Runtime) (s : State) (w : World) (es : list value) (ts : list Task) :
  Forall2 stored_form es ts ->
  storage_available rt w = true ->
  item_get k_todos (items (storage w)) = Some (to_item (JSON.stringify rt (VArray es))) ->
  exists es' w',
    loadEffect rt s w = (Ok (setTasks (VArray es') s), w') /\
    map as_task es' = map as_task es /\
    map as_task es = map Some ts.
Proof.
  intros Hf Ha Hg.
  rewrite (stringify_tasks rt Hf) in Hg. cbn [to_item] in Hg.
  destruct (loadEffect_parsed rt s w Ha Hg (parse_tasks_text ts)) as (w' & E & _).
  exists (map task_json ts), w'. split; [exact E|].
  assert (Hes : map as_task es = map Some ts).
  { clear - Hf. induction Hf as [|e t es ts He Hes IH]; [reflexivity|].
    simpl. now rewrite (as_task_stored_form He), IH. }
  split; [|exact Hes].
  rewrite Hes, map_map. apply map_ext. intros t. apply as_task_json.
Qed.

Lemma load_of_serialized_tasks_round_trip_witness :
  exists es' w',
    loadEffect sample_runtime initial_state
      (world_with [(k_todos, to_item (JSON.stringify sample_runtime (VArray sample_tasks)))])
    = (Ok (setTasks (VArray es') initial_state), w') /\
    map as_task es' = map as_task sample_tasks /\
    map as_task sample_tasks = map Some [task_A; task_B].
Proof.
  apply (@load_of_serialized_tasks_round_trip sample_runtime initial_state
           (world_with [(k_todos, to_item (JSON.stringify sample_runtime
                                             (VArray sample_tasks)))])
           sample_tasks [task_A; task_B]).
  - constructor; [left; reflexivity|]. constructor; [right; reflexivity|constructor].
  - reflexivity.
  - reflexivity.
Defined.

(** ** C7: the guard of the save effect *)

(** C7.  When the list in memory is empty and the text stored under "todos"
    is a non-empty list, the save effect returns without throwing and
    without writing: the stored text is still there afterwards.  This holds
    whether or not the storage area is usable. *)
Theorem saveEffect_never_clobbers_with_empty
  (rt : Runtime) (w : World) (text : jsstring) (x : value) (xs : list value) :
  item_get k_todos (items (storage w)) = Some text ->
  JSON.parse text = Ok (VArray (x :: xs)) ->
  exists w',
    saveEffect rt (VArray []) w = (Ok tt, w') /\
    item_get k_todos (items (storage w')) = Some text.
Proof.
  intros Hg Hp. destruct (parse_ok_nonempty _ Hp) as (c & t & ->).
  unfold saveEffect, bind.
  destruct (storage_available rt w) eqn:Ha.
  - storage_usable Ha Hb.
    cbn [negb length_is_zero lift List.length Nat.eqb]. unfold getItem, lift.
    cbn [storage blocked items after_test with_items]. rewrite Hb.
    read_todos w. rewrite Hg, Hp.
    cbn [length_gt_zero List.length Nat.ltb Nat.leb].
    eexists. split; [reflexivity|].
    change (item_get k_todos (items (storage (after_test w))) = Some (c :: t)).
    now rewrite todos_after_test.
  - destruct (isLocalStorageAvailable_false _ _ Ha) as (w1 & E & Hw1).
    rewrite E. cbn [negb]. exists w1. split; [reflexivity|]. now rewrite Hw1.
Qed.

Lemma saveEffect_never_clobbers_with_empty_witness :
  exists w',
    saveEffect sample_runtime (VArray []) (world_with [(k_todos, tasks_text [task_A])])
    = (Ok tt, w') /\
    item_get k_todos (items (storage w')) = Some (tasks_text [task_A]).
Proof.
  apply (@saveEffect_never_clobbers_with_empty sample_runtime
           (world_with [(k_todos, tasks_text [task_A])]) (tasks_text [task_A])
           (task_json task_A) []).
  - reflexivity.
  - reflexivity.
Defined.

(** ** C8: failures of the save effect *)

(** With a list that is not empty the save effect catches whatever the
    storage area throws. *)
Lemma saveEffect_nonempty_never_throws
  (rt : Runtime) (w : World) (e : value) (es : list value) :
  exists w', saveEffect rt (VArray (e :: es)) w = (Ok tt, w').
Proof.
  unfold saveEffect, bind.
  destruct (storage_available rt w) eqn:Ha.
  - storage_usable Ha Hb.
    cbn [negb length_is_zero lift List.length Nat.eqb].
    unfold try_catch, bind, ret, console_log, setItem, getItem, console_error.
    cbn [storage blocked items after_test with_items]. rewrite Hb.
    destruct (quota_allows rt _); cbn [storage blocked items with_items];
      rewrite ?Hb; eexists; reflexivity.
  - destruct (isLocalStorageAvailable_false _ _ Ha) as (w1 & E & _).
    rewrite E. cbn [negb]. eexists. reflexivity.
Qed.

(** C8 (the code departs from the claim).  With the text "{" stored under
    "todos", deleting the only task of the list makes the save effect throw
    a [SyntaxError]: the [JSON.parse] of its guard is outside the [try]
    block, so the error is neither caught nor logged.  The save effect of
    the empty list throws in the same way when the component mounts on that
    storage area, and it throws a [TypeError] when the stored text is
    "null". *)
Theorem saveEffect_throws_on_corrupt_snapshot :
  (exists w', dispatch sample_runtime (DeleteClick (str "a"))
                (state_with [task_object task_A])
                (world_with [(k_todos, corrupt_snapshot)])
              = (Throw SyntaxError, w')
              /\ console w' = []) /\
  (exists w', saveEffect sample_runtime (VArray [])
                (world_with [(k_todos, corrupt_snapshot)])
              = (Throw SyntaxError, w')) /\
  (exists w', mount sample_runtime (world_with [(k_todos, corrupt_snapshot)])
              = (Throw SyntaxError, w')) /\
  (exists w', saveEffect sample_runtime (VArray [])
                (world_with [(k_todos, lit_null)])
              = (Throw TypeError, w')).
Proof.
  repeat split; eexists; repeat split; reflexivity.
Qed.

Lemma deleteTask_run (s : State) (i : jsstring) (w : World) (es : list value) :
  tasks s = VArray es ->
  all_tasks es ->
  exists w',
    deleteTask s i w
    = (Ok (VUndefined, setTasks (VArray (filter (fun e => negb (has_id i e)) es)) s), w')
    /\ only_audio w w'.
Proof.
  intros Hs Hes. eexists. split.
  - unfold deleteTask, bind, initializeAudio, playDeleteSound, request_audio,
      array_filter. rewrite Hs. unfold bind.
    rewrite (filterM_pure (deleteTask_keep i) (fun e => negb (has_id i e))).
    + reflexivity.
    + intros e He w0. apply deleteTask_keep_run.
      unfold all_tasks in Hes. rewrite Forall_forall in Hes. auto.
  - repeat split.
Qed.

(** ** C9: identifiers *)

Lemma priority_entry_task (i : jsstring) (p : option Priority) (e : value) :
  is_task e = true ->
  is_task (priority_entry i p e) = true /\ id_of (priority_entry i p e) = id_of e.
Proof.
  intros H. destruct (is_task_as_task _ H) as [t Ht].
  destruct (is_task_object _ H) as [ps ->].
  unfold priority_entry. destruct (has_id i (VObject ps)); [|auto].
  destruct (as_task_fields _ Ht) as (Hi & Hx & Hc & _).
  split.
  - unfold is_task, as_task. cbn [spread_props].
    rewrite (@lookup_define_prop_other k_priority k_id) by (reflexivity || discriminate).
    rewrite (@lookup_define_prop_other k_priority k_text) by (reflexivity || discriminate).
    rewrite (@lookup_define_prop_other k_priority k_completed) by (reflexivity || discriminate).
    rewrite lookup_define_prop_same by reflexivity.
    now rewrite Hi, Hx, Hc, as_priority_value.
  - cbn [spread_props id_of].
    now rewrite (@lookup_define_prop_other k_priority k_id) by (reflexivity || discriminate).
Qed.

Lemma updateTaskPriority_mapM (i : jsstring) (p : option Priority)
  (es : list value) (w : World) :
  all_tasks es ->
  mapM (updateTaskPriority_each i p) es w = (Ok (map (priority_entry i p) es), w).
Proof.
  intros H. induction H as [|e es He Hes IH]; [reflexivity|].
  destruct (is_task_object _ He) as [ps ->].
  cbn [mapM map].
  unfold updateTaskPriority_each, priority_entry, has_id, bind, lift, ret in *.
  cbn [field id_of]. destruct (strict_equals_string _ i); now rewrite IH.
Qed.

Lemma all_tasks_map (f : value -> value) (es : list value) :
  (forall e, is_task e = true -> is_task (f e) = true) ->
  all_tasks es -> all_tasks (map f es).
Proof.
  intros Hf H. induction H; simpl; constructor; auto.
Qed.

Lemma all_tasks_filter (p : value -> bool) (es : list value) :
  all_tasks es -> all_tasks (filter p es).
Proof.
  intros H. induction H as [|e es He Hes IH]; simpl; [constructor|].
  destruct (p e); [constructor|]; assumption.
Qed.

Create HintDb tasks discriminated.
#[local] Hint Resolve all_tasks_map all_tasks_filter toggle_entry_is_task : tasks.

Lemma ids_map_same (f : value -> value) (es : list value) :
  all_tasks es ->
  (forall e, is_task e = true -> id_of (f e) = id_of e) ->
  ids (map f es) = ids es.
Proof.
  intros H Hf. unfold ids. rewrite map_map. apply map_ext_in.
  intros e He. apply Hf. unfold all_tasks in H. rewrite Forall_forall in H. auto.
Qed.

Lemma uuid_values_S_first (rt : Runtime) (n k : nat) :
  uuid_values rt n (S k) = VString (uuid_nth rt n) :: uuid_values rt (S n) k.
Proof. reflexivity. Qed.

Lemma subsequence_refl {A} (l : list A) : subsequence l l.
Proof. induction l; constructor; assumption. Qed.

Lemma subsequence_trans {A} (l1 l2 l3 : list A) :
  subsequence l1 l2 -> subsequence l2 l3 -> subsequence l1 l3.
Proof.
  intros H12 H23. revert l1 H12.
  induction H23 as [|x l2 l3 _ IH|x l2 l3 _ IH]; intros l1 H12.
  - exact H12.
  - constructor. now apply IH.
  - inversion H12; subst; constructor; now apply IH.
Qed.

Lemma subsequence_app_tail {A} (l l' r : list A) :
  subsequence l l' -> subsequence (l ++ r) (l' ++ r).
Proof.
  intros H. induction H; cbn; [apply subsequence_refl| |]; constructor; assumption.
Qed.

Lemma subsequence_In {A} (l l' : list A) (x : A) :
  subsequence l l' -> In x l -> In x l'.
Proof.
  intros H. induction H as [|y l l' _ IH|y l l' _ IH]; cbn; [auto|auto|].
  intros [->|Hin]; auto.
Qed.

Lemma subsequence_NoDup {A} (l l' : list A) :
  subsequence l l' -> NoDup l' -> NoDup l.
Proof.
  intros H. induction H as [|y l l' _ IH|y l l' Hs IH]; intros Hnd.
  - exact Hnd.
  - inversion Hnd; subst. auto.
  - inversion Hnd as [|? ? Hy Hl]; subst. constructor; [|auto].
    intros Hin. apply Hy. eapply subsequence_In; eassumption.
Qed.

Lemma subsequence_ids_filter (p : value -> bool) (es : list value) :
  subsequence (ids (filter p es)) (ids es).
Proof.
  induction es as [|e es IH]; cbn; [constructor|].
  destruct (p e); cbn; constructor; exact IH.
Qed.

(** What one handler call does to the list: the world draws no identifier
    and the identifiers of the list are those of a filtered list (of the
    whole list, unless the interaction deletes), or one identifier is drawn
    and put at the end. *)
Lemma handle_step (rt : Runtime) (ev : event) (s : State) (w : World) (es : list value) :
  tasks s = VArray es ->
  all_tasks es ->
  exists s' w' es',
    handle rt ev s w = (Ok s', w') /\
    tasks s' = VArray es' /\
    all_tasks es' /\
    ((exists p, ids es' = ids (filter p es)) /\
     (is_delete ev = false -> ids es' = ids es) /\
     uuids_drawn w' = uuids_drawn w
     \/ ids es' = ids es ++ [VString (uuid_nth rt (uuids_drawn w))]
        /\ uuids_drawn w' = S (uuids_drawn w)).
Proof.
  intros Hs Hes.
  assert (Hsame : exists p, ids es = ids (filter p es)).
  { exists (fun _ => true). now rewrite filter_true. }
  assert (Hstay : forall s', tasks s' = tasks s ->
             exists s0 w' es',
               (Ok s', w) = (Ok s0, w') /\
               tasks s0 = VArray es' /\ all_tasks es' /\
               ((exists p, ids es' = ids (filter p es)) /\
                (is_delete ev = false -> ids es' = ids es) /\
                uuids_drawn w' = uuids_drawn w
                \/ ids es' = ids es ++ [VString (uuid_nth rt (uuids_drawn w))]
                   /\ uuids_drawn w' = S (uuids_drawn w))).
  { intros s' Hs'. exists s', w, es. rewrite Hs', Hs. auto 7. }
  assert (Hadd : exists s' w' es',
             (r <- addTask rt s ;; ret (snd r)) w = (Ok s', w') /\
             tasks s' = VArray es' /\ all_tasks es' /\
             ((exists p, ids es' = ids (filter p es)) /\
              (is_delete ev = false -> ids es' = ids es) /\
              uuids_drawn w' = uuids_drawn w
              \/ ids es' = ids es ++ [VString (uuid_nth rt (uuids_drawn w))]
                 /\ uuids_drawn w' = S (uuids_drawn w))).
  { unfold addTask, bind. destruct (str_eqb (trim (newTask s)) []).
    - apply Hstay. reflexivity.
    - rewrite Hs. cbn. eexists. eexists. eexists.
      split; [reflexivity|]. split; [reflexivity|]. split.
      + apply Forall_app. split; [assumption|]. constructor; [|constructor].
        unfold is_task, as_task. cbn. now rewrite as_priority_value.
      + right. split; [|reflexivity]. unfold ids. now rewrite map_app. }
  destruct ev as [v|p|key| |tab|i|i p|i]; cbn [handle].
  - apply Hstay. reflexivity.
  - apply Hstay. reflexivity.
  - unfold handleKeyDown. destruct (str_eqb key key_Enter).
    + destruct Hadd as (s' & w' & es' & E & R).
      exists s', w', es'. split; [|exact R].
      unfold bind in *. destruct (addTask rt s w) as [[r|e] w1]; cbn in *; congruence.
    + apply Hstay. reflexivity.
  - exact Hadd.
  - apply Hstay. reflexivity.
  - destruct (toggleTask_mapM rt i w Hes) as (w' & E & (_ & _ & Hu)).
    exists (setTasks (VArray (map (toggle_entry rt i) es)) s), w',
      (map (toggle_entry rt i) es).
    split; [|split; [reflexivity|split]].
    + unfold toggleTask, array_map, bind. rewrite Hs. unfold bind. now rewrite E.
    + auto with tasks.
    + assert (Hids : ids (map (toggle_entry rt i) es) = ids es).
      { apply ids_map_same; [assumption|]. intros e. apply id_of_toggle_entry. }
      left. split; [|split; [auto|exact Hu]].
      exists (fun _ => true). now rewrite filter_true.
  - exists (setTasks (VArray (map (priority_entry i p) es)) s), w,
      (map (priority_entry i p) es).
    split; [|split; [reflexivity|split]].
    + unfold updateTaskPriority, array_map, bind. rewrite Hs. unfold bind.
      now rewrite updateTaskPriority_mapM.
    + apply all_tasks_map; [|assumption]. intros e He.
      now destruct (priority_entry_task i p e He).
    + assert (Hids : ids (map (priority_entry i p) es) = ids es).
      { apply ids_map_same; [assumption|]. intros e He.
        now destruct (priority_entry_task i p e He). }
      left. split; [|split; [auto|reflexivity]].
      exists (fun _ => true). now rewrite filter_true.
  - destruct (@deleteTask_run s i w es Hs Hes) as (w' & E & (_ & _ & Hu)).
    exists (setTasks (VArray (filter (fun e => negb (has_id i e)) es)) s), w',
      (filter (fun e => negb (has_id i e)) es).
    split; [|split; [reflexivity|split]].
    + unfold bind. now rewrite E.
    + auto with tasks.
    + left. split; [eauto|]. split; [discriminate|exact Hu].
Qed.




(** ** The save effect writes what the load effect reads *)

(** X7.  With a usable storage area whose quota admits the new text, the
    save effect of a list that is not empty stores [JSON.stringify] of the
    list under "todos". *)
Lemma saveEffect_stores_serialization
  (rt : Runtime) (w : World) (e : value) (es : list value) :
  storage_available rt w = true ->
  quota_allows rt (item_set k_todos (to_item (JSON.stringify rt (VArray (e :: es))))
                     (items (storage (after_test w)))) = true ->
  exists w',
    saveEffect rt (VArray (e :: es)) w = (Ok tt, w') /\
    item_get k_todos (items (storage w'))
    = Some (to_item (JSON.stringify rt (VArray (e :: es)))).
Proof.
  intros Ha Hq. unfold saveEffect, bind.
  storage_usable Ha Hb.
  cbn [negb length_is_zero lift List.length Nat.eqb].
  unfold try_catch, bind, ret, console_log, setItem, getItem, console_error.
  cbn [storage blocked items with_items].
  assert (Hb' : blocked (storage (after_test w)) = false) by exact Hb.
  rewrite Hb', Hq. cbn [storage blocked items with_items]. rewrite Hb'.
  eexists. split; [reflexivity|].
  cbn [storage items]. apply item_get_set_same.
Qed.

(** ** The shapes of the tasks the component holds *)

Lemma has_id_stored_form (i : jsstring) (e : value) (t : Task) :
  stored_form e t -> has_id i e = str_eqb (id t) i.
Proof.
  intros H. apply as_task_has_id. now apply as_task_stored_form.
Qed.

Lemma toggle_entry_stored_form (rt : Runtime) (i : jsstring) (e : value) (t : Task) :
  stored_form e t ->
  stored_form (toggle_entry rt i e) (if str_eqb (id t) i then flipped t else t).
Proof.
  intros H. unfold toggle_entry. rewrite (has_id_stored_form i H).
  destruct (str_eqb (id t) i); [|exact H].
  destruct t as [j x c [p|]]; destruct H as [->| ->];
    ((left; reflexivity) || (right; reflexivity)).
Qed.

Lemma priority_entry_stored_form (i : jsstring) (p : option Priority)
  (e : value) (t : Task) :
  stored_form e t ->
  stored_form (priority_entry i p e) (if str_eqb (id t) i then with_priority p t else t).
Proof.
  intros H. unfold priority_entry. rewrite (has_id_stored_form i H).
  destruct (str_eqb (id t) i); [|exact H].
  destruct t as [j x c [q|]]; destruct H as [->| ->]; left; reflexivity.
Qed.

Lemma stored_forms_are_tasks (es : list value) :
  Forall in_stored_form es -> all_tasks es.
Proof.
  intros H. induction H as [|e es (t & He) Hes IH]; constructor; [|exact IH].
  unfold is_task. now rewrite (as_task_stored_form He).
Qed.

(** Every handler keeps the entries in the two shapes of [stored_form]. *)
Lemma handle_keeps_stored_forms
  (rt : Runtime) (ev : event) (s : State) (w : World) (es : list value) :
  tasks s = VArray es ->
  Forall in_stored_form es ->
  exists s' w' es',
    handle rt ev s w = (Ok s', w') /\
    tasks s' = VArray es' /\
    Forall in_stored_form es'.
Proof.
  intros Hs Hes. pose proof (stored_forms_are_tasks Hes) as Htasks.
  assert (Hadd : exists s' w' es',
             (r <- addTask rt s ;; ret (snd r)) w = (Ok s', w') /\
             tasks s' = VArray es' /\ Forall in_stored_form es').
  { unfold addTask, bind. destruct (str_eqb (trim (newTask s)) []).
    - exists s, w, es. cbn. auto.
    - rewrite Hs. cbn. eexists. eexists. eexists.
      split; [reflexivity|]. split; [reflexivity|].
      apply Forall_app. split; [assumption|]. constructor; [|constructor].
      exists {| id := uuid_nth rt (uuids_drawn w); text := trim (newTask s);
                completed := false; priority := selectedPriority s |}.
      left. reflexivity. }
  destruct ev as [v|p|key| |tab|i|i p|i]; cbn [handle].
  - exists (setNewTask v s), w, es. cbn. auto.
  - exists (setSelectedPriority p s), w, es. cbn. auto.
  - unfold handleKeyDown. destruct (str_eqb key key_Enter).
    + destruct Hadd as (s' & w' & es' & E & R).
      exists s', w', es'. split; [|exact R].
      unfold bind in *. destruct (addTask rt s w) as [[r|e] w1]; cbn in *; congruence.
    + exists s, w, es. cbn. auto.
  - exact Hadd.
  - exists (setActiveTab tab s), w, es. cbn. auto.
  - destruct (toggleTask_mapM rt i w Htasks) as (w' & E & _).
    eexists. exists w'. eexists.
    split; [unfold toggleTask, array_map, bind; rewrite Hs; unfold bind; now rewrite E|].
    split; [reflexivity|].
    apply Forall_map. eapply Forall_impl; [|exact Hes].
      intros e (t & He). eexists. apply (toggle_entry_stored_form rt i He).
  - eexists. exists w. eexists.
    split; [unfold updateTaskPriority, array_map, bind; rewrite Hs; unfold bind;
            now rewrite updateTaskPriority_mapM|].
    split; [reflexivity|].
    apply Forall_map. eapply Forall_impl; [|exact Hes].
    intros e (t & He). eexists. apply (priority_entry_stored_form i p He).
  - destruct (@deleteTask_run s i w es Hs Htasks) as (w' & E & _).
    eexists. exists w'. eexists.
    split; [unfold bind; now rewrite E|]. split; [reflexivity|].
    rewrite Forall_forall in *. intros e He. apply filter_In in He as [He _]. auto.
Qed.

(** * Further properties of the handlers *)

(** ** Setting a priority *)

Lemma priority_entry_as_task (i : jsstring) (p : option Priority) (e : value) (t : Task) :
  as_task e = Some t ->
  priority_entry i p e = e /\ str_eqb (id t) i = false \/
  as_task (priority_entry i p e) = Some (with_priority p t) /\ str_eqb (id t) i = true.
Proof.
  intros H. unfold priority_entry. rewrite (as_task_has_id _ i H).
  destruct (str_eqb (id t) i); [right|left; auto].
  split; [|reflexivity].
  destruct e as [| | | | | |ps]; try discriminate.
  destruct (as_task_fields _ H) as (Hi & Hx & Hc & _).
  unfold as_task. cbn [spread_props].
  rewrite (@lookup_define_prop_other k_priority k_id) by (reflexivity || discriminate).
  rewrite (@lookup_define_prop_other k_priority k_text) by (reflexivity || discriminate).
  rewrite (@lookup_define_prop_other k_priority k_completed) by (reflexivity || discriminate).
  rewrite lookup_define_prop_same by reflexivity.
  now rewrite Hi, Hx, Hc, as_priority_value.
Qed.

(** X1.  On a list of tasks, [updateTaskPriority(id, priority)] sets or
    clears the priority of every task whose identifier is [id], keeping its
    [id], [text] and [completed], and leaves each other entry as it was, at
    its place; it returns [undefined] and does not touch the world. *)
Theorem updateTaskPriority_sets_only_priority
  (s : State) (i : jsstring) (p : option Priority) (w : World) (es : list value) :
  tasks s = VArray es ->
  all_tasks es ->
  exists es',
    updateTaskPriority s i p w = (Ok (VUndefined, setTasks (VArray es') s), w) /\
    List.length es' = List.length es /\
    ids es' = ids es /\
    Forall2 (reprioritized i p) es es'.
Proof.
  intros Hs Hes. exists (map (priority_entry i p) es).
  split; [|split; [apply length_map|split]].
  - unfold updateTaskPriority, array_map, bind. rewrite Hs. unfold bind.
    now rewrite updateTaskPriority_mapM.
  - apply ids_map_same; [assumption|]. intros e He.
    now destruct (priority_entry_task i p e He).
  - clear Hs. induction Hes as [|e es He Hes IH]; simpl; constructor; auto.
    destruct (is_task_as_task _ He) as [t Ht]. unfold reprioritized. rewrite Ht.
    destruct (priority_entry_as_task i p _ Ht) as [[-> ->]|[-> ->]]; reflexivity.
Qed.

Lemma updateTaskPriority_sets_only_priority_witness :
  exists es',
    updateTaskPriority (state_with sample_tasks) (str "b") (Some P2) (world_with [])
    = (Ok (VUndefined, setTasks (VArray es') (state_with sample_tasks)), world_with []) /\
    List.length es' = List.length sample_tasks /\
    ids es' = ids sample_tasks /\
    Forall2 (reprioritized (str "b") (Some P2)) sample_tasks es'.
Proof.
  apply (@updateTaskPriority_sets_only_priority (state_with sample_tasks) (str "b")
           (Some P2) (world_with []) sample_tasks).
  - reflexivity.
  - repeat constructor.
Defined.

(** ** Toggling twice *)

Lemma replace_prop_same (k : jsstring) (v : value) (ps : props) :
  lookup k ps = Some v -> replace_prop k v ps = ps.
Proof.
  induction ps as [|[k' v'] ps IH]; simpl; [reflexivity|].
  destruct (str_eqb k k') eqn:E.
  - now intros [= ->].
  - intros H. now rewrite IH.
Qed.

Lemma replace_prop_twice (k : jsstring) (v v' : value) (ps : props) :
  replace_prop k v (replace_prop k v' ps) = replace_prop k v ps.
Proof.
  induction ps as [|[k0 v0] ps IH]; simpl; [reflexivity|].
  destruct (str_eqb k k0) eqn:E; simpl; rewrite E; [reflexivity|].
  now rewrite IH.
Qed.

Lemma define_prop_present (k : jsstring) (v v0 : value) (ps : props) :
  lookup k ps = Some v0 -> define_prop k v ps = replace_prop k v ps.
Proof. unfold define_prop. now intros ->. Qed.

Lemma toggle_entry_twice (rt : Runtime) (i : jsstring) (e : value) :
  is_task e = true -> toggle_entry rt i (toggle_entry rt i e) = e.
Proof.
  intros H. destruct (is_task_as_task _ H) as [t Ht].
  destruct (is_task_object _ H) as [ps ->].
  destruct (as_task_fields _ Ht) as (Hi & Hx & Hc & Hp).
  unfold toggle_entry at 2.
  destruct (has_id i (VObject ps)) eqn:Hid.
  - cbn [field spread_props]. rewrite Hc. cbn [to_boolean].
    erewrite define_prop_present by exact Hc.
    unfold toggle_entry.
    assert (Hid' : has_id i (VObject (replace_prop k_completed
                                        (VBool (negb (completed t))) ps)) = true).
    { unfold has_id, id_of in *. now rewrite lookup_replace_other by discriminate. }
    rewrite Hid'. cbn [field spread_props].
    rewrite lookup_replace_same by congruence. cbn [to_boolean].
    rewrite negb_involutive.
    erewrite define_prop_present by (apply lookup_replace_same; congruence).
    rewrite replace_prop_twice. f_equal. now apply replace_prop_same.
  - unfold toggle_entry. now rewrite Hid.
Qed.

(** X2.  On a list of tasks, calling [toggleTask(id)] twice gives back the
    list as it was, entry by entry; only the count of updates and the
    sound cues tell that anything happened. *)
Theorem toggleTask_twice_restores_the_list
  (rt : Runtime) (s : State) (i : jsstring) (w : World) (es : list value) :
  tasks s = VArray es ->
  all_tasks es ->
  exists s1 w1 w2,
    toggleTask rt s i w = (Ok (VUndefined, s1), w1) /\
    toggleTask rt s1 i w1 = (Ok (VUndefined, setTasks (VArray es) s1), w2) /\
    only_audio w w2.
Proof.
  intros Hs Hes.
  destruct (toggleTask_mapM rt i w Hes) as (w1 & E1 & A1).
  assert (Hes1 : all_tasks (map (toggle_entry rt i) es)).
  { apply all_tasks_map; [apply toggle_entry_is_task|assumption]. }
  destruct (toggleTask_mapM rt i w1 Hes1) as (w2 & E2 & A2).
  exists (setTasks (VArray (map (toggle_entry rt i) es)) s), w1, w2.
  split; [|split].
  - unfold toggleTask, array_map, bind. rewrite Hs. unfold bind. now rewrite E1.
  - unfold toggleTask, array_map, bind. cbn [tasks setTasks]. unfold bind.
    rewrite E2. rewrite map_map.
    replace (map (fun x => toggle_entry rt i (toggle_entry rt i x)) es) with es;
      [reflexivity|].
    rewrite <- (map_id es) at 1. apply map_ext_in. intros e He.
    symmetry. apply toggle_entry_twice. unfold all_tasks in Hes.
    rewrite Forall_forall in Hes. auto.
  - eapply only_audio_trans; eassumption.
Qed.

Lemma toggleTask_twice_restores_the_list_witness :
  exists s1 w1 w2,
    toggleTask sample_runtime (state_with sample_tasks) (str "a") (world_with [])
    = (Ok (VUndefined, s1), w1) /\
    toggleTask sample_runtime s1 (str "a") w1
    = (Ok (VUndefined, setTasks (VArray sample_tasks) s1), w2) /\
    only_audio (world_with []) w2.
Proof.
  apply (@toggleTask_twice_restores_the_list sample_runtime (state_with sample_tasks)
           (str "a") (world_with []) sample_tasks).
  - reflexivity.
  - repeat constructor.
Defined.

(** ** Sound cues *)

Lemma toggleTask_each_audio (rt : Runtime) (i : jsstring) (e : value) (w : World) :
  is_task e = true ->
  exists w', toggleTask_each rt i e w = (Ok (toggle_entry rt i e), w') /\
             only_audio w w' /\
             audio w' = audio w ++ completion_cues i [e].
Proof.
  intros H. destruct (is_task_as_task _ H) as [t Ht].
  destruct (is_task_object _ H) as [ps ->].
  destruct (as_task_fields _ Ht) as (_ & _ & Hc & _).
  unfold completion_cues. cbn [flat_map]. rewrite app_nil_r.
  rewrite (as_task_is_completed _ Ht).
  unfold toggleTask_each, toggle_entry, has_id, bind, lift. cbn [field id_of].
  rewrite Hc. cbn [to_boolean].
  destruct (strict_equals_string _ i); cbn [andb].
  - destruct (completed t); cbn [negb]; eexists; (split; [reflexivity|]);
      (split; [repeat split|]); cbn; rewrite <- ?app_assoc, ?app_nil_r; reflexivity.
  - eexists. split; [reflexivity|]. split; [apply only_audio_refl|].
    now rewrite app_nil_r.
Qed.

(** X3.  [toggleTask] asks for the completion sound exactly for the tasks
    with the identifier that go from not completed to completed, in their
    order: un-completing a task, or an identifier no task has, requests no
    sound.  Nothing else in the world changes. *)
Theorem toggleTask_cues_only_on_completion
  (rt : Runtime) (s : State) (i : jsstring) (w : World) (es : list value) :
  tasks s = VArray es ->
  all_tasks es ->
  exists s' w',
    toggleTask rt s i w = (Ok (VUndefined, s'), w') /\
    only_audio w w' /\
    audio w' = audio w ++ completion_cues i es /\
    ((forall e, In e es -> has_id i e = true -> is_completed e = true) ->
     audio w' = audio w).
Proof.
  intros Hs Hes.
  assert (Hrun : exists w', mapM (toggleTask_each rt i) es w
                            = (Ok (map (toggle_entry rt i) es), w') /\
                            only_audio w w' /\
                            audio w' = audio w ++ completion_cues i es).
  { clear Hs. revert w. induction Hes as [|e es He Hes IH]; intros w.
    - exists w. cbn. rewrite app_nil_r. split; [reflexivity|].
      split; [apply only_audio_refl|reflexivity].
    - destruct (toggleTask_each_audio rt i e w He) as (w1 & E1 & A1 & C1).
      destruct (IH w1) as (w2 & E2 & A2 & C2).
      exists w2. cbn [mapM map]. unfold bind. rewrite E1, E2.
      split; [reflexivity|]. split; [eapply only_audio_trans; eassumption|].
      rewrite C2, C1. unfold completion_cues. cbn [flat_map].
      now rewrite app_nil_r, app_assoc. }
  destruct Hrun as (w' & E & A & C).
  exists (setTasks (VArray (map (toggle_entry rt i) es)) s), w'.
  split; [|split; [exact A|split; [exact C|]]].
  - unfold toggleTask, array_map, bind. rewrite Hs. unfold bind. now rewrite E.
  - intros Hdone. rewrite C.
    replace (completion_cues i es) with (@nil audio_op); [now rewrite app_nil_r|].
    clear - Hdone. unfold completion_cues.
    induction es as [|e es IH]; [reflexivity|]. cbn [flat_map].
    rewrite <- IH by (intros x Hx; apply Hdone; now right).
    destruct (has_id i e) eqn:Hid; [|reflexivity].
    now rewrite (Hdone e (or_introl eq_refl) Hid).
Qed.

Lemma toggleTask_cues_only_on_completion_witness :
  exists s' w',
    toggleTask sample_runtime (state_with sample_tasks) (str "b") (world_with [])
    = (Ok (VUndefined, s'), w') /\
    only_audio (world_with []) w' /\
    audio w' = audio (world_with []) ++ completion_cues (str "b") sample_tasks /\
    audio w' = audio (world_with []).
Proof.
  destruct (@toggleTask_cues_only_on_completion sample_runtime (state_with sample_tasks)
              (str "b") (world_with []) sample_tasks eq_refl)
    as (s' & w' & E & A & C & Hnone).
  - repeat constructor.
  - exists s', w'. split; [exact E|]. split; [exact A|]. split; [exact C|].
    apply Hnone. intros e [<-|[<-|[]]] H; [discriminate H|reflexivity].
Defined.

(** ** Deleting an identifier that no task has *)

(** X4.  When no task of the list has the identifier, [deleteTask(id)]
    still requests the delete sound and still calls [setTasks], with a list
    of the same entries: the save effect runs although nothing was removed. *)
Theorem deleteTask_of_missing_id
  (s : State) (i : jsstring) (w : World) (es : list value) :
  tasks s = VArray es ->
  all_tasks es ->
  (forall e, In e es -> has_id i e = false) ->
  exists w',
    deleteTask s i w = (Ok (VUndefined, setTasks (VArray es) s), w') /\
    only_audio w w' /\
    audio w' = audio w ++ [InitializeAudio; PlayDeleteSound] /\
    tasks_rev (setTasks (VArray es) s) <> tasks_rev s.
Proof.
  intros Hs Hes Hno.
  assert (Hkeep : filter (fun e => negb (has_id i e)) es = es).
  { clear - Hno. induction es as [|e es IH]; [reflexivity|]. simpl.
    rewrite (Hno e (or_introl eq_refl)). simpl.
    now rewrite IH by (intros x Hx; apply Hno; now right). }
  eexists. split; [|split; [|split]].
  - unfold deleteTask, bind, initializeAudio, playDeleteSound, request_audio,
      array_filter. rewrite Hs. unfold bind.
    rewrite (filterM_pure (deleteTask_keep i) (fun e => negb (has_id i e))).
    + rewrite Hkeep. reflexivity.
    + intros e He w0. apply deleteTask_keep_run.
      unfold all_tasks in Hes. rewrite Forall_forall in Hes. auto.
  - repeat split.
  - cbn. now rewrite <- app_assoc.
  - cbn. lia.
Qed.

Lemma deleteTask_of_missing_id_witness :
  exists w',
    deleteTask (state_with sample_tasks) (str "zz") (world_with [])
    = (Ok (VUndefined, setTasks (VArray sample_tasks) (state_with sample_tasks)), w') /\
    only_audio (world_with []) w' /\
    audio w' = audio (world_with []) ++ [InitializeAudio; PlayDeleteSound] /\
    tasks_rev (setTasks (VArray sample_tasks) (state_with sample_tasks))
    <> tasks_rev (state_with sample_tasks).
Proof.
  apply (@deleteTask_of_missing_id (state_with sample_tasks) (str "zz")
           (world_with []) sample_tasks).
  - reflexivity.
  - repeat constructor.
  - intros e [<-|[<-|[]]]; reflexivity.
Defined.

(** * Further properties of the persistence *)

(** ** The availability test *)

Lemma item_get_absent (k : jsstring) (l : list (jsstring * jsstring)) :
  ~ In k (item_keys l) -> item_get k l = None.
Proof.
  induction l as [|[k' v] l IH]; simpl; [reflexivity|]. intros H.
  destruct (str_eqb k k') eqn:E.
  - apply str_eqb_eq in E. subst. exfalso. apply H. now left.
  - apply IH. intros Hin. apply H. now right.
Qed.

Lemma item_get_remove_same (k : jsstring) (l : list (jsstring * jsstring)) :
  NoDup (item_keys l) -> item_get k (item_remove k l) = None.
Proof.
  induction l as [|[k' v] l IH]; simpl; [reflexivity|]. intros H.
  inversion H as [|? ? Hk Hl]; subst.
  destruct (str_eqb k k') eqn:E.
  - apply str_eqb_eq in E. subst. now apply item_get_absent.
  - simpl. rewrite E. now apply IH.
Qed.

Lemma item_keys_set (k v x : jsstring) (l : list (jsstring * jsstring)) :
  In x (item_keys (item_set k v l)) -> x = k \/ In x (item_keys l).
Proof.
  induction l as [|[k' v'] l IH]; simpl.
  - intros [<-|[]]. now left.
  - destruct (str_eqb k k'); simpl; intros [<-|H]; auto.
    destruct (IH H); auto.
Qed.

Lemma NoDup_item_set (k v : jsstring) (l : list (jsstring * jsstring)) :
  NoDup (item_keys l) -> NoDup (item_keys (item_set k v l)).
Proof.
  induction l as [|[k' v'] l IH]; simpl; intros H.
  - repeat constructor. intros [].
  - inversion H as [|? ? Hk Hl]; subst.
    destruct (str_eqb k k') eqn:E; simpl; [now constructor|].
    constructor; [|auto]. intros Hin.
    apply item_keys_set in Hin as [->|Hin]; [|contradiction].
    now rewrite str_eqb_refl in E.
Qed.

(** X5.  [isLocalStorageAvailable] never throws.  It answers [true] exactly
    when the storage area is not blocked and its quota admits the test item;
    it then leaves every item except "__test__" as it was and leaves no
    item under "__test__", also when the page had stored one there.  When
    it answers [false] the storage area is untouched and one error is
    logged. *)
Theorem isLocalStorageAvailable_probes_and_cleans (rt : Runtime) (w : World) :
  exists w',
    isLocalStorageAvailable rt w = (Ok (storage_available rt w), w') /\
    blocked (storage w') = blocked (storage w) /\
    (forall k, k <> k_test ->
               item_get k (items (storage w')) = item_get k (items (storage w))) /\
    (storage_available rt w = true ->
     NoDup (item_keys (items (storage w))) ->
     item_get k_test (items (storage w')) = None /\ console w' = console w) /\
    (storage_available rt w = false ->
     storage w' = storage w /\
     console w' = console w ++ [(Error, "localStorage is not available:"%string)]).
Proof.
  destruct (storage_available rt w) eqn:Ha.
  - exists (after_test w). split; [now apply isLocalStorageAvailable_true|].
    split; [reflexivity|]. split; [|split; [|discriminate]].
    + intros k Hk. unfold after_test. simpl.
      now rewrite item_get_remove_other, item_get_set_other.
    + intros _ Hnd. split; [|reflexivity]. unfold after_test. simpl.
      apply item_get_remove_same. now apply NoDup_item_set.
  - unfold storage_available in Ha.
    unfold isLocalStorageAvailable, try_catch, bind, setItem, removeItem.
    destruct (blocked (storage w)) eqn:Hb; simpl in Ha.
    + eexists. split; [reflexivity|]. cbn. rewrite Hb.
      split; [reflexivity|split; [reflexivity|split; [discriminate|auto]]].
    + rewrite Ha. eexists. split; [reflexivity|]. cbn. rewrite Hb.
      split; [reflexivity|split; [reflexivity|split; [discriminate|auto]]].
Qed.

(** A page that had stored something under "__test__" has lost it after the
    test. *)
Lemma isLocalStorageAvailable_probes_and_cleans_witness :
  exists w',
    isLocalStorageAvailable sample_runtime
      (world_with [(k_test, str "mine"); (k_todos, tasks_text [task_A])])
    = (Ok true, w') /\
    item_get k_test (items (storage w')) = None /\
    item_get k_todos (items (storage w')) = Some (tasks_text [task_A]).
Proof.
  destruct (isLocalStorageAvailable_probes_and_cleans sample_runtime
              (world_with [(k_test, str "mine"); (k_todos, tasks_text [task_A])]))
    as (w' & E & _ & Hother & Hclean & _).
  exists w'. split; [exact E|]. split.
  - apply Hclean; [reflexivity|]. repeat constructor; simpl; intuition discriminate.
  - rewrite Hother by discriminate. reflexivity.
Defined.

(** ** A write that fails *)

(** X6.  The save effect of a list that is not empty never throws.  When
    the storage area is not usable it changes nothing in it; when the area
    is usable but the quota refuses the new text, the item "todos" keeps
    its old value and the failure is logged as an error after the log line
    of the attempt. *)
Theorem saveEffect_catches_a_failed_write
  (rt : Runtime) (w : World) (e : value) (es : list value) :
  exists w',
    saveEffect rt (VArray (e :: es)) w = (Ok tt, w') /\
    (storage_available rt w = false -> storage w' = storage w) /\
    (storage_available rt w = true ->
     quota_allows rt
       (item_set k_todos (to_item (JSON.stringify rt (VArray (e :: es))))
          (items (storage (after_test w)))) = false ->
     item_get k_todos (items (storage w')) = item_get k_todos (items (storage w)) /\
     console w' = console w ++ [(Log, "Saving tasks to localStorage:"%string);
                                (Error, "Error saving tasks to localStorage:"%string)]).
Proof.
  unfold saveEffect, bind.
  destruct (storage_available rt w) eqn:Ha.
  - pose proof Ha as Ha'. storage_usable Ha Hb.
    cbn [negb length_is_zero lift List.length Nat.eqb].
    unfold try_catch, bind, ret, console_log, setItem, getItem, console_error.
    cbn [storage blocked items after_test with_items]. rewrite Hb.
    destruct (quota_allows rt _) eqn:Hq.
    + cbn [storage blocked items with_items after_test]. rewrite ?Hb.
      eexists. split; [reflexivity|]. split; [discriminate|].
      intros _ Hq'. unfold after_test in Hq'. cbn in Hq'. congruence.
    + eexists. split; [reflexivity|]. split; [discriminate|].
      intros _ _. cbn [storage items console]. split.
      * now rewrite item_get_remove_other, item_get_set_other by discriminate.
      * now rewrite <- app_assoc.
  - destruct (isLocalStorageAvailable_false _ _ Ha) as (w1 & E & Hw1).
    rewrite E. cbn [negb]. exists w1. split; [reflexivity|].
    split; [auto|discriminate].
Qed.

(** A runtime whose quota admits items of at most ten code units. *)
Lemma saveEffect_catches_a_failed_write_witness :
  let tight := {| uuid_nth := uuid_nth sample_runtime;
                  number_to_json := number_to_json sample_runtime;
                  number_truthy := number_truthy sample_runtime;
                  greater_than_zero := greater_than_zero sample_runtime;
                  quota_allows :=
                    forallb (fun kv => Nat.leb (List.length (snd kv)) 10) |} in
  exists w',
    saveEffect tight (VArray sample_tasks) (world_with [(str "other", str "x")])
    = (Ok tt, w') /\
    item_get k_todos (items (storage w')) = None /\
    console w' = [(Log, "Saving tasks to localStorage:"%string);
                  (Error, "Error saving tasks to localStorage:"%string)].
Proof.
  intros tight.
  destruct (saveEffect_catches_a_failed_write tight
              (world_with [(str "other", str "x")])
              (task_object task_A) [task_json task_B]) as (w' & E & _ & Hfail).
  exists w'. split; [exact E|]. apply Hfail; reflexivity.
Defined.

(** X7 is [saveEffect_stores_serialization]; here on the sample list. *)
Lemma saveEffect_stores_serialization_witness :
  exists w',
    saveEffect sample_runtime (VArray sample_tasks) (world_with []) = (Ok tt, w') /\
    item_get k_todos (items (storage w'))
    = Some (to_item (JSON.stringify sample_runtime (VArray sample_tasks))).
Proof.
  apply (@saveEffect_stores_serialization sample_runtime (world_with [])
           (task_object task_A) [task_json task_B]); reflexivity.
Defined.

(** * The life cycle on a storage area the component has written *)

Lemma mapM_pure {A B} (f : A -> M B) (g : A -> B) (l : list A) :
  (forall x, In x l -> forall w, f x w = (Ok (g x), w)) ->
  forall w, mapM f l w = (Ok (map g l), w).
Proof.
  induction l as [|x l IH]; intros H w; simpl; [reflexivity|].
  unfold bind. rewrite (H x (or_introl eq_refl)).
  rewrite IH by (intros y Hy; apply H; now right). reflexivity.
Qed.

(** Rendering a list of tasks reads fields of objects only: it succeeds and
    changes nothing. *)
Lemma render_tasks (rt : Runtime) (s : State) (w : World) (es : list value) :
  tasks s = VArray es -> all_tasks es -> render rt s w = (Ok tt, w).
Proof.
  intros Hs Hes.
  assert (Hall : forall e, In e es -> is_task e = true).
  { unfold all_tasks in Hes. now rewrite Forall_forall in Hes. }
  unfold render, filteredTasks, array_filter, bind. rewrite Hs. unfold bind.
  rewrite (filterM_pure (filteredTasks_keep rt (activeTab s))
             (fun e => if str_eqb (activeTab s) tab_active then negb (is_completed e)
                       else if str_eqb (activeTab s) tab_completed then is_completed e
                       else true))
    by (intros e He w0; apply filteredTasks_keep_run; auto).
  unfold ret at 1.
  erewrite (@mapM_pure _ _ _ (fun e => match field e k_priority with
                                       | Ok v => v | Throw _ => VUndefined end)).
  - reflexivity.
  - intros e He w0. apply filter_In in He as [He _].
    destruct (is_task_object _ (Hall e He)) as [ps ->]. reflexivity.
Qed.

Lemma stored_forms_have_tasks (es : list value) :
  Forall in_stored_form es -> exists ts, Forall2 stored_form es ts.
Proof.
  intros H. induction H as [|e es (t & He) Hes (ts & IH)].
  - exists []. constructor.
  - exists (t :: ts). now constructor.
Qed.

Lemma tasks_have_stored_forms (es : list value) (ts : list Task) :
  Forall2 stored_form es ts -> Forall in_stored_form es.
Proof.
  intros H. induction H; constructor; [eexists; eassumption|assumption].
Qed.

Lemma Forall2_stored_form_nil (es : list value) (ts : list Task) :
  Forall2 stored_form es ts -> (es = [] <-> ts = []).
Proof. intros H. destruct H; split; (reflexivity || discriminate). Qed.

Lemma length_gt_zero_tasks (rt : Runtime) (ts : list Task) :
  length_gt_zero rt (VArray (map task_json ts))
  = Ok (match ts with [] => false | _ :: _ => true end).
Proof. destruct ts; reflexivity. Qed.

Lemma tasks_text_not_empty_list (t0 : Task) (ts0 : list Task) :
  tasks_text (t0 :: ts0) <> tasks_text [].
Proof.
  unfold tasks_text. simpl. destruct ts0; discriminate.
Qed.

(** What the save effect does to the item "todos" for a list of tasks, on a
    storage area the component has written. *)
Lemma saveEffect_on_well_stored
  (rt : Runtime) (w : World) (es : list value) (ts : list Task) :
  Forall2 stored_form es ts ->
  well_stored w ->
  exists w',
    saveEffect rt (VArray es) w = (Ok tt, w') /\
    blocked (storage w') = blocked (storage w) /\
    (item_get k_todos (items (storage w')) = item_get k_todos (items (storage w))
     \/ item_get k_todos (items (storage w')) = Some (tasks_text ts)) /\
    (unlimited rt -> blocked (storage w) = false ->
     es <> [] \/ item_get k_todos (items (storage w)) = None
     \/ item_get k_todos (items (storage w)) = Some (tasks_text []) ->
     item_get k_todos (items (storage w')) = Some (tasks_text ts)) /\
    (es = [] -> forall t0 ts0,
        item_get k_todos (items (storage w)) = Some (tasks_text (t0 :: ts0)) ->
        item_get k_todos (items (storage w')) = Some (tasks_text (t0 :: ts0))).
Proof.
  intros Hf Hw. unfold saveEffect, bind.
  destruct (storage_available rt w) eqn:Ha.
  - pose proof Ha as Ha'. storage_usable Ha Hb.
    cbn [negb]. rewrite (stringify_tasks rt Hf). cbn [to_item].
    assert (Hwrite : forall w0,
               blocked (storage w0) = false ->
               item_get k_todos (items (storage w0)) = item_get k_todos (items (storage w)) ->
               exists w',
                 try_catch
                   (console_log "Saving tasks to localStorage:" ;;
                    setItem rt k_todos (tasks_text ts) ;;
                    savedTasks <- getItem k_todos ;;
                    console_log "Verified saved tasks:")
                   (fun _ => console_error "Error saving tasks to localStorage:") w0
                 = (Ok tt, w') /\
                 blocked (storage w') = false /\
                 (item_get k_todos (items (storage w'))
                  = item_get k_todos (items (storage w))
                  \/ item_get k_todos (items (storage w')) = Some (tasks_text ts)) /\
                 (unlimited rt ->
                  item_get k_todos (items (storage w')) = Some (tasks_text ts))).
    { intros w0 Hb0 Hsame.
      unfold try_catch, bind, ret, console_log, setItem, getItem, console_error.
      cbn [storage blocked items with_items]. rewrite Hb0.
      destruct (quota_allows rt _) eqn:Hq.
      - cbn [storage blocked items with_items]. rewrite Hb0.
        eexists. split; [reflexivity|]. cbn [storage blocked items with_items].
        rewrite item_get_set_same. auto.
      - eexists. split; [reflexivity|]. cbn [storage blocked items].
        split; [exact Hb0|]. split; [now left|].
        intros Hu. rewrite Hu in Hq. discriminate Hq. }
    destruct es as [|e es].
    + assert (Hts : ts = []) by (now apply (Forall2_stored_form_nil Hf)). subst ts.
      cbn [length_is_zero lift List.length Nat.eqb]. unfold getItem, lift.
      cbn [storage blocked items after_test with_items]. rewrite Hb.
      read_todos w.
      unfold well_stored in Hw.
      destruct (item_get k_todos (items (storage w))) as [text|] eqn:Hg.
      * destruct Hw as (ts0 & ->).
        change (tasks_text ts0) with (91%N :: join_comma (map task_text ts0) ++ [93%N]).
        cbv iota.
        change (91%N :: join_comma (map task_text ts0) ++ [93%N]) with (tasks_text ts0).
        rewrite parse_tasks_text, length_gt_zero_tasks.
        destruct ts0 as [|t0 ts0].
        -- destruct (Hwrite (after_test w) Hb) as (w' & E & Hb' & Hd & Hu).
           { rewrite todos_after_test. exact Hg. }
           exists w'. split; [exact E|]. split; [congruence|].
           split; [exact Hd|]. split; [auto|].
           intros _ t1 ts1 H. exfalso.
           apply (@tasks_text_not_empty_list t1 ts1). congruence.
        -- exists (after_test w). split; [reflexivity|]. split; [exact Hb|].
           rewrite todos_after_test. split; [now left|]. split.
           ++ intros _ _ [H|[H|H]]; [now contradiction H|discriminate H|].
              exfalso. apply (@tasks_text_not_empty_list t0 ts0). congruence.
           ++ intros _ t1 ts1 H. now rewrite Hg.
      * destruct (Hwrite (after_test w) Hb) as (w' & E & Hb' & Hd & Hu).
        { rewrite todos_after_test. exact Hg. }
        exists w'. split; [exact E|]. split; [congruence|].
        split; [exact Hd|]. split; [auto|].
        intros _ t1 ts1 H. discriminate H.
    + cbn [length_is_zero lift List.length Nat.eqb].
      destruct (Hwrite (after_test w) Hb (todos_after_test w))
        as (w' & E & Hb' & Hd & Hu).
      exists w'. split; [exact E|]. split; [congruence|].
      split; [exact Hd|]. split; [auto|]. intros [=].
  - destruct (isLocalStorageAvailable_false _ _ Ha) as (w1 & E & Hw1).
    rewrite E. cbn [negb]. exists w1. split; [reflexivity|].
    rewrite Hw1. split; [reflexivity|]. split; [now left|]. split.
    + intros Hu Hb _. unfold storage_available in Ha.
      rewrite Hb, Hu in Ha. discriminate Ha.
    + intros _ t0 ts0 H. exact H.
Qed.

Lemma well_stored_same_todos (w w' : World) :
  item_get k_todos (items (storage w')) = item_get k_todos (items (storage w)) ->
  well_stored w -> well_stored w'.
Proof. unfold well_stored. now intros ->. Qed.

Lemma well_stored_written (w' : World) (ts : list Task) :
  item_get k_todos (items (storage w')) = Some (tasks_text ts) -> well_stored w'.
Proof. unfold well_stored. intros ->. eauto. Qed.

Lemma stored_form_task_json (ts : list Task) :
  Forall2 stored_form (map task_json ts) ts.
Proof.
  induction ts as [|t ts IH]; simpl; constructor; [now right|exact IH].
Qed.

(** The load effect, case by case: the state it asks for and the storage
    area it leaves. *)
Lemma loadEffect_run (rt : Runtime) (s : State) (w : World) :
  exists w',
    loadEffect rt s w
    = (Ok (if storage_available rt w then
             match item_get k_todos (items (storage w)) with
             | Some (c :: t) =>
                 match JSON.parse (c :: t) with
                 | Ok v => setTasks v s
                 | Throw _ => s
                 end
             | Some [] | None => s
             end
           else s), w') /\
    storage w' = (if storage_available rt w then storage (after_test w) else storage w).
Proof.
  unfold loadEffect, bind.
  destruct (storage_available rt w) eqn:Ha.
  - storage_usable Ha Hb.
    cbn [negb]. unfold try_catch, bind, console_log, getItem, lift.
    cbn [storage blocked items after_test with_items]. rewrite Hb.
    read_todos w.
    destruct (item_get k_todos (items (storage w))) as [[|c t]|];
      try (eexists; split; reflexivity).
    destruct (JSON.parse (c :: t)); eexists; split; reflexivity.
  - destruct (isLocalStorageAvailable_false _ _ Ha) as (w1 & E & Hw1).
    rewrite E. cbn [negb]. eexists. split; [reflexivity|]. exact Hw1.
Qed.

(** On a list of tasks a handler changes nothing in the storage area and
    logs nothing. *)
Lemma handle_leaves_storage
  (rt : Runtime) (ev : event) (s : State) (w : World) (es : list value) :
  tasks s = VArray es ->
  all_tasks es ->
  forall s' w', handle rt ev s w = (Ok s', w') ->
                storage w' = storage w /\ console w' = console w.
Proof.
  intros Hs Hes s' w'.
  assert (Hadd : forall r w1, addTask rt s w = (Ok r, w1) ->
                              storage w1 = storage w /\ console w1 = console w).
  { unfold addTask, bind. destruct (str_eqb (trim (newTask s)) []).
    - intros r w1 [= _ <-]. auto.
    - rewrite Hs. cbn. intros r w1 [= _ <-]. auto. }
  destruct ev as [v|p|key| |tab|i|i p|i]; cbn [handle].
  - intros [= _ <-]. auto.
  - intros [= _ <-]. auto.
  - unfold handleKeyDown, bind. destruct (str_eqb key key_Enter).
    + unfold bind. destruct (addTask rt s w) as [o w1] eqn:E; destruct o as [r|e]; [|cbn; intros H; discriminate H].
      cbn. intros [= _ <-]. eapply Hadd. reflexivity.
    + cbn. intros [= _ <-]. auto.
  - unfold bind. destruct (addTask rt s w) as [o w1] eqn:E; destruct o as [r|e]; [|cbn; intros H; discriminate H].
    cbn. intros [= _ <-]. eapply Hadd. reflexivity.
  - intros [= _ <-]. auto.
  - destruct (toggleTask_mapM rt i w Hes) as (w1 & E & (A & B & _)).
    unfold bind, toggleTask, array_map, bind. rewrite Hs. unfold bind. rewrite E.
    cbn. intros [= _ <-]. auto.
  - unfold bind, updateTaskPriority, array_map, bind. rewrite Hs. unfold bind.
    rewrite updateTaskPriority_mapM by assumption. cbn. intros [= _ <-]. auto.
  - destruct (@deleteTask_run s i w es Hs Hes) as (w1 & E & (A & B & _)).
    unfold bind. rewrite E. cbn. intros [= _ <-]. auto.
Qed.

(** One interaction on a storage area the component has written. *)
Lemma dispatch_on_well_stored
  (rt : Runtime) (ev : event) (s : State) (w : World) (es : list value) :
  tasks s = VArray es ->
  Forall in_stored_form es ->
  well_stored w ->
  exists s' w' es' ts',
    dispatch rt ev s w = (Ok s', w') /\
    tasks s' = VArray es' /\
    Forall2 stored_form es' ts' /\
    well_stored w' /\
    blocked (storage w') = blocked (storage w) /\
    (exists w1, handle rt ev s w = (Ok s', w1)) /\
    (tasks_rev s' = tasks_rev s ->
     storage w' = storage w /\ console w' = console w) /\
    (tasks_rev s' <> tasks_rev s ->
     unlimited rt -> blocked (storage w) = false -> es' <> [] ->
     item_get k_todos (items (storage w')) = Some (tasks_text ts')) /\
    (tasks_rev s' <> tasks_rev s -> es' = [] ->
     forall t0 ts0,
       item_get k_todos (items (storage w)) = Some (tasks_text (t0 :: ts0)) ->
       item_get k_todos (items (storage w')) = Some (tasks_text (t0 :: ts0))).
Proof.
  intros Hs Hf Hw.
  destruct (@handle_keeps_stored_forms rt ev s w es Hs Hf)
    as (s1 & w1 & es1 & E & Hs1 & Hf1).
  destruct (@handle_leaves_storage rt ev s w es Hs (stored_forms_are_tasks Hf) s1 w1 E)
    as (Hst & Hco).
  destruct (stored_forms_have_tasks Hf1) as (ts1 & Hts1).
  assert (Hw1 : well_stored w1).
  { apply (@well_stored_same_todos w); [now rewrite Hst|exact Hw]. }
  unfold dispatch, commit, bind. rewrite E.
  rewrite (@render_tasks rt s1 w1 es1 Hs1 (stored_forms_are_tasks Hf1)).
  destruct (Nat.eqb (tasks_rev s) (tasks_rev s1)) eqn:Hrev.
  - apply Nat.eqb_eq in Hrev.
    exists s1, w1, es1, ts1. split; [reflexivity|]. split; [exact Hs1|].
    split; [exact Hts1|]. split; [exact Hw1|]. split; [now rewrite Hst|].
    split; [eauto|]. split; [auto|]. split; intros Hne; now contradiction Hne.
  - apply Nat.eqb_neq in Hrev. rewrite Hs1.
    destruct (@saveEffect_on_well_stored rt w1 es1 ts1 Hts1 Hw1)
      as (w2 & E2 & Hb2 & Hd2 & Hu2 & Hk2).
    rewrite E2. exists s1, w2, es1, ts1. split; [reflexivity|]. split; [exact Hs1|].
    split; [exact Hts1|]. split.
    { destruct Hd2 as [Hd2|Hd2].
      - now apply (@well_stored_same_todos w1).
      - now apply (@well_stored_written w2 ts1). }
    split; [now rewrite Hb2, Hst|]. split; [eauto|].
    split; [intros Heq; now contradiction Hrev|]. split.
    + intros _ Hu Hb Hne. apply Hu2; [exact Hu|now rewrite Hst|now left].
    + intros _ Hnil t0 ts0 Hg. apply Hk2; [exact Hnil|now rewrite Hst].
Qed.

Lemma unlimited_available (rt : Runtime) (w : World) :
  unlimited rt -> blocked (storage w) = false -> storage_available rt w = true.
Proof.
  intros Hu Hb. unfold storage_available. now rewrite Hb, Hu.
Qed.

(** Mounting on a storage area the component has written. *)
Lemma mount_on_well_stored (rt : Runtime) (w : World) :
  well_stored w ->
  exists s w' ts,
    mount rt w = (Ok s, w') /\
    tasks s = VArray (map task_json ts) /\
    well_stored w' /\
    blocked (storage w') = blocked (storage w) /\
    (forall ts0, storage_available rt w = true ->
                 item_get k_todos (items (storage w)) = Some (tasks_text ts0) ->
                 tasks s = VArray (map task_json ts0)) /\
    (storage_available rt w = false \/ item_get k_todos (items (storage w)) = None ->
     s = initial_state /\ ts = []) /\
    (unlimited rt -> blocked (storage w) = false ->
     item_get k_todos (items (storage w')) = Some (tasks_text ts)).
Proof.
  intros Hw. unfold mount, bind.
  rewrite (@render_tasks rt initial_state w [] eq_refl (Forall_nil _)).
  destruct (loadEffect_run rt initial_state w) as (w1 & E1 & Hst1).
  rewrite E1. clear E1.
  assert (Hg1 : item_get k_todos (items (storage w1)) = item_get k_todos (items (storage w))).
  { rewrite Hst1. destruct (storage_available rt w); [apply todos_after_test|reflexivity]. }
  assert (Hb1 : blocked (storage w1) = blocked (storage w)).
  { rewrite Hst1. destruct (storage_available rt w); reflexivity. }
  assert (Hw1 : well_stored w1) by (now apply (@well_stored_same_todos w)).
  destruct (@saveEffect_on_well_stored rt w1 [] [] (Forall2_nil _) Hw1)
    as (w2 & E2 & Hb2 & Hd2 & Hu2 & Hk2).
  cbn [tasks initial_state]. rewrite E2. clear E2.
  assert (Hw2 : well_stored w2).
  { destruct Hd2 as [Hd2|Hd2].
    - now apply (@well_stored_same_todos w1).
    - now apply (@well_stored_written w2 []). }
  assert (Hquiet : exists w3, commit rt initial_state initial_state w2 = (Ok tt, w3) /\ w3 = w2).
  { unfold commit, bind.
    rewrite (@render_tasks rt initial_state w2 [] eq_refl (Forall_nil _)).
    eexists. split; reflexivity. }
  assert (Hinit : item_get k_todos (items (storage w)) = None \/
                  storage_available rt w = false ->
                  exists w3, commit rt initial_state initial_state w2 = (Ok tt, w3) /\
                             well_stored w3 /\
                             blocked (storage w3) = blocked (storage w) /\
                             (unlimited rt -> blocked (storage w) = false ->
                              item_get k_todos (items (storage w3)) = Some (tasks_text []))).
  { intros Hcase. destruct Hquiet as (w3 & E3 & ->). exists w2.
    split; [exact E3|]. split; [exact Hw2|]. split; [now rewrite Hb2|].
    intros Hu Hb. apply Hu2; [exact Hu|now rewrite Hb1|].
    right. left. rewrite Hg1. destruct Hcase as [Hn|Ha]; [exact Hn|].
    now rewrite (unlimited_available w Hu Hb) in Ha. }
  clear Hquiet.
  destruct (storage_available rt w) eqn:Ha.
  - pose proof Hw as Hw0. unfold well_stored in Hw0.
    destruct (item_get k_todos (items (storage w))) as [text|] eqn:Hg.
    + destruct Hw0 as (ts & ->).
      change (tasks_text ts) with (91%N :: join_comma (map task_text ts) ++ [93%N]).
      cbv iota.
      change (91%N :: join_comma (map task_text ts) ++ [93%N]) with (tasks_text ts).
      rewrite parse_tasks_text.
      unfold commit, bind. cbn [tasks setTasks tasks_rev initial_state Nat.eqb].
      rewrite (@render_tasks rt (setTasks (VArray (map task_json ts)) initial_state)
                 w2 (map task_json ts) eq_refl).
      2:{ apply stored_forms_are_tasks. apply (tasks_have_stored_forms (stored_form_task_json ts)). }
      destruct (@saveEffect_on_well_stored rt w2 _ ts (stored_form_task_json ts) Hw2)
        as (w3 & E3 & Hb3 & Hd3 & Hu3 & Hk3).
      rewrite E3. exists (setTasks (VArray (map task_json ts)) initial_state), w3, ts.
      split; [reflexivity|]. split; [reflexivity|]. split.
      { destruct Hd3 as [Hd3|Hd3].
        - now apply (@well_stored_same_todos w2).
        - now apply (@well_stored_written w3 ts). }
      split; [now rewrite Hb3, Hb2|]. split.
      { intros ts0 _ H0. cbn [tasks setTasks].
        pose proof (parse_tasks_text ts) as P. pose proof (parse_tasks_text ts0) as P0.
        congruence. }
      split; [intros [H|H]; discriminate H|].
      intros Hu Hb.
      destruct ts as [|t ts].
      * apply Hu3; [exact Hu|now rewrite Hb2, Hb1|].
        right. right. apply Hu2; [exact Hu|now rewrite Hb1|].
        right. right. now rewrite Hg1.
      * apply Hu3; [exact Hu|now rewrite Hb2, Hb1|]. left. discriminate.
    + destruct (Hinit (or_introl eq_refl)) as (w3 & E3 & Hw3 & Hb3 & Hu3).
      rewrite E3. exists initial_state, w3, []. repeat split; auto.
      intros ts0 _ H0. discriminate H0.
  - destruct (Hinit (or_intror eq_refl)) as (w3 & E3 & Hw3 & Hb3 & Hu3).
    rewrite E3. exists initial_state, w3, []. repeat split; auto.
    intros ts0 H0. discriminate H0.
Qed.

(** A whole session on a storage area the component has written. *)
Lemma dispatch_all_on_well_stored (rt : Runtime) (evs : list event) :
  forall (s : State) (w : World) (es : list value),
    tasks s = VArray es ->
    Forall in_stored_form es ->
    well_stored w ->
    exists s' w' es',
      dispatch_all rt evs s w = (Ok s', w') /\
      tasks s' = VArray es' /\
      Forall in_stored_form es' /\
      well_stored w' /\
      blocked (storage w') = blocked (storage w).
Proof.
  induction evs as [|ev evs IH]; intros s w es Hs Hf Hw.
  - exists s, w, es. repeat split; assumption.
  - destruct (@dispatch_on_well_stored rt ev s w es Hs Hf Hw)
      as (s1 & w1 & es1 & ts1 & E1 & Hs1 & Hf1 & Hw1 & Hb1 & _).
    destruct (IH s1 w1 es1 Hs1 (tasks_have_stored_forms Hf1) Hw1)
      as (s2 & w2 & es2 & E2 & Hs2 & Hf2 & Hw2 & Hb2).
    exists s2, w2, es2. cbn [dispatch_all]. unfold bind at 1. rewrite E1.
    split; [exact E2|]. split; [exact Hs2|]. split; [exact Hf2|].
    split; [exact Hw2|]. now rewrite Hb2.
Qed.

Lemma stored_forms_as_tasks (es : list value) (ts : list Task) :
  Forall2 stored_form es ts -> map as_task es = map Some ts.
Proof.
  intros H. induction H as [|e t es ts He _ IH]; [reflexivity|].
  cbn [map]. now rewrite (as_task_stored_form He), IH.
Qed.

(** X8.  Whatever the runtime and whatever the user does, a session on a
    storage area whose "todos" item is absent or was written by the
    component never throws: mounting and then any sequence of interactions
    returns, with a list of tasks in the shapes the component builds and
    reads, and leaves the "todos" item absent or written by the component. *)
Theorem session_on_written_storage_never_throws
  (rt : Runtime) (evs : list event) (w : World) :
  well_stored w ->
  exists s w' es,
    (s0 <- mount rt ;; dispatch_all rt evs s0) w = (Ok s, w') /\
    tasks s = VArray es /\
    Forall in_stored_form es /\
    well_stored w'.
Proof.
  intros Hw.
  destruct (@mount_on_well_stored rt w Hw)
    as (s0 & w0 & ts & E0 & Hs0 & Hw0 & _).
  destruct (@dispatch_all_on_well_stored rt evs s0 w0 (map task_json ts) Hs0
              (tasks_have_stored_forms (stored_form_task_json ts)) Hw0)
    as (s1 & w1 & es1 & E1 & Hs1 & Hf1 & Hw1 & _).
  exists s1, w1, es1. unfold bind. rewrite E0.
  repeat split; assumption.
Qed.

Lemma session_on_written_storage_never_throws_witness :
  well_stored (world_with [(k_todos, tasks_text [task_A; task_B])]) /\
  exists s w' es,
    (s0 <- mount sample_runtime ;;
     dispatch_all sample_runtime
       [InputChange (str " C "); AddClick; ToggleClick (str "a");
        DeleteClick (str "b"); DeleteClick (str "zz")] s0)
      (world_with [(k_todos, tasks_text [task_A; task_B])]) = (Ok s, w') /\
    tasks s = VArray es /\
    Forall in_stored_form es /\
    well_stored w'.
Proof.
  assert (H : well_stored (world_with [(k_todos, tasks_text [task_A; task_B])])).
  { exists [task_A; task_B]. reflexivity. }
  split; [exact H|].
  apply (@session_on_written_storage_never_throws sample_runtime _ _ H).
Defined.

(** X9.  With a storage area that is usable and never full, an interaction
    that sets the list to a list that is not empty is persisted: mounting
    the component again installs a list with the same tasks. *)
Theorem tasks_survive_a_reload
  (rt : Runtime) (ev : event) (s s' : State) (w w' : World) (es es' : list value) :
  unlimited rt ->
  blocked (storage w) = false ->
  well_stored w ->
  tasks s = VArray es ->
  Forall in_stored_form es ->
  dispatch rt ev s w = (Ok s', w') ->
  tasks_rev s' <> tasks_rev s ->
  tasks s' = VArray es' ->
  es' <> [] ->
  exists s'' w'' es'',
    mount rt w' = (Ok s'', w'') /\
    tasks s'' = VArray es'' /\
    map as_task es'' = map as_task es'.
Proof.
  intros Hu Hb Hw Hs Hf E Hrev Hs' Hne.
  destruct (@dispatch_on_well_stored rt ev s w es Hs Hf Hw)
    as (s1 & w1 & es1 & ts1 & E1 & Hs1 & Hf1 & Hw1 & Hb1 & _ & _ & Hput & _).
  rewrite E in E1. injection E1 as <- <-.
  rewrite Hs' in Hs1. injection Hs1 as <-.
  specialize (Hput Hrev Hu Hb Hne).
  destruct (@mount_on_well_stored rt w' Hw1)
    as (s2 & w2 & ts2 & E2 & Hs2 & _ & _ & Hread & _).
  assert (Ha : storage_available rt w' = true).
  { apply unlimited_available; [exact Hu|now rewrite Hb1]. }
  exists s2, w2, (map task_json ts1). split; [exact E2|].
  split; [exact (Hread ts1 Ha Hput)|].
  rewrite (stored_forms_as_tasks Hf1).
  apply stored_forms_as_tasks, stored_form_task_json.
Qed.

Lemma tasks_survive_a_reload_witness :
  exists w' s'' w'' es'',
    snd (dispatch sample_runtime (ToggleClick (str "a")) (state_with sample_tasks)
           (world_with [])) = w' /\
    mount sample_runtime w' = (Ok s'', w'') /\
    tasks s'' = VArray es'' /\
    map as_task es'' = [Some (flipped task_A); Some task_B].
Proof.
  assert (Hf : Forall in_stored_form sample_tasks).
  { repeat constructor; [exists task_A; now left|exists task_B; now right]. }
  destruct (@tasks_survive_a_reload sample_runtime (ToggleClick (str "a"))
              (state_with sample_tasks)
              (setTasks (VArray [toggle_entry sample_runtime (str "a") (task_object task_A);
                                 task_json task_B])
                 (state_with sample_tasks))
              (world_with [])
              (snd (dispatch sample_runtime (ToggleClick (str "a"))
                      (state_with sample_tasks) (world_with [])))
              sample_tasks
              [toggle_entry sample_runtime (str "a") (task_object task_A);
               task_json task_B]
              (fun _ => eq_refl) eq_refl I eq_refl Hf)
    as (s'' & w'' & es'' & E & Hs & Hm).
  - vm_compute. reflexivity.
  - cbn. discriminate.
  - reflexivity.
  - discriminate.
  - eexists. exists s'', w'', es''. split; [reflexivity|]. split; [exact E|].
    split; [exact Hs|exact Hm].
Defined.

(** X10.  Deleting the last task is not persisted: when the "todos" item
    holds a list that is not empty and an interaction leaves the component
    with the empty list, the item stays as it was, and mounting the
    component again on a usable storage area brings the stored tasks back. *)
Theorem emptied_list_comes_back_on_reload
  (rt : Runtime) (ev : event) (s s' : State) (w w' : World) (es : list value)
  (t0 : Task) (ts0 : list Task) :
  tasks s = VArray es ->
  Forall in_stored_form es ->
  item_get k_todos (items (storage w)) = Some (tasks_text (t0 :: ts0)) ->
  dispatch rt ev s w = (Ok s', w') ->
  tasks s' = VArray [] ->
  item_get k_todos (items (storage w')) = Some (tasks_text (t0 :: ts0)) /\
  (storage_available rt w' = true ->
   exists s'' w'',
     mount rt w' = (Ok s'', w'') /\
     tasks s'' = VArray (map task_json (t0 :: ts0))).
Proof.
  intros Hs Hf Hg E Hs'.
  assert (Hw : well_stored w).
  { unfold well_stored. rewrite Hg. now exists (t0 :: ts0). }
  destruct (@dispatch_on_well_stored rt ev s w es Hs Hf Hw)
    as (s1 & w1 & es1 & ts1 & E1 & Hs1 & Hf1 & Hw1 & Hb1 & _ & Hsame & _ & Hkeep).
  rewrite E in E1. injection E1 as <- <-.
  rewrite Hs' in Hs1. injection Hs1 as <-.
  assert (Hg' : item_get k_todos (items (storage w')) = Some (tasks_text (t0 :: ts0))).
  { destruct (Nat.eq_dec (tasks_rev s') (tasks_rev s)) as [Heq|Hne].
    - destruct (Hsame Heq) as (-> & _). exact Hg.
    - exact (Hkeep Hne eq_refl t0 ts0 Hg). }
  split; [exact Hg'|]. intros Ha.
  destruct (@mount_on_well_stored rt w' Hw1)
    as (s2 & w2 & ts2 & E2 & _ & _ & _ & Hread & _).
  exists s2, w2. split; [exact E2|exact (Hread _ Ha Hg')].
Qed.

Lemma emptied_list_comes_back_on_reload_witness :
  let w := world_with [(k_todos, tasks_text [task_A])] in
  let w' := snd (dispatch sample_runtime (DeleteClick (str "a"))
                   (state_with [task_json task_A]) w) in
  item_get k_todos (items (storage w')) = Some (tasks_text [task_A]) /\
  exists s'' w'',
    mount sample_runtime w' = (Ok s'', w'') /\
    tasks s'' = VArray [task_json task_A].
Proof.
  intros w w'.
  assert (Hf : Forall in_stored_form [task_json task_A]).
  { repeat constructor. exists task_A. now right. }
  destruct (@emptied_list_comes_back_on_reload sample_runtime (DeleteClick (str "a"))
              (state_with [task_json task_A]) _ w _ [task_json task_A] task_A []
              eq_refl Hf eq_refl eq_refl eq_refl) as (Hg & Hm).
  split; [exact Hg|]. apply Hm. reflexivity.
Defined.

(** ** Mounting on a storage area that is blocked, empty or damaged *)

(** X11.  When the storage area is not usable (access is refused, or the
    quota refuses the test item), mounting returns the initial state, leaves
    the storage area as it is, and logs three errors: two by the load effect
    and one by the availability test of the save effect. *)
Theorem mount_on_unavailable_storage (rt : Runtime) (w : World) :
  storage_available rt w = false ->
  exists w',
    mount rt w = (Ok initial_state, w') /\
    storage w' = storage w /\
    console w'
    = console w ++ [(Error, "localStorage is not available:"%string);
                    (Error, "localStorage is not available, tasks will not persist"%string);
                    (Error, "localStorage is not available:"%string)] /\
    uuids_drawn w' = uuids_drawn w /\
    audio w' = audio w.
Proof.
  intros Ha.
  assert (Hprobe : forall w0, storage w0 = storage w ->
             isLocalStorageAvailable rt w0
             = (Ok false,
                {| storage := storage w0;
                   console := console w0 ++ [(Error, "localStorage is not available:"%string)];
                   uuids_drawn := uuids_drawn w0; audio := audio w0 |})).
  { intros w0 Hw0. unfold storage_available in Ha. rewrite <- Hw0 in Ha.
    unfold isLocalStorageAvailable, try_catch, bind, setItem, removeItem, console_error, ret.
    destruct (blocked (storage w0)); cbn in Ha |- *; [reflexivity|].
    rewrite Ha. reflexivity. }
  unfold mount, bind.
  rewrite (@render_tasks rt initial_state w [] eq_refl (Forall_nil _)).
  unfold loadEffect, bind. rewrite (Hprobe w eq_refl). cbn [negb].
  unfold console_error at 1. unfold ret at 1.
  unfold saveEffect, bind. rewrite Hprobe by reflexivity. cbn [negb].
  unfold ret at 1. unfold commit, bind.
  rewrite (@render_tasks rt initial_state _ [] eq_refl (Forall_nil _)).
  cbn [tasks_rev initial_state Nat.eqb]. unfold ret.
  eexists. split; [reflexivity|]. cbn [storage console uuids_drawn audio].
  rewrite <- !app_assoc. repeat split.
Qed.

Lemma mount_on_unavailable_storage_witness :
  let w := {| storage := {| blocked := true; items := [(k_todos, tasks_text [task_A])] |};
              console := []; uuids_drawn := 0; audio := [] |} in
  exists w',
    mount sample_runtime w = (Ok initial_state, w') /\
    storage w' = storage w /\
    console w'
    = [(Error, "localStorage is not available:"%string);
       (Error, "localStorage is not available, tasks will not persist"%string);
       (Error, "localStorage is not available:"%string)].
Proof.
  intros w.
  destruct (@mount_on_unavailable_storage sample_runtime w eq_refl)
    as (w' & E & Hs & Hc & _).
  exists w'. split; [exact E|]. split; [exact Hs|exact Hc].
Defined.

(** X12.  On a usable storage area that is never full and has no "todos"
    item, mounting returns the initial state and creates the item with the
    text of the empty list. *)
Theorem first_mount_writes_the_empty_list (rt : Runtime) (w : World) :
  unlimited rt ->
  blocked (storage w) = false ->
  item_get k_todos (items (storage w)) = None ->
  exists w',
    mount rt w = (Ok initial_state, w') /\
    item_get k_todos (items (storage w')) = Some (str "[]").
Proof.
  intros Hu Hb Hg.
  assert (Hw : well_stored w) by (unfold well_stored; now rewrite Hg).
  destruct (@mount_on_well_stored rt w Hw)
    as (s & w' & ts & E & _ & _ & _ & _ & Hinit & Hput).
  destruct (Hinit (or_intror Hg)) as (-> & ->).
  exists w'. split; [exact E|]. exact (Hput Hu Hb).
Qed.

Lemma first_mount_writes_the_empty_list_witness :
  exists w',
    mount sample_runtime (world_with [(str "other", str "x")]) = (Ok initial_state, w') /\
    item_get k_todos (items (storage w')) = Some (str "[]").
Proof.
  apply (@first_mount_writes_the_empty_list sample_runtime
           (world_with [(str "other", str "x")]) (fun _ => eq_refl) eq_refl eq_refl).
Defined.

Lemma render_null_entry (rt : Runtime) (s : State) (w : World) (es : list value) :
  tasks s = VArray es ->
  activeTab s = tab_all ->
  In VNull es ->
  render rt s w = (Throw TypeError, w).
Proof.
  intros Hs Ht Hin. unfold render, filteredTasks, array_filter, bind. rewrite Hs, Ht.
  unfold bind.
  rewrite (filterM_pure (filteredTasks_keep rt tab_all) (fun _ => true)).
  2:{ intros e _ w0. reflexivity. }
  rewrite filter_true. unfold ret at 1. cbv iota.
  match goal with |- context [mapM ?f es w] => set (reader := f) end.
  assert (Hone : forall e, reader e w = (Throw TypeError, w)
                           \/ exists v, reader e w = (Ok v, w)).
  { intros e. destruct e; subst reader; cbv beta; unfold bind, lift; cbn [field]; eauto. }
  assert (Hread : mapM reader es w = (Throw TypeError, w)).
  { clear Hs. induction es as [|e es IH]; [contradiction|].
    cbn [mapM]. unfold bind at 1.
    destruct Hin as [->|Hin]; [reflexivity|].
    destruct (Hone e) as [E|(v & E)]; rewrite E; [reflexivity|].
    unfold bind. now rewrite (IH Hin). }
  now rewrite Hread.
Qed.

(** X13.  The load effect installs what [JSON.parse] returns without a
    look at the entries: when the storage area is usable (the availability
    test succeeds) and the text stored under "todos" is that of an array
    with a [null] entry, mounting throws a [TypeError] in the render that
    follows the load effect. *)
Theorem mount_throws_on_null_entry
  (rt : Runtime) (w : World) (text : jsstring) (es : list value) :
  storage_available rt w = true ->
  item_get k_todos (items (storage w)) = Some text ->
  JSON.parse text = Ok (VArray es) ->
  In VNull es ->
  exists w', mount rt w = (Throw TypeError, w').
Proof.
  intros Ha Hg Hp Hin. unfold mount, bind.
  rewrite (@render_tasks rt initial_state w [] eq_refl (Forall_nil _)).
  destruct (loadEffect_run rt initial_state w) as (w1 & E1 & Hst1).
  rewrite E1, Ha, Hg. rewrite Ha in Hst1.
  destruct text as [|c t]; [discriminate Hp|]. rewrite Hp.
  assert (Hg1 : item_get k_todos (items (storage w1)) = Some (c :: t)).
  { rewrite Hst1, todos_after_test. exact Hg. }
  assert (Hsave : exists w2, saveEffect rt (tasks initial_state) w1 = (Ok tt, w2)).
  { unfold saveEffect, bind.
    destruct (storage_available rt w1) eqn:Ha1.
    - pose proof Ha1 as Ha1'. storage_usable Ha1 Hb1.
      cbn [negb tasks initial_state length_is_zero lift List.length Nat.eqb].
      unfold getItem. cbn [storage blocked items after_test with_items]. rewrite Hb1.
      read_todos w1. rewrite Hg1, Hp. cbn [lift length_gt_zero].
      destruct es as [|e es]; [contradiction|]. cbn. eexists. reflexivity.
    - destruct (isLocalStorageAvailable_false _ _ Ha1) as (w2 & E & _).
      rewrite E. cbn [negb]. eexists. reflexivity. }
  destruct Hsave as (w2 & ->).
  unfold commit, bind.
  rewrite (@render_null_entry rt (setTasks (VArray es) initial_state) w2 es
             eq_refl eq_refl Hin).
  eexists. reflexivity.
Qed.

Lemma mount_throws_on_null_entry_witness :
  exists w',
    mount sample_runtime (world_with [(k_todos, str "[null]")]) = (Throw TypeError, w').
Proof.
  apply (@mount_throws_on_null_entry sample_runtime
           (world_with [(k_todos, str "[null]")]) (str "[null]") [VNull]).
  - reflexivity.
  - reflexivity.
  - vm_compute. reflexivity.
  - now left.
Defined.

(** ** Interactions that leave the list alone *)

(** X14.  Typing, picking the priority of the next task, changing the tab,
    pressing a key other than Enter, and adding while the input is blank
    call no [setTasks]: the list is the same, the save effect does not run,
    and nothing outside the component changes. *)
Theorem quiet_interaction_changes_nothing_outside
  (rt : Runtime) (ev : event) (s : State) (w : World) (es : list value) :
  quiet s ev = true ->
  tasks s = VArray es ->
  all_tasks es ->
  exists s',
    dispatch rt ev s w = (Ok s', w) /\
    tasks s' = tasks s /\
    tasks_rev s' = tasks_rev s.
Proof.
  intros Hq Hs Hes.
  assert (Hstay : forall s', tasks s' = tasks s -> tasks_rev s' = tasks_rev s ->
             commit rt s s' w = (Ok tt, w)).
  { intros s' Ht Hr. unfold commit, bind.
    rewrite (@render_tasks rt s' w es (eq_trans Ht Hs) Hes).
    rewrite Hr, Nat.eqb_refl. reflexivity. }
  assert (Hblank : str_eqb (trim (newTask s)) [] = true ->
             addTask rt s w = (Ok (VUndefined, s), w)).
  { intros H. unfold addTask. now rewrite H. }
  unfold dispatch, bind.
  destruct ev as [v|p|key| |tab|i|i p|i]; cbn [handle quiet] in *; try discriminate Hq.
  - exists (setNewTask v s). unfold ret. cbv beta iota.
    rewrite (Hstay (setNewTask v s) eq_refl eq_refl). auto.
  - exists (setSelectedPriority p s). unfold ret. cbv beta iota.
    rewrite (Hstay (setSelectedPriority p s) eq_refl eq_refl). auto.
  - exists s. unfold handleKeyDown, bind.
    destruct (str_eqb key key_Enter); cbn [negb orb] in Hq.
    + cbv beta iota. rewrite (Hblank Hq). unfold ret. cbv beta iota. cbn [snd].
      rewrite (Hstay s eq_refl eq_refl). auto.
    + unfold ret. cbv beta iota. cbn [snd]. rewrite (Hstay s eq_refl eq_refl). auto.
  - exists s. unfold bind. rewrite (Hblank Hq). unfold ret. cbv beta iota. cbn [snd].
    rewrite (Hstay s eq_refl eq_refl). auto.
  - exists (setActiveTab tab s). unfold ret. cbv beta iota.
    rewrite (Hstay (setActiveTab tab s) eq_refl eq_refl). auto.
Qed.

Lemma quiet_interaction_changes_nothing_outside_witness :
  exists s',
    dispatch sample_runtime (KeyDown (str "a")) (state_with sample_tasks) (world_with [])
    = (Ok s', world_with []) /\
    tasks s' = VArray sample_tasks /\
    tasks_rev s' = 0%nat.
Proof.
  apply (@quiet_interaction_changes_nothing_outside sample_runtime (KeyDown (str "a"))
           (state_with sample_tasks) (world_with []) sample_tasks).
  - reflexivity.
  - reflexivity.
  - repeat constructor.
Defined.

(** X15.  [addTask] clears the input, so the interaction that adds a task
    (the plus button or the Enter key) adds nothing when it is repeated
    before the user types again: two in a row do what one does. *)
Theorem repeated_add_adds_once
  (rt : Runtime) (ev1 ev2 : event) (s : State) (w : World) :
  is_add ev1 = true ->
  is_add ev2 = true ->
  (s1 <- handle rt ev1 s ;; handle rt ev2 s1) w = handle rt AddClick s w.
Proof.
  assert (Hadd : forall ev, is_add ev = true ->
             forall s0 w0, handle rt ev s0 w0 = handle rt AddClick s0 w0).
  { intros ev Hev s0 w0.
    destruct ev as [v|p|key| |tab|i|i p|i]; try discriminate Hev; [|reflexivity].
    cbn [is_add] in Hev. cbn [handle]. unfold handleKeyDown. rewrite Hev.
    unfold bind. destruct (addTask rt s0 w0) as [[r|e] w1]; reflexivity. }
  intros H1 H2. unfold bind at 1. rewrite (Hadd ev1 H1).
  assert (Hnext : forall s1 w1, handle rt AddClick s w = (Ok s1, w1) ->
             handle rt ev2 s1 w1 = (Ok s1, w1)).
  { intros s1 w1 E. rewrite (Hadd ev2 H2).
    assert (Hb : str_eqb (trim (newTask s1)) [] = true).
    { cbn [handle] in E. unfold addTask, bind in E.
      destruct (str_eqb (trim (newTask s)) []) eqn:Hblank.
      - cbn in E. injection E as <- _. exact Hblank.
      - unfold randomUUID, lift in E.
        destruct (iterate (tasks s)) as [l|e]; cbn in E; [|discriminate E].
        injection E as <- _. reflexivity. }
    cbn [handle]. unfold addTask, bind. rewrite Hb. reflexivity. }
  destruct (handle rt AddClick s w) as [[s1|e] w1] eqn:E; [|reflexivity].
  now apply Hnext.
Qed.

Lemma repeated_add_adds_once_witness :
  let s := setNewTask (str " C ") (state_with sample_tasks) in
  (s1 <- handle sample_runtime AddClick s ;;
   handle sample_runtime (KeyDown key_Enter) s1) (world_with [])
  = handle sample_runtime AddClick s (world_with []).
Proof.
  intros s.
  apply (@repeated_add_adds_once sample_runtime AddClick (KeyDown key_Enter) s
           (world_with [])); reflexivity.
Defined.

(** ** What the component leaves alone in the storage area *)

Lemma same_elsewhere_refl (w : World) : same_elsewhere w w.
Proof. split; auto. Qed.

Lemma same_elsewhere_trans (w1 w2 w3 : World) :
  same_elsewhere w1 w2 -> same_elsewhere w2 w3 -> same_elsewhere w1 w3.
Proof.
  intros [B1 H1] [B2 H2]. split; [congruence|].
  intros k Ha Hb. now rewrite H2, H1.
Qed.

Lemma same_elsewhere_same_storage (w w' : World) :
  storage w' = storage w -> same_elsewhere w w'.
Proof. intros H. unfold same_elsewhere. rewrite H. auto. Qed.

Lemma frames_ret {A} (a : A) : frames (ret a).
Proof. intros w. apply same_elsewhere_refl. Qed.

Lemma frames_throw {A} (e : exn) : frames (@throw A e).
Proof. intros w. apply same_elsewhere_refl. Qed.

Lemma frames_lift {A} (o : outcome A) : frames (lift o).
Proof. intros w. apply same_elsewhere_refl. Qed.

Section Frames.

Context {A B : Type}.

Lemma frames_bind (m : M A) (k : A -> M B) :
  frames m -> (forall a, frames (k a)) -> frames (bind m k).
Proof.
  intros Hm Hk w. unfold bind. specialize (Hm w).
  destruct (m w) as [[a|e] w1]; cbn [snd] in *; [|exact Hm].
  eapply same_elsewhere_trans; [exact Hm|apply Hk].
Qed.

Lemma frames_try_catch (body : M A) (handler : exn -> M A) :
  frames body -> (forall e, frames (handler e)) -> frames (try_catch body handler).
Proof.
  intros Hm Hk w. unfold try_catch. specialize (Hm w).
  destruct (body w) as [[a|e] w1]; cbn [snd] in *; [exact Hm|].
  eapply same_elsewhere_trans; [exact Hm|apply Hk].
Qed.

End Frames.

Lemma frames_mapM {A B} (f : A -> M B) (l : list A) :
  (forall x, frames (f x)) -> frames (mapM f l).
Proof.
  intros Hf. induction l as [|x l IH]; cbn [mapM]; [apply frames_ret|].
  apply frames_bind; [apply Hf|]. intros y.
  apply frames_bind; [exact IH|]. intros ys. apply frames_ret.
Qed.

Lemma frames_filterM {A} (f : A -> M bool) (l : list A) :
  (forall x, frames (f x)) -> frames (filterM f l).
Proof.
  intros Hf. induction l as [|x l IH]; cbn [filterM]; [apply frames_ret|].
  apply frames_bind; [apply Hf|]. intros y.
  apply frames_bind; [exact IH|]. intros ys. apply frames_ret.
Qed.

Lemma frames_console_log (msg : string) : frames (console_log msg).
Proof. intros w. now apply same_elsewhere_same_storage. Qed.

Lemma frames_console_error (msg : string) : frames (console_error msg).
Proof. intros w. now apply same_elsewhere_same_storage. Qed.

Lemma frames_request_audio (op : audio_op) : frames (request_audio op).
Proof. intros w. now apply same_elsewhere_same_storage. Qed.

Lemma frames_randomUUID (rt : Runtime) : frames (randomUUID rt).
Proof. intros w. now apply same_elsewhere_same_storage. Qed.

Lemma frames_getItem (k : jsstring) : frames (getItem k).
Proof.
  intros w. unfold getItem. destruct (blocked (storage w)); apply same_elsewhere_refl.
Qed.

Lemma frames_setItem (rt : Runtime) (k v : jsstring) :
  k = k_todos \/ k = k_test -> frames (setItem rt k v).
Proof.
  intros Hk w. unfold setItem.
  destruct (blocked (storage w)); [apply same_elsewhere_refl|].
  destruct (quota_allows rt _); [|apply same_elsewhere_refl].
  split; [reflexivity|]. intros k0 Ha Hb. cbn.
  apply item_get_set_other. destruct Hk; congruence.
Qed.

Lemma frames_removeItem (k : jsstring) :
  k = k_todos \/ k = k_test -> frames (removeItem k).
Proof.
  intros Hk w. unfold removeItem.
  destruct (blocked (storage w)); [apply same_elsewhere_refl|].
  split; [reflexivity|]. intros k0 Ha Hb. cbn.
  apply item_get_remove_other. destruct Hk; congruence.
Qed.

Create HintDb frames discriminated.
#[local] Hint Resolve frames_ret frames_throw frames_lift frames_console_log
  frames_console_error frames_request_audio frames_randomUUID frames_getItem
  frames_setItem frames_removeItem : frames.

(** One step of a proof that a computation is framed: through the
    combinators of the monad and the case distinctions of the code. *)
Ltac frames_step :=
  match goal with
  | |- frames (bind _ _) => apply frames_bind; [|intros ?]
  | |- frames (try_catch _ _) => apply frames_try_catch; [|intros ?]
  | |- frames (mapM _ _) => apply frames_mapM; intros ?
  | |- frames (filterM _ _) => apply frames_filterM; intros ?
  | |- frames (if ?b then _ else _) => destruct b
  | |- frames (match ?x with _ => _ end) => destruct x
  | |- frames _ => solve [auto with frames]
  end.

Lemma frames_isLocalStorageAvailable (rt : Runtime) :
  frames (isLocalStorageAvailable rt).
Proof. unfold isLocalStorageAvailable. repeat frames_step. Qed.

Lemma frames_loadEffect (rt : Runtime) (s : State) : frames (loadEffect rt s).
Proof.
  unfold loadEffect. pose proof (frames_isLocalStorageAvailable rt).
  repeat frames_step; assumption.
Qed.

Lemma frames_saveEffect (rt : Runtime) (v : value) : frames (saveEffect rt v).
Proof.
  unfold saveEffect. pose proof (frames_isLocalStorageAvailable rt).
  repeat frames_step; assumption.
Qed.

Lemma frames_render (rt : Runtime) (s : State) : frames (render rt s).
Proof.
  unfold render, filteredTasks, array_filter, filteredTasks_keep.
  repeat frames_step.
Qed.

Lemma frames_addTask (rt : Runtime) (s : State) : frames (addTask rt s).
Proof. unfold addTask. repeat frames_step. Qed.

Lemma frames_handle (rt : Runtime) (ev : event) (s : State) : frames (handle rt ev s).
Proof.
  pose proof (frames_addTask rt s).
  destruct ev; cbn [handle];
    unfold handleKeyDown, toggleTask, updateTaskPriority, deleteTask, array_map,
      array_filter, toggleTask_each, updateTaskPriority_each, deleteTask_keep,
      initializeAudio, playCompleteSound, playDeleteSound;
    repeat frames_step; assumption.
Qed.

Lemma frames_dispatch (rt : Runtime) (ev : event) (s : State) :
  frames (dispatch rt ev s).
Proof.
  unfold dispatch, commit.
  pose proof (frames_handle rt ev). pose proof (frames_render rt).
  pose proof (frames_saveEffect rt).
  repeat frames_step; auto.
Qed.

Lemma frames_dispatch_all (rt : Runtime) (evs : list event) :
  forall s, frames (dispatch_all rt evs s).
Proof.
  induction evs as [|ev evs IH]; intros s; cbn [dispatch_all].
  - apply frames_ret.
  - apply frames_bind; [apply frames_dispatch|exact IH].
Qed.

Lemma frames_mount (rt : Runtime) : frames (mount rt).
Proof.
  unfold mount, commit.
  pose proof (frames_render rt). pose proof (frames_loadEffect rt).
  pose proof (frames_saveEffect rt).
  repeat frames_step; auto.
Qed.



(** ** The texts of the tasks *)

Lemma trim_start_fixed (s : jsstring) :
  match s with [] => True | c :: _ => is_white_space c = false end ->
  trim_start s = s.
Proof. destruct s as [|c r]; [reflexivity|]. cbn [trim_start]. now intros ->. Qed.

Lemma trim_start_head (s : jsstring) :
  match trim_start s with [] => True | c :: _ => is_white_space c = false end.
Proof.
  induction s as [|c r IH]; cbn [trim_start]; [exact I|].
  destruct (is_white_space c) eqn:E; [exact IH|exact E].
Qed.

Lemma trim_start_idempotent (s : jsstring) : trim_start (trim_start s) = trim_start s.
Proof. apply trim_start_fixed, trim_start_head. Qed.

Lemma trim_start_suffix (s : jsstring) : exists p, s = p ++ trim_start s.
Proof.
  induction s as [|c r (p & IH)]; [now exists []|]. cbn [trim_start].
  destruct (is_white_space c); [|now exists []].
  exists (c :: p). cbn. now rewrite <- IH.
Qed.

Lemma trim_end_prefix (s : jsstring) : exists q, s = trim_end s ++ q.
Proof.
  unfold trim_end. destruct (trim_start_suffix (rev s)) as (p & Hp).
  exists (rev p). rewrite <- rev_app_distr, <- Hp. now rewrite rev_involutive.
Qed.

Lemma trim_idempotent (s : jsstring) : trim (trim s) = trim s.
Proof.
  unfold trim.
  assert (H : trim_start (trim_end (trim_start s)) = trim_end (trim_start s)).
  { apply trim_start_fixed.
    pose proof (trim_start_head s) as Hh.
    destruct (trim_end_prefix (trim_start s)) as (q & Hq).
    destruct (trim_end (trim_start s)) as [|c r]; [exact I|].
    rewrite Hq in Hh. exact Hh. }
  rewrite H. unfold trim_end. rewrite rev_involutive.
  now rewrite trim_start_idempotent.
Qed.

Lemma every_task_all_tasks (P : Task -> Prop) (es : list value) :
  every_task P es -> all_tasks es.
Proof.
  intros H. eapply Forall_impl; [|exact H].
  intros e (t & Ht & _). unfold is_task. now rewrite Ht.
Qed.

(** A property of tasks that flipping [completed] and setting [priority]
    keep, and that the task [addTask] builds has, is kept by every handler. *)
Lemma handle_keeps_every_task
  (P : Task -> Prop) (rt : Runtime) (ev : event) (s : State) (w : World)
  (es : list value) :
  (forall t, P t -> P (flipped t)) ->
  (forall p t, P t -> P (with_priority p t)) ->
  (forall i p, trim (newTask s) <> [] ->
               P {| id := i; text := trim (newTask s); completed := false;
                    priority := p |}) ->
  tasks s = VArray es ->
  every_task P es ->
  exists s' w' es',
    handle rt ev s w = (Ok s', w') /\
    tasks s' = VArray es' /\
    every_task P es'.
Proof.
  intros Hflip Hprio Hnew Hs Hes.
  pose proof (every_task_all_tasks Hes) as Htasks.
  assert (Hadd : exists s' w' es',
             (r <- addTask rt s ;; ret (snd r)) w = (Ok s', w') /\
             tasks s' = VArray es' /\ every_task P es').
  { unfold addTask, bind. destruct (str_eqb (trim (newTask s)) []) eqn:Hblank.
    - exists s, w, es. cbn. auto.
    - rewrite Hs. cbn. eexists. eexists. eexists.
      split; [reflexivity|]. split; [reflexivity|].
      apply Forall_app. split; [assumption|]. constructor; [|constructor].
      eexists. split.
      + apply (as_task_object {| id := uuid_nth rt (uuids_drawn w);
                                 text := trim (newTask s);
                                 completed := false;
                                 priority := selectedPriority s |}).
      + apply Hnew. now apply str_eqb_neq. }
  destruct ev as [v|p|key| |tab|i|i p|i]; cbn [handle].
  - exists (setNewTask v s), w, es. cbn. auto.
  - exists (setSelectedPriority p s), w, es. cbn. auto.
  - unfold handleKeyDown. destruct (str_eqb key key_Enter).
    + destruct Hadd as (s' & w' & es' & E & R).
      exists s', w', es'. split; [|exact R].
      unfold bind in *. destruct (addTask rt s w) as [[r|e] w1]; cbn in *; congruence.
    + exists s, w, es. cbn. auto.
  - exact Hadd.
  - exists (setActiveTab tab s), w, es. cbn. auto.
  - destruct (toggleTask_mapM rt i w Htasks) as (w' & E & _).
    eexists. exists w'. eexists.
    split; [unfold toggleTask, array_map, bind; rewrite Hs; unfold bind; now rewrite E|].
    split; [reflexivity|].
    apply Forall_map. eapply Forall_impl; [|exact Hes].
    intros e (t & Ht & HP).
    destruct (toggle_entry_task rt i e Ht) as [[-> _]|[Hf _]]; eauto.
  - eexists. exists w. eexists.
    split; [unfold updateTaskPriority, array_map, bind; rewrite Hs; unfold bind;
            now rewrite updateTaskPriority_mapM|].
    split; [reflexivity|].
    apply Forall_map. eapply Forall_impl; [|exact Hes].
    intros e (t & Ht & HP).
    destruct (priority_entry_as_task i p e Ht) as [[-> _]|[Hf _]]; eauto.
  - destruct (@deleteTask_run s i w es Hs Htasks) as (w' & E & _).
    eexists. exists w'. eexists.
    split; [unfold bind; now rewrite E|]. split; [reflexivity|].
    unfold every_task in *. rewrite Forall_forall in *.
    intros e He. apply filter_In in He as [He _]. auto.
Qed.

(** X17.  The texts of the tasks stay clean: when every task of the list
    has a text that is not blank and has no white space at either end (as
    in the empty list the component starts with), every sequence of
    interactions is handled without an exception and leaves a list of tasks
    with such texts. *)
Theorem texts_stay_trimmed
  (rt : Runtime) (evs : list event) (s : State) (w : World) (es : list value) :
  tasks s = VArray es ->
  every_task trimmed_text es ->
  exists s' w' es',
    handle_all rt evs s w = (Ok s', w') /\
    tasks s' = VArray es' /\
    every_task trimmed_text es'.
Proof.
  revert s w es. induction evs as [|ev evs IH]; intros s w es Hs Hes.
  - exists s, w, es. repeat split; assumption.
  - destruct (@handle_keeps_every_task trimmed_text rt ev s w es) as
      (s1 & w1 & es1 & E & Hs1 & Hes1); try assumption.
    + intros t H. exact H.
    + intros p t H. exact H.
    + intros i p Hne. split; [exact Hne|apply trim_idempotent].
    + destruct (IH s1 w1 es1 Hs1 Hes1) as (s' & w' & es' & E' & R).
      exists s', w', es'. split; [|exact R].
      cbn [handle_all]. unfold bind. now rewrite E.
Qed.

Lemma texts_stay_trimmed_witness :
  exists s' w' es',
    handle_all sample_runtime
      [InputChange (str "  "); AddClick; InputChange (str " C "); AddClick;
       ToggleClick (str "task-0")] initial_state (world_with [])
    = (Ok s', w') /\
    tasks s' = VArray es' /\
    every_task trimmed_text es'.
Proof.
  apply (@texts_stay_trimmed sample_runtime _ initial_state (world_with []) []).
  - reflexivity.
  - constructor.
Defined.

(** ** The first version and the current one *)

Lemma same_task_left (e1 e : value) : same_task e1 e -> is_task e1 = true.
Proof. intros (t & H & _). unfold is_task. now rewrite H. Qed.

Lemma same_task_right (e1 e : value) : same_task e1 e -> is_task e = true.
Proof. intros (t & _ & H). unfold is_task. now rewrite H. Qed.

Lemma same_tasks_left (es1 es : list value) :
  Forall2 same_task es1 es -> all_tasks es1.
Proof.
  intros H. induction H; constructor; [eapply same_task_left; eassumption|assumption].
Qed.

Lemma same_tasks_right (es1 es : list value) :
  Forall2 same_task es1 es -> all_tasks es.
Proof.
  intros H. induction H; constructor; [eapply same_task_right; eassumption|assumption].
Qed.

Lemma Forall2_map_same {A} (R : A -> A -> Prop) (f : A -> A) (l1 l2 : list A) :
  (forall a b, R a b -> R (f a) (f b)) ->
  Forall2 R l1 l2 -> Forall2 R (map f l1) (map f l2).
Proof. intros Hf H. induction H; cbn; constructor; auto. Qed.

Lemma Forall2_filter_same {A} (R : A -> A -> Prop) (p : A -> bool) (l1 l2 : list A) :
  (forall a b, R a b -> p a = p b) ->
  Forall2 R l1 l2 -> Forall2 R (filter p l1) (filter p l2).
Proof.
  intros Hp H. induction H as [|a b l1 l2 Hab _ IH]; cbn; [constructor|].
  rewrite (Hp a b Hab). destruct (p b); [constructor|]; assumption.
Qed.

Lemma same_task_toggle_entry (rt : Runtime) (i : jsstring) (e1 e : value) :
  same_task e1 e -> same_task (toggle_entry rt i e1) (toggle_entry rt i e).
Proof.
  intros (t & H1 & H).
  destruct (toggle_entry_task rt i e1 H1) as [[-> N1]|[F1 Y1]];
    destruct (toggle_entry_task rt i e H) as [[-> N]|[F Y]]; try congruence.
  - now exists t.
  - now exists (flipped t).
Qed.

Lemma same_task_has_id (i : jsstring) (e1 e : value) :
  same_task e1 e -> has_id i e1 = has_id i e.
Proof.
  intros (t & H1 & H). now rewrite (as_task_has_id _ i H1), (as_task_has_id _ i H).
Qed.

Lemma same_task_is_completed (e1 e : value) :
  same_task e1 e -> is_completed e1 = is_completed e.
Proof.
  intros (t & H1 & H). now rewrite (as_task_is_completed _ H1), (as_task_is_completed _ H).
Qed.

(** On a task the arrow function of the first version's [toggleTask]
    returns what the current one returns, and requests no sound. *)
Lemma first_toggleTask_each_run (rt : Runtime) (i : jsstring) (e : value) (w : World) :
  is_task e = true ->
  FirstVersion.toggleTask_each rt i e w = (Ok (toggle_entry rt i e), w).
Proof.
  intros H. destruct (is_task_object _ H) as [ps ->].
  unfold FirstVersion.toggleTask_each, toggle_entry, has_id, bind, lift. simpl.
  now destruct (strict_equals_string _ i).
Qed.

Lemma only_audio_sym (w w' : World) : only_audio w w' -> only_audio w' w.
Proof. intros (A & B & C). repeat split; congruence. Qed.

(** One interaction in both versions. *)
Lemma current_simulates_first_step
  (rt : Runtime) (ev : FirstVersion.event) (s1 : FirstVersion.State) (s : State)
  (w1 w : World) :
  same_state s1 s ->
  only_audio w1 w ->
  exists s1' w1' s' w',
    FirstVersion.handle rt ev s1 w1 = (Ok s1', w1') /\
    handle rt (current_event ev) s w = (Ok s', w') /\
    same_state s1' s' /\
    only_audio w1' w' /\
    audio w1' = audio w1.
Proof.
  intros ((es1 & es & H1 & H & HF) & Hn & Ht & Hp) Hw.
  pose proof (same_tasks_left HF) as Hes1.
  pose proof (same_tasks_right HF) as Hes.
  assert (Hstay : same_tasks (FirstVersion.tasks s1) (tasks s)).
  { exists es1, es. auto. }
  assert (Hadd : exists s1' w1' s' w',
             (r <- FirstVersion.addTask rt s1 ;; ret (snd r)) w1 = (Ok s1', w1') /\
             (r <- addTask rt s ;; ret (snd r)) w = (Ok s', w') /\
             same_state s1' s' /\ only_audio w1' w' /\ audio w1' = audio w1).
  { unfold FirstVersion.addTask, addTask, bind. rewrite Hn.
    destruct (str_eqb (trim (newTask s)) []).
    - exists s1, w1, s, w. cbn. repeat split; auto; apply Hw.
    - rewrite H1, H. cbn. eexists. eexists. eexists. eexists.
      split; [reflexivity|]. split; [reflexivity|]. split; [|split].
      + split; [|cbn; auto].
        eexists. eexists. split; [reflexivity|]. split; [reflexivity|].
        apply Forall2_app; [exact HF|]. constructor; [|constructor].
        exists {| id := uuid_nth rt (uuids_drawn w1); text := trim (newTask s);
                  completed := false; priority := None |}.
        split; [reflexivity|].
        destruct Hw as (_ & _ & ->). rewrite Hp. reflexivity.
      + destruct Hw as (A & B & C). repeat split; cbn; congruence.
      + reflexivity. }
  destruct ev as [v|key| |tab|i|i]; cbn [FirstVersion.handle handle current_event].
  - exists (FirstVersion.setNewTask v s1), w1, (setNewTask v s), w.
    cbn. repeat split; auto; apply Hw.
  - unfold FirstVersion.handleKeyDown, handleKeyDown.
    destruct (str_eqb key key_Enter).
    + destruct Hadd as (s1' & w1' & s' & w' & E1 & E & R).
      exists s1', w1', s', w'. split; [|split; [|exact R]].
      * unfold bind in *.
        destruct (FirstVersion.addTask rt s1 w1) as [[r|e] w2]; cbn in *; congruence.
      * unfold bind in *. destruct (addTask rt s w) as [[r|e] w2]; cbn in *; congruence.
    + exists s1, w1, s, w. cbn. repeat split; auto; apply Hw.
  - exact Hadd.
  - exists (FirstVersion.setActiveTab tab s1), w1, (setActiveTab tab s), w.
    cbn. repeat split; auto; apply Hw.
  - destruct (toggleTask_mapM rt i w Hes) as (w' & E & A).
    eexists. exists w1. eexists. exists w'.
    split; [|split; [|split; [|split]]].
    + unfold FirstVersion.toggleTask, array_map, bind. rewrite H1. unfold bind.
      rewrite (mapM_pure (FirstVersion.toggleTask_each rt i) (toggle_entry rt i)).
      * reflexivity.
      * intros e He w0. apply first_toggleTask_each_run.
        unfold all_tasks in Hes1. rewrite Forall_forall in Hes1. auto.
    + unfold toggleTask, array_map, bind. rewrite H. unfold bind. now rewrite E.
    + split; [|cbn; auto].
      eexists. eexists. split; [reflexivity|]. split; [reflexivity|].
      apply Forall2_map_same; [apply same_task_toggle_entry|exact HF].
    + eapply only_audio_trans; eassumption.
    + reflexivity.
  - destruct (@deleteTask_run s i w es H Hes) as (w' & E & A).
    eexists. exists w1. eexists. exists w'.
    split; [|split; [|split; [|split]]].
    + unfold FirstVersion.deleteTask, array_filter, bind. rewrite H1. unfold bind.
      rewrite (filterM_pure (deleteTask_keep i) (fun e => negb (has_id i e))).
      * reflexivity.
      * intros e He w0. apply deleteTask_keep_run.
        unfold all_tasks in Hes1. rewrite Forall_forall in Hes1. auto.
    + unfold bind. now rewrite E.
    + split; [|cbn; auto].
      eexists. eexists. split; [reflexivity|]. split; [reflexivity|].
      apply Forall2_filter_same; [|exact HF].
      intros a b Hab. now rewrite (same_task_has_id i Hab).
    + eapply only_audio_trans; eassumption.
    + reflexivity.
Qed.

(** X18.  The current version does what the first version did: from states
    that show the same tasks, input and tab, every sequence of interactions
    of the first version is handled by both without an exception and leads
    to states that again show the same, and to the same lists under the
    tab; the worlds differ only in the sound cues, which the first version
    never requests. *)
Theorem current_version_simulates_the_first
  (rt : Runtime) (evs : list FirstVersion.event)
  (s1 : FirstVersion.State) (s : State) (w1 w : World) :
  same_state s1 s ->
  only_audio w1 w ->
  exists s1' w1' s' w' visible1 visible,
    FirstVersion.handle_all rt evs s1 w1 = (Ok s1', w1') /\
    handle_all rt (map current_event evs) s w = (Ok s', w') /\
    same_state s1' s' /\
    only_audio w1' w' /\
    audio w1' = audio w1 /\
    FirstVersion.filteredTasks rt s1' w1' = (Ok (VArray visible1), w1') /\
    filteredTasks rt s' w' = (Ok (VArray visible), w') /\
    Forall2 same_task visible1 visible.
Proof.
  revert s1 s w1 w. induction evs as [|ev evs IH]; intros s1 s w1 w Hs Hw.
  - destruct Hs as ((es1 & es & H1 & H & HF) & Hn & Ht & Hp).
    exists s1, w1, s, w. eexists. eexists.
    split; [reflexivity|]. split; [reflexivity|].
    split; [repeat split; auto; exists es1, es; auto|].
    split; [exact Hw|]. split; [reflexivity|].
    pose proof (same_tasks_left HF) as Hes1.
    pose proof (same_tasks_right HF) as Hes.
    assert (Hrun : forall es0 w0, all_tasks es0 ->
               filterM (filteredTasks_keep rt (activeTab s)) es0 w0
               = (Ok (view (activeTab s) es0), w0)).
    { intros es0 w0 H0. rewrite view_is_filter. apply filterM_pure.
      intros e He w2. apply filteredTasks_keep_run.
      unfold all_tasks in H0. rewrite Forall_forall in H0. auto. }
    split; [|split].
    + unfold FirstVersion.filteredTasks, array_filter, bind.
      rewrite H1, Ht, (Hrun es1 w1 Hes1). reflexivity.
    + unfold filteredTasks, array_filter, bind.
      rewrite H, (Hrun es w Hes). reflexivity.
    + rewrite !view_is_filter. apply Forall2_filter_same; [|exact HF].
      intros a b Hab. now rewrite (same_task_is_completed Hab).
  - destruct (@current_simulates_first_step rt ev s1 s w1 w Hs Hw)
      as (s2 & w2 & s3 & w3 & E1 & E & Hs' & Hw' & Ha).
    destruct (IH s2 s3 w2 w3 Hs' Hw')
      as (s1' & w1' & s' & w' & v1 & v & F1 & F & R1 & R2 & R3 & R4).
    exists s1', w1', s', w', v1, v.
    cbn [FirstVersion.handle_all handle_all map]. unfold bind. rewrite E1, E.
    split; [exact F1|]. split; [exact F|]. split; [exact R1|].
    split; [exact R2|]. split; [congruence|exact R4].
Qed.

Lemma current_version_simulates_the_first_witness :
  exists s1' w1' s' w' visible1 visible,
    FirstVersion.handle_all sample_runtime
      [FirstVersion.InputChange (str " C "); FirstVersion.KeyDown key_Enter;
       FirstVersion.ToggleClick (str "task-0"); FirstVersion.TabChange tab_completed]
      FirstVersion.initial_state (world_with []) = (Ok s1', w1') /\
    handle_all sample_runtime
      [InputChange (str " C "); KeyDown key_Enter;
       ToggleClick (str "task-0"); TabChange tab_completed]
      initial_state (world_with []) = (Ok s', w') /\
    same_state s1' s' /\
    only_audio w1' w' /\
    audio w1' = [] /\
    FirstVersion.filteredTasks sample_runtime s1' w1' = (Ok (VArray visible1), w1') /\
    filteredTasks sample_runtime s' w' = (Ok (VArray visible), w') /\
    Forall2 same_task visible1 visible.
Proof.
  apply (@current_version_simulates_the_first sample_runtime
           [FirstVersion.InputChange (str " C "); FirstVersion.KeyDown key_Enter;
            FirstVersion.ToggleClick (str "task-0"); FirstVersion.TabChange tab_completed]
           FirstVersion.initial_state initial_state (world_with []) (world_with [])).
  - repeat split. exists [], []. repeat split. constructor.
  - apply only_audio_refl.
Defined.

(** ** A stored text that is not a list *)

Lemma try_catch_logged (body : M unit) (msg : string) (w : World) :
  exists w', try_catch body (fun _ => console_error msg) w = (Ok tt, w').
Proof.
  unfold try_catch. destruct (body w) as [[[]|e] w1]; eexists; reflexivity.
Qed.

(** X19.  The load effect installs whatever the stored text parses to.
    When that is not an array, mounting ends with an exception: thrown by
    the guard of the save effect, or else by the render, which calls
    [filter] on the value. *)
Theorem mount_throws_unless_array
  (rt : Runtime) (w : World) (text : jsstring) (v : value) :
  storage_available rt w = true ->
  item_get k_todos (items (storage w)) = Some text ->
  JSON.parse text = Ok v ->
  (forall es, v <> VArray es) ->
  exists e w', mount rt w = (Throw e, w').
Proof.
  intros Ha Hg Hp Hv. unfold mount, bind.
  rewrite (@render_tasks rt initial_state w [] eq_refl (Forall_nil _)).
  destruct (loadEffect_run rt initial_state w) as (w1 & E1 & Hst1).
  rewrite E1, Ha, Hg. rewrite Ha in Hst1.
  destruct text as [|c t]; [discriminate Hp|]. rewrite Hp.
  assert (Hg1 : item_get k_todos (items (storage w1)) = Some (c :: t)).
  { rewrite Hst1, todos_after_test. exact Hg. }
  assert (Hrender : forall w2, render rt (setTasks v initial_state) w2
                               = (Throw TypeError, w2)).
  { intros w2. unfold render, filteredTasks, array_filter, bind. cbn [tasks setTasks].
    destruct v; try reflexivity. now contradiction (Hv elems). }
  assert (Hsave : (exists w2, saveEffect rt (tasks initial_state) w1 = (Ok tt, w2))
                  \/ exists e w2, saveEffect rt (tasks initial_state) w1 = (Throw e, w2)).
  { unfold saveEffect, bind.
    destruct (storage_available rt w1) eqn:Ha1.
    - pose proof Ha1 as Ha1'. storage_usable Ha1 Hb1.
      cbn [negb tasks initial_state length_is_zero lift List.length Nat.eqb].
      unfold getItem. cbn [storage blocked items after_test with_items]. rewrite Hb1.
      read_todos w1. rewrite Hg1, Hp. unfold lift at 1.
      destruct (length_gt_zero rt v) as [[|]|e].
      + left. eexists. reflexivity.
      + left. apply try_catch_logged.
      + right. eexists. eexists. reflexivity.
    - destruct (isLocalStorageAvailable_false _ _ Ha1) as (w2 & E & _).
      rewrite E. cbn [negb]. left. eexists. reflexivity. }
  destruct Hsave as [(w2 & ->)|(e & w2 & ->)].
  - unfold commit, bind. rewrite Hrender. eexists. eexists. reflexivity.
  - eexists. eexists. reflexivity.
Qed.

Lemma mount_throws_unless_array_witness :
  exists e w',
    mount sample_runtime (world_with [(k_todos, str "{}")]) = (Throw e, w').
Proof.
  apply (@mount_throws_unless_array sample_runtime
           (world_with [(k_todos, str "{}")]) (str "{}") (VObject [])).
  - reflexivity.
  - reflexivity.
  - vm_compute. reflexivity.
  - discriminate.
Defined.

(** ** The stored text follows the list *)

(** A handler that has not called [setTasks] has left the list alone. *)
Lemma handle_without_setTasks
  (rt : Runtime) (ev : event) (s s' : State) (w w' : World) (es : list value) :
  tasks s = VArray es ->
  all_tasks es ->
  handle rt ev s w = (Ok s', w') ->
  tasks_rev s' = tasks_rev s ->
  tasks s' = tasks s.
Proof.
  intros Hs Hes.
  assert (Hadd : forall r w1, addTask rt s w = (Ok r, w1) ->
                              tasks_rev (snd r) = tasks_rev s -> tasks (snd r) = tasks s).
  { unfold addTask, bind. destruct (str_eqb (trim (newTask s)) []).
    - intros r w1 H. injection H as <- _. reflexivity.
    - rewrite Hs. cbn. intros r w1 H. injection H as <- _. cbn.
      intros Hrev. now apply Nat.neq_succ_diag_l in Hrev. }
  destruct ev as [v|p|key| |tab|i|i p|i]; cbn [handle].
  - intros H _. injection H as <- _. reflexivity.
  - intros H _. injection H as <- _. reflexivity.
  - unfold handleKeyDown. destruct (str_eqb key key_Enter).
    + unfold bind. destruct (addTask rt s w) as [[r|e] w1] eqn:E; cbn; [|discriminate].
      intros H. injection H as <- _. eapply Hadd; reflexivity.
    + intros H _. injection H as <- _. reflexivity.
  - unfold bind. destruct (addTask rt s w) as [[r|e] w1] eqn:E; cbn; [|discriminate].
    intros H. injection H as <- _. eapply Hadd; reflexivity.
  - intros H _. injection H as <- _. reflexivity.
  - destruct (toggleTask_mapM rt i w Hes) as (w1 & E & _).
    unfold toggleTask, array_map, bind. rewrite Hs. unfold bind. rewrite E. cbn.
    intros H. injection H as <- _. cbn.
    intros Hrev. now apply Nat.neq_succ_diag_l in Hrev.
  - unfold updateTaskPriority, array_map, bind. rewrite Hs. unfold bind.
    rewrite updateTaskPriority_mapM by exact Hes. cbn.
    intros H. injection H as <- _. cbn.
    intros Hrev. now apply Nat.neq_succ_diag_l in Hrev.
  - destruct (@deleteTask_run s i w es Hs Hes) as (w1 & E & _).
    unfold bind. rewrite E. cbn.
    intros H. injection H as <- _. cbn.
    intros Hrev. now apply Nat.neq_succ_diag_l in Hrev.
Qed.

Lemma dispatch_all_persisted (rt : Runtime) (evs : list event) :
  unlimited rt ->
  forall (s : State) (w : World),
    blocked (storage w) = false ->
    well_stored w ->
    persisted s w ->
    exists s' w',
      dispatch_all rt evs s w = (Ok s', w') /\
      persisted s' w'.
Proof.
  intros Hu. induction evs as [|ev evs IH]; intros s w Hb Hw Hp.
  - exists s, w. split; [reflexivity|exact Hp].
  - destruct Hp as (es & ts & Hs & Hf & Hsync).
    destruct (@dispatch_on_well_stored rt ev s w es Hs (tasks_have_stored_forms Hf) Hw)
      as (s1 & w1 & es1 & ts1 & E1 & Hs1 & Hf1 & Hw1 & Hb1 & (w0 & Eh) & Hsame & Hput & _).
    assert (Hp1 : persisted s1 w1).
    { destruct (Nat.eq_dec (tasks_rev s1) (tasks_rev s)) as [Heq|Hne].
      - destruct (Hsame Heq) as (Hst & _).
        exists es, ts. split; [|split; [exact Hf|now rewrite Hst]].
        rewrite <- Hs.
        apply (@handle_without_setTasks rt ev s s1 w w0 es Hs
                 (stored_forms_are_tasks (tasks_have_stored_forms Hf)) Eh Heq).
      - exists es1, ts1. split; [exact Hs1|]. split; [exact Hf1|].
        intros Hne1. exact (Hput Hne Hu Hb Hne1). }
    destruct (IH s1 w1 (eq_trans Hb1 Hb) Hw1 Hp1) as (s2 & w2 & E2 & Hp2).
    exists s2, w2. cbn [dispatch_all]. unfold bind at 1. rewrite E1.
    split; [exact E2|exact Hp2].
Qed.

(** X20.  With a storage area that is usable, never full and holds no
    "todos" item or one the component has written, the stored text follows
    the list through a whole session: after mounting and any sequence of
    interactions the list is empty, or the item "todos" is the text of
    exactly the tasks of the list. *)
Theorem session_persists_the_list
  (rt : Runtime) (evs : list event) (w : World) :
  unlimited rt ->
  blocked (storage w) = false ->
  well_stored w ->
  exists s w',
    (s0 <- mount rt ;; dispatch_all rt evs s0) w = (Ok s, w') /\
    persisted s w'.
Proof.
  intros Hu Hb Hw.
  destruct (@mount_on_well_stored rt w Hw)
    as (s0 & w0 & ts & E0 & Hs0 & Hw0 & Hb0 & _ & _ & Hput).
  assert (Hp0 : persisted s0 w0).
  { exists (map task_json ts), ts. split; [exact Hs0|].
    split; [apply stored_form_task_json|]. intros _. exact (Hput Hu Hb). }
  destruct (@dispatch_all_persisted rt evs Hu s0 w0 (eq_trans Hb0 Hb) Hw0 Hp0)
    as (s1 & w1 & E1 & Hp1).
  exists s1, w1. unfold bind. rewrite E0. split; [exact E1|exact Hp1].
Qed.

Lemma session_persists_the_list_witness :
  exists s w',
    (s0 <- mount sample_runtime ;;
     dispatch_all sample_runtime
       [InputChange (str " C "); AddClick; ToggleClick (str "a")] s0)
      (world_with [(k_todos, tasks_text [task_A; task_B])]) = (Ok s, w') /\
    persisted s w'.
Proof.
  apply (@session_persists_the_list sample_runtime
           [InputChange (str " C "); AddClick; ToggleClick (str "a")]
           (world_with [(k_todos, tasks_text [task_A; task_B])])).
  - intros l. reflexivity.
  - reflexivity.
  - exists [task_A; task_B]. reflexivity.
Defined.
